(** * bee: configuration resolution from flags, environment and defaults

    A shallow embedding of the command-line surface of the [bee] package
    (the second half of [middleware.go]: [comandLine], [parse], [subParse],
    the name derivation, [parseValue] and the per-kind parsers, [exit]),
    together with models of the library calls it makes:
    - [strconv] ([ParseBool], [ParseUint], [ParseInt], [Atoi]);
    - [github.com/iancoleman/strcase] ([ToKebab], [ToScreamingSnake],
      [ToDelimited]);
    - the part of [flag.FlagSet] the package uses ([Var] and the typed
      [XxxVar] registrations, [Parse]).

    Conventions.
    - A Go [string] is a sequence of bytes: Rocq's [string].
    - [int] and [uint] are 64 bits wide ([IntSize] below).
    - The configuration record lives in a store addressed by field paths
      (the list of field indices from the root); a pointer to a field is
      its path.
    - A call either returns, terminates the process ([os.Exit]) or panics:
      the [Outcome] type. *)

From stdpp Require Import gmap strings list fin_maps.
From Stdlib Require Import ZArith Ascii String Lia.

Local Open Scope string_scope.
Local Open Scope Z_scope.

(** ** reflect.Kind *)

Inductive Kind : Set :=
| Invalid | Bool
| Int | Int8 | Int16 | Int32 | Int64
| Uint | Uint8 | Uint16 | Uint32 | Uint64 | Uintptr
| Float32 | Float64 | Complex64 | Complex128
| Array | Chan | Func | Interface | Map | Pointer | Slice
| String_ | Struct | UnsafePointer.

#[global] Instance Kind_eq_dec : EqDecision Kind.
Proof. solve_decision. Defined.

(** ** Errors

    Sentinel errors are constructors (Go compares them by identity).
    Every [fmt.Errorf] call of the package has one of three shapes, each
    with exactly one [%w] verb; a constructor per shape keeps the format
    string and the arguments as the source writes them. *)

Inductive error : Type :=
| ErrInvalidConfigType            (* errors.New("invalid config type") *)
| ErrUnsupportedType              (* errors.New("type not supported") *)
| flag_ErrHelp                    (* flag.ErrHelp *)
| flag_errParse                   (* flag: errors.New("parse error") *)
| flag_errRange                   (* flag: errors.New("value out of range") *)
| strconv_ErrSyntax               (* strconv.ErrSyntax *)
| strconv_ErrRange                (* strconv.ErrRange *)
| NumError (Func Num : string) (Err : error)      (* *strconv.NumError *)
| ExternError (origin text : string)              (* an error value built outside the package *)
| Errorf_s_w (format s : string) (w : error)      (* fmt.Errorf("%s ...: %w", s, w) *)
| Errorf_q_w (format q : string) (w : error)      (* fmt.Errorf("... %q: %w", q, w) *)
| Errorf_w_v (format : string) (w : error) (v : Kind) (* fmt.Errorf("...: %w: %v", w, v) *)
| flag_failf (format : string) (args : list string)
                                  (* flag: errors.New(fmt.Sprintf(format, args...)) *)
| flag_failf_v (format : string) (args : list string) (cause : error).
                                  (* the same with a last [%v] operand that is an error *)

(** [err.Unwrap()]: the operand of [%w], or [NumError.Err]. *)
Definition Unwrap (e : error) : option error :=
  match e with
  | NumError _ _ w | Errorf_s_w _ _ w | Errorf_q_w _ _ w | Errorf_w_v _ w _ => Some w
  | _ => None
  end.

(** [errors.Is(err, flag.ErrHelp)]. *)
Fixpoint errors_Is_ErrHelp (e : error) : bool :=
  match e with
  | flag_ErrHelp => true
  | NumError _ _ w | Errorf_s_w _ _ w | Errorf_q_w _ _ w | Errorf_w_v _ w _ =>
      errors_Is_ErrHelp w
  | _ => false
  end.

(** [errors.Is(err, ErrUnsupportedType)]. *)
Fixpoint errors_Is_ErrUnsupportedType (e : error) : bool :=
  match e with
  | ErrUnsupportedType => true
  | NumError _ _ w | Errorf_s_w _ _ w | Errorf_q_w _ _ w | Errorf_w_v _ w _ =>
      errors_Is_ErrUnsupportedType w
  | _ => false
  end.

(** [errors.Is(err, ErrInvalidConfigType)]. *)
Fixpoint errors_Is_ErrInvalidConfigType (e : error) : bool :=
  match e with
  | ErrInvalidConfigType => true
  | NumError _ _ w | Errorf_s_w _ _ w | Errorf_q_w _ _ w | Errorf_w_v _ w _ =>
      errors_Is_ErrInvalidConfigType w
  | _ => false
  end.

(** A Go result pair [(v, err)]; [None] is the [nil] error.  The value
    is kept also when [err != nil], as some callers store it regardless. *)
Definition result (A : Type) : Type := (A * option error)%type.

(** ** Bytes *)

Definition ord (c : ascii) : Z := Z.of_N (N_of_ascii c).
Definition chr (z : Z) : ascii := ascii_of_N (Z.to_N z).

Definition len (s : string) : Z := Z.of_nat (String.length s).

(** * strconv *)

Module strconv.

(** [strconv.IntSize], the size in bits of [int] and [uint]: 32 or 64
    with the target.  The development is of a 64-bit target; a result
    that depends on the size carries [IntSize = 64] as its hypothesis. *)
Definition IntSize : Z := 64.
Definition maxUint64 : Z := 2 ^ 64 - 1.

(** [lower(c)] is [c | ('x' - 'X')]. *)
Definition lower (c : ascii) : Z := Z.lor (ord c) (ord "x"%char - ord "X"%char).

Definition syntaxError (fn str : string) : error := NumError fn str strconv_ErrSyntax.
Definition rangeError (fn str : string) : error := NumError fn str strconv_ErrRange.

(** [ParseBool]. *)
Definition ParseBool (str : string) : result bool :=
  if decide (str = "1" \/ str = "t" \/ str = "T" \/ str = "TRUE" \/ str = "true" \/ str = "True")
  then (true, None)
  else if decide (str = "0" \/ str = "f" \/ str = "F" \/ str = "FALSE" \/ str = "false" \/ str = "False")
  then (false, None)
  else (false, Some (syntaxError "ParseBool" str)).

(** [underscoreOK]: underscores may only separate digits, or follow a base
    prefix.  [saw] is the last character class seen. *)
Inductive saw_t := saw_begin | saw_digit | saw_underscore | saw_other.

Fixpoint underscoreOK_loop (hex : bool) (saw : saw_t) (s : string) : bool :=
  match s with
  | EmptyString => match saw with saw_underscore => false | _ => true end
  | String c rest =>
      if ((ord "0"%char <=? ord c) && (ord c <=? ord "9"%char))
         || (hex && (ord "a"%char <=? lower c) && (lower c <=? ord "f"%char))
      then underscoreOK_loop hex saw_digit rest
      else if Ascii.eqb c "_"%char
      then match saw with
           | saw_digit => underscoreOK_loop hex saw_underscore rest
           | _ => false
           end
      else match saw with
           | saw_underscore => false
           | _ => underscoreOK_loop hex saw_other rest
           end
  end.

Definition underscoreOK (s : string) : bool :=
  let s := match s with
           | String c rest => if Ascii.eqb c "-"%char || Ascii.eqb c "+"%char then rest else s
           | EmptyString => s
           end in
  match s with
  | String c0 (String c1 rest) =>
      if Ascii.eqb c0 "0"%char
         && ((lower c1 =? ord "b"%char) || (lower c1 =? ord "o"%char) || (lower c1 =? ord "x"%char))
      then underscoreOK_loop (lower c1 =? ord "x"%char) saw_digit rest
      else underscoreOK_loop false saw_begin s
  | _ => underscoreOK_loop false saw_begin s
  end.

(** The digit loop of [ParseUint]: [n] is the value so far, [underscores]
    whether an underscore was skipped.  Returns the value and the
    underscore flag, or the error kind the loop stops with. *)
Fixpoint ParseUint_loop (base0 : bool) (base cutoff maxVal : Z)
    (s : string) (n : Z) (underscores : bool) : (Z * bool) + error :=
  match s with
  | EmptyString => inl (n, underscores)
  | String c rest =>
      if Ascii.eqb c "_"%char && base0
      then ParseUint_loop base0 base cutoff maxVal rest n true
      else
        let d := if (ord "0"%char <=? ord c) && (ord c <=? ord "9"%char) then Some (ord c - ord "0"%char)
                 else if (ord "a"%char <=? lower c) && (lower c <=? ord "z"%char)
                      then Some (lower c - ord "a"%char + 10)
                      else None in
        match d with
        | None => inr strconv_ErrSyntax
        | Some d =>
            if base <=? d then inr strconv_ErrSyntax
            else if cutoff <=? n then inr strconv_ErrRange
            else let n1 := n * base + d in
                 if maxVal <? n1 then inr strconv_ErrRange
                 else ParseUint_loop base0 base cutoff maxVal rest n1 underscores
        end
  end.

(** [ParseUint(s, base, bitSize)] for [base] 0 or 2..36 and
    [bitSize] 0..64 (all the calls made here satisfy this). *)
Definition ParseUint (s : string) (base bitSize : Z) : result Z :=
  let fnParseUint := "ParseUint" in
  if decide (s = "") then (0, Some (syntaxError fnParseUint s))
  else
    let base0 := base =? 0 in
    let s0 := s in
    let '(base, s) :=
      if base0 then
        match s with
        | String c0 rest0 =>
            if Ascii.eqb c0 "0"%char then
              match rest0 with
              | String c1 rest1 =>
                  if (3 <=? len s) && (lower c1 =? ord "b"%char) then (2, rest1)
                  else if (3 <=? len s) && (lower c1 =? ord "o"%char) then (8, rest1)
                  else if (3 <=? len s) && (lower c1 =? ord "x"%char) then (16, rest1)
                  else (8, rest0)
              | EmptyString => (8, rest0)
              end
            else (10, s)
        | EmptyString => (10, s)
        end
      else (base, s) in
    let bitSize := if bitSize =? 0 then IntSize else bitSize in
    let cutoff := maxUint64 / base + 1 in
    let maxVal := 2 ^ bitSize - 1 in
    match ParseUint_loop base0 base cutoff maxVal s 0 false with
    | inr strconv_ErrRange => (maxVal, Some (rangeError fnParseUint s0))
    | inr _ => (0, Some (syntaxError fnParseUint s0))
    | inl (n, underscores) =>
        if underscores && negb (underscoreOK s0)
        then (0, Some (syntaxError fnParseUint s0))
        else (n, None)
    end.

(** [ParseInt(s, base, bitSize)]. *)
Definition ParseInt (s : string) (base bitSize : Z) : result Z :=
  let fnParseInt := "ParseInt" in
  match s with
  | EmptyString => (0, Some (syntaxError fnParseInt s))
  | String c rest =>
      let s0 := s in
      let '(neg, s) := if Ascii.eqb c "+"%char then (false, rest)
                       else if Ascii.eqb c "-"%char then (true, rest)
                       else (false, s) in
      let '(un, err) := ParseUint s base bitSize in
      let bitSize := if bitSize =? 0 then IntSize else bitSize in
      let cutoff := 2 ^ (bitSize - 1) in
      let convert : result Z :=
        if negb neg && (cutoff <=? un) then (cutoff - 1, Some (rangeError fnParseInt s0))
        else if neg && (cutoff <? un) then (- cutoff, Some (rangeError fnParseInt s0))
        else (if neg then - un else un, None) in
      match err with
      | Some (NumError _ _ strconv_ErrRange) => convert
      | Some (NumError _ _ e) => (0, Some (NumError fnParseInt s0 e))
      | Some e => (0, Some e)
      | None => convert
      end
  end.

(** The fast path of [Atoi], for a text short enough not to overflow
    [int].  [ch] is a byte: the subtraction wraps around. *)
Fixpoint Atoi_fast_loop (s : string) (n : Z) : option Z :=
  match s with
  | EmptyString => Some n
  | String ch rest =>
      let ch := (ord ch - ord "0"%char) mod 256 in
      if 9 <? ch then None else Atoi_fast_loop rest (n * 10 + ch)
  end.

(** [Atoi(s)]. *)
Definition Atoi (s : string) : result Z :=
  let fnAtoi := "Atoi" in
  let sLen := len s in
  if ((IntSize =? 32) && ((0 <? sLen) && (sLen <? 10)))
     || ((IntSize =? 64) && ((0 <? sLen) && (sLen <? 19))) then
    let s0 := s in
    match s with
    | EmptyString => (0, Some (syntaxError fnAtoi s0))
    | String c rest =>
        let signed := Ascii.eqb c "-"%char || Ascii.eqb c "+"%char in
        let s := if signed then rest else s in
        if signed && (len s <? 1) then (0, Some (syntaxError fnAtoi s0))
        else match Atoi_fast_loop s 0 with
             | None => (0, Some (syntaxError fnAtoi s0))
             | Some n => (if Ascii.eqb c "-"%char then - n else n, None)
             end
    end
  else
    match ParseInt s 10 0 with
    | (i64, Some (NumError _ num e)) => (i64, Some (NumError fnAtoi num e))
    | r => r
    end.

End strconv.

(** * strings *)

Module strings.

(** The six ASCII bytes of [asciiSpace]: tab, newline, vertical tab, form
    feed, carriage return, space. *)
Definition asciiSpace (c : ascii) : bool :=
  ((9 <=? ord c) && (ord c <=? 13)) || (ord c =? 32).

(** The UTF-8 encodings of the other runes with [unicode.IsSpace]:
    U+0085 and U+00A0 (two bytes); U+1680, U+2000..U+200A, U+2028, U+2029,
    U+202F, U+205F, U+3000 (three bytes). *)
Definition space2 (c0 c1 : ascii) : bool :=
  (ord c0 =? 194) && ((ord c1 =? 133) || (ord c1 =? 160)).

Definition space3 (c0 c1 c2 : ascii) : bool :=
  ((ord c0 =? 225) && (ord c1 =? 154) && (ord c2 =? 128))
  || ((ord c0 =? 226) && (ord c1 =? 128)
      && (((128 <=? ord c2) && (ord c2 <=? 138))
          || (ord c2 =? 168) || (ord c2 =? 169) || (ord c2 =? 175)))
  || ((ord c0 =? 226) && (ord c1 =? 129) && (ord c2 =? 159))
  || ((ord c0 =? 227) && (ord c1 =? 128) && (ord c2 =? 128)).

(** Drop the leading white space of a byte sequence. *)
Fixpoint trimLeft (l : list ascii) : list ascii :=
  match l with
  | c0 :: r0 =>
      if asciiSpace c0 then trimLeft r0
      else match r0 with
           | c1 :: r1 =>
               if space2 c0 c1 then trimLeft r1
               else match r1 with
                    | c2 :: r2 => if space3 c0 c1 c2 then trimLeft r2 else l
                    | [] => l
                    end
           | [] => l
           end
  | [] => l
  end.

(** The same from the end: [l] is the sequence reversed. *)
Fixpoint trimLeft_rev (l : list ascii) : list ascii :=
  match l with
  | c0 :: r0 =>
      if asciiSpace c0 then trimLeft_rev r0
      else match r0 with
           | c1 :: r1 =>
               if space2 c1 c0 then trimLeft_rev r1
               else match r1 with
                    | c2 :: r2 => if space3 c2 c1 c0 then trimLeft_rev r2 else l
                    | [] => l
                    end
           | [] => l
           end
  | [] => l
  end.

(** [strings.TrimSpace]. *)
Definition TrimSpace (s : string) : string :=
  string_of_list_ascii
    (rev (trimLeft_rev (rev (trimLeft (list_ascii_of_string s))))).

End strings.

(** * github.com/iancoleman/strcase

    [ToScreamingDelimited] with an empty [ignore] set, which is how the
    three entry points used by the package call it: the test on the
    previous byte being ignored is then false and no separator is kept. *)

Module strcase.

Definition isCap (c : ascii) : bool := (ord "A"%char <=? ord c) && (ord c <=? ord "Z"%char).
Definition isLow (c : ascii) : bool := (ord "a"%char <=? ord c) && (ord c <=? ord "z"%char).
Definition isNum (c : ascii) : bool := (ord "0"%char <=? ord c) && (ord c <=? ord "9"%char).

Definition isSeparator (c : ascii) : bool :=
  Ascii.eqb c " "%char || Ascii.eqb c "_"%char || Ascii.eqb c "-"%char || Ascii.eqb c "."%char.

(** The loop over the bytes; [prev] is the byte before [s] in the input. *)
Fixpoint ToScreamingDelimited_loop (delimiter : ascii) (screaming : bool)
    (prev : option ascii) (s : string) : string :=
  match s with
  | EmptyString => EmptyString
  | String v0 rest =>
      let vIsCap := isCap v0 in
      let vIsLow := isLow v0 in
      let v := if vIsLow && screaming then chr (ord v0 + ord "A"%char - ord "a"%char)
               else if vIsCap && negb screaming then chr (ord v0 + ord "a"%char - ord "A"%char)
               else v0 in
      let tail := ToScreamingDelimited_loop delimiter screaming (Some v0) rest in
      let plain := if isSeparator v then String delimiter tail else String v tail in
      match rest with
      | EmptyString => plain
      | String next _ =>
          let vIsNum := isNum v in
          let nextIsCap := isCap next in
          let nextIsLow := isLow next in
          let nextIsNum := isNum next in
          if (vIsCap && (nextIsLow || nextIsNum))
             || (vIsLow && (nextIsCap || nextIsNum))
             || (vIsNum && (nextIsCap || nextIsLow))
          then
            let prevIsCap := match prev with Some p => isCap p | None => false end in
            let after := if vIsLow || vIsNum || nextIsNum then String delimiter tail else tail in
            if vIsCap && nextIsLow && prevIsCap
            then String delimiter (String v after)
            else String v after
          else plain
      end
  end.

Definition ToScreamingDelimited (s : string) (delimiter : ascii) (screaming : bool) : string :=
  ToScreamingDelimited_loop delimiter screaming None (strings.TrimSpace s).

Definition ToDelimited (s : string) (delimiter : ascii) : string :=
  ToScreamingDelimited s delimiter false.

Definition ToKebab (s : string) : string := ToDelimited s "-"%char.

Definition ToScreamingSnake (s : string) : string := ToScreamingDelimited s "_"%char true.

End strcase.

(** * reflect: the types a configuration record is made of *)

(** A struct tag, as the conventional list of [key:"value"] pairs. *)
Definition StructTag : Type := list (string * string).

(** [tag.Get(key)]: the value of the first pair with that key, or [""]. *)
Fixpoint Get (tag : StructTag) (key : string) : string :=
  match tag with
  | [] => ""
  | (k, v) :: rest => if String.eqb k key then v else Get rest key
  end.

(** The type of a field.  The twelve types the package binds to a flag are
    named; [T_struct] is any other struct type, with its exported fields;
    [T_other k] is any other type, of kind [k] (a map, a pointer, a named
    type whose underlying type is [bool], ...).  [T_other Struct] stands
    for a struct type with no field. *)
Inductive GoType : Type :=
| T_bool | T_string | T_uint | T_uint64 | T_int | T_int64 | T_float64
| T_Duration                      (* time.Duration *)
| T_URL | T_Time                  (* bee.URL, bee.Time *)
| T_StringSlice | T_IntSlice      (* bee.StringSlice, bee.IntSlice *)
| T_struct (fields : Fields)
| T_other (k : Kind)
with Fields : Type :=
| FNil
| FCons (name : string) (type : GoType) (tag : StructTag) (rest : Fields).

Scheme GoType_mut := Induction for GoType Sort Prop
  with Fields_mut := Induction for Fields Sort Prop.

(** [t.Kind()]. *)
Definition Kind_of (t : GoType) : Kind :=
  match t with
  | T_bool => Bool
  | T_string => String_
  | T_uint => Uint
  | T_uint64 => Uint64
  | T_int => Int
  | T_int64 | T_Duration => Int64
  | T_float64 => Float64
  | T_URL | T_Time | T_struct _ => Struct
  | T_StringSlice | T_IntSlice => Slice
  | T_other k => k
  end.

(** reflect.StructField, as far as the package reads it. *)
Record StructField : Type := { Name : string; Type_ : GoType; Tag : StructTag }.

(** * The name deriver *)

(** [fmt.Sprintf("%s-%s", a, b)] and its siblings are concatenations. *)
Definition flagName (sf : StructField) (prefix : string) : string :=
  let f := Get (Tag sf) "flag" in
  if negb (String.eqb f "") then f
  else
    let n := Name sf in
    let n := if negb (String.eqb prefix "") then prefix ++ "-" ++ n else n in
    strcase.ToKebab n.

Definition envVarName (cl_name : string) (sf : StructField) (prefix : string) : string :=
  let e := Get (Tag sf) "env" in
  if negb (String.eqb e "") then e
  else
    let n := cl_name ++ "_" ++ Name sf in
    let n := if negb (String.eqb prefix "")
             then cl_name ++ "_" ++ prefix ++ "_" ++ Name sf else n in
    strcase.ToScreamingSnake n.

Definition usage (sf : StructField) (env : string) (prefix : string) : string :=
  let u := Get (Tag sf) "help" in
  if negb (String.eqb u "") then u ++ " (env " ++ env ++ ")"
  else
    let n := Name sf in
    let n := if negb (String.eqb prefix "") then prefix ++ " " ++ Name sf else n in
    strcase.ToDelimited n " "%char ++ " (env " ++ env ++ ")".

Definition newPrefix (sf : StructField) (prefix : string) : string :=
  if negb (String.eqb prefix "") then prefix ++ "-" ++ Name sf
  else Name sf.

(** * Values, the store and the outcome of a call *)

(** A field of the configuration record is addressed by the indices of
    the fields leading to it from the root.  (Field names of a Go struct
    type are pairwise distinct, so [v.FieldByName(field.Name)] is the
    [i]-th field.) *)
Definition Path : Type := list nat.

(** What the package calls and this development does not define:
    [strconv.ParseFloat] and [time.ParseDuration] of the Go library, and
    the [Set] methods of the package's own [URL], [Time], [StringSlice]
    and [IntSlice], whose file is not among the sources.  A [Set] method
    has a pointer receiver: it maps the receiver's value and the text to
    the receiver's new value and an error. *)
Record Extern : Type := {
  float64 : Type;
  float64_zero : float64;
  ParseFloat : string -> Z -> result float64;
  Duration_ParseDuration : string -> result Z;
  URL : Type;
  URL_zero : URL;
  URL_Set : URL -> string -> result URL;
  Time : Type;
  Time_zero : Time;
  Time_Set : Time -> string -> result Time;
  StringSlice_Set : list string -> string -> result (list string);
  IntSlice_Set : list Z -> string -> result (list Z);
}.

Inductive ErrorHandling : Set :=
| ContinueOnError | ExitOnError | PanicOnError
| OtherErrorHandling.             (* any other value of the integer type *)

(** The value of [panic(v)]. *)
Inductive PanicValue : Type :=
| panic_error (e : error)
| panic_msg (format : string) (args : list string).

Inductive Outcome (A : Type) : Type :=
| Returns (a : A)
| Exits (code : Z)                (* os.Exit(code) *)
| Panics (p : PanicValue).
Arguments Returns {A} a.
Arguments Exits {A} code.
Arguments Panics {A} p.

(** The two writers: [cl.output], and the output of [cl.flagSet]. *)
Inductive Stream : Set := cl_output | flagSet_output.

Inductive Event : Type :=
| Fprintf (format : string) (e : error)            (* fmt.Fprintf(w, "bee: %v\n", err) *)
| Fprintln (format : string) (args : list string) (cause : option error)
                                                   (* the message line written by flag's sprintf *)
| Usage.                                           (* a call of the flag set's usage function *)

(** The twelve implementations of [flag.Value] the package registers. *)
Inductive ValueType : Set :=
| boolValue | stringValue | uintValue | uint64Value | intValue | int64Value
| float64Value | durationValue
| URL_Value | Time_Value | StringSlice_Value | IntSlice_Value.

#[global] Instance ValueType_eq_dec : EqDecision ValueType.
Proof. solve_decision. Defined.

(** A registered flag: its name, usage text and the pointer it writes
    through.  (The default value's text, used only to print usage, is
    left out.) *)
Record Flag : Type := { Flag_Name : string; Flag_Usage : string; Flag_Value : ValueType * Path }.

(** The fields of [comandLine] that are set once, before [parse]. *)
Record comandLine : Type := {
  lookupEnvFunc : string -> option string;
  name : string;
  errorHandling : ErrorHandling;
}.

Section Model.

Context (X : Extern).

Inductive value : Type :=
| V_bool (b : bool)
| V_string (s : string)
| V_uint (n : Z)
| V_uint64 (n : Z)
| V_int (n : Z)
| V_int64 (n : Z)
| V_float64 (f : float64 X)
| V_Duration (d : Z)
| V_URL (u : URL X)
| V_Time (t : Time X)
| V_StringSlice (l : list string)
| V_IntSlice (l : list Z).

(** Everything a call can change: the flag set's table of defined flags,
    [cl.help], the memory holding the configuration record, what was
    written to the two writers, and the names [cl.lookupEnvFunc] was
    called with. *)
Record State : Type := {
  formal : gmap string Flag;
  help : bool;
  mem : gmap Path value;
  printed : list (Stream * Event);
  lookups : list string;
}.

Definition set_formal (f : gmap string Flag) (st : State) : State :=
  {| formal := f; help := help st; mem := mem st; printed := printed st; lookups := lookups st |}.
Definition set_help (b : bool) (st : State) : State :=
  {| formal := formal st; help := b; mem := mem st; printed := printed st; lookups := lookups st |}.
Definition set_mem (m : gmap Path value) (st : State) : State :=
  {| formal := formal st; help := help st; mem := m; printed := printed st; lookups := lookups st |}.
Definition print (w : Stream) (e : Event) (st : State) : State :=
  {| formal := formal st; help := help st; mem := mem st;
     printed := printed st ++ [(w, e)]; lookups := lookups st |}.
Definition log_lookup (n : string) (st : State) : State :=
  {| formal := formal st; help := help st; mem := mem st; printed := printed st;
     lookups := lookups st ++ [n] |}.

(** Computations: a state transformer with an outcome. *)
Definition M (A : Type) : Type := State -> Outcome A * State.

Definition ret {A} (a : A) : M A := fun st => (Returns a, st).

Definition bind {A B} (c : M A) (k : A -> M B) : M B :=
  fun st =>
    match c st with
    | (Returns a, st') => k a st'
    | (Exits code, st') => (Exits code, st')
    | (Panics p, st') => (Panics p, st')
    end.

Notation "'do' x <- c ; k" := (bind c (fun x => k))
  (at level 10, x name, c at level 100, k at level 200).
Notation "'do_' c ; k" := (bind c (fun _ => k))
  (at level 10, c at level 100, k at level 200).

Definition modify (f : State -> State) : M unit := fun st => (Returns tt, f st).
Definition panic {A} (p : PanicValue) : M A := fun st => (Panics p, st).
Definition os_Exit {A} (code : Z) : M A := fun st => (Exits code, st).

(** [*p = v]. *)
Definition store (p : Path) (v : value) : M unit :=
  modify (fun st => set_mem (<[p := v]> (mem st)) st).

(** * flag.FlagSet *)

Definition contains_byte (c : ascii) (s : string) : bool :=
  existsb (Ascii.eqb c) (list_ascii_of_string s).

(** [f.Var(value, name, usage)]. *)
Definition FlagSet_Var (cl : comandLine) (v : ValueType * Path) (nm usage : string) : M unit :=
  fun st =>
    if String.prefix "-" nm then
      (Panics (panic_msg "flag %q begins with -" [nm]),
       print flagSet_output (Fprintln "flag %q begins with -" [nm] None) st)
    else if contains_byte "="%char nm then
      (Panics (panic_msg "flag %q contains =" [nm]),
       print flagSet_output (Fprintln "flag %q contains =" [nm] None) st)
    else
      match formal st !! nm with
      | Some _ =>
          if String.eqb (name cl) "" then
            (Panics (panic_msg "flag redefined: %s" [nm]),
             print flagSet_output (Fprintln "flag redefined: %s" [nm] None) st)
          else
            (Panics (panic_msg "%s flag redefined: %s" [name cl; nm]),
             print flagSet_output (Fprintln "%s flag redefined: %s" [name cl; nm] None) st)
      | None =>
          (Returns tt,
           set_formal (<[nm := {| Flag_Name := nm; Flag_Usage := usage; Flag_Value := v |}]> (formal st)) st)
      end.

(** [f.BoolVar(p, name, value, usage)] and its siblings: the variable is
    assigned first, then the flag is defined. *)
Definition BoolVar cl (p : Path) (nm : string) (v : bool) (usage : string) : M unit :=
  do_ store p (V_bool v); FlagSet_Var cl (boolValue, p) nm usage.
Definition StringVar cl (p : Path) (nm : string) (v : string) (usage : string) : M unit :=
  do_ store p (V_string v); FlagSet_Var cl (stringValue, p) nm usage.
Definition UintVar cl (p : Path) (nm : string) (v : Z) (usage : string) : M unit :=
  do_ store p (V_uint v); FlagSet_Var cl (uintValue, p) nm usage.
Definition Uint64Var cl (p : Path) (nm : string) (v : Z) (usage : string) : M unit :=
  do_ store p (V_uint64 v); FlagSet_Var cl (uint64Value, p) nm usage.
Definition IntVar cl (p : Path) (nm : string) (v : Z) (usage : string) : M unit :=
  do_ store p (V_int v); FlagSet_Var cl (intValue, p) nm usage.
Definition Int64Var cl (p : Path) (nm : string) (v : Z) (usage : string) : M unit :=
  do_ store p (V_int64 v); FlagSet_Var cl (int64Value, p) nm usage.
Definition Float64Var cl (p : Path) (nm : string) (v : float64 X) (usage : string) : M unit :=
  do_ store p (V_float64 v); FlagSet_Var cl (float64Value, p) nm usage.
Definition DurationVar cl (p : Path) (nm : string) (v : Z) (usage : string) : M unit :=
  do_ store p (V_Duration v); FlagSet_Var cl (durationValue, p) nm usage.

(** flag's [numError]. *)
Definition numError (err : error) : error :=
  match err with
  | NumError _ _ strconv_ErrSyntax => flag_errParse
  | NumError _ _ strconv_ErrRange => flag_errRange
  | _ => err
  end.

(** [flag.Value.Set(s)] through the pointer of a registered flag.  The
    library's values assign the variable whatever the parse returned, also
    on error; the package's own types run their [Set] on the variable. *)
Definition Value_Set (v : ValueType * Path) (s : string) : M (option error) :=
  let '(vt, p) := v in
  match vt with
  | boolValue =>
      let '(b, err) := strconv.ParseBool s in
      do_ store p (V_bool b);
      ret (match err with Some _ => Some flag_errParse | None => None end)
  | stringValue =>
      do_ store p (V_string s); ret None
  | uintValue =>
      let '(n, err) := strconv.ParseUint s 0 strconv.IntSize in
      do_ store p (V_uint n); ret (numError <$> err)
  | uint64Value =>
      let '(n, err) := strconv.ParseUint s 0 64 in
      do_ store p (V_uint64 n); ret (numError <$> err)
  | intValue =>
      let '(n, err) := strconv.ParseInt s 0 strconv.IntSize in
      do_ store p (V_int n); ret (numError <$> err)
  | int64Value =>
      let '(n, err) := strconv.ParseInt s 0 64 in
      do_ store p (V_int64 n); ret (numError <$> err)
  | float64Value =>
      let '(f, err) := ParseFloat X s 64 in
      do_ store p (V_float64 f); ret (numError <$> err)
  | durationValue =>
      let '(d, err) := Duration_ParseDuration X s in
      do_ store p (V_Duration d);
      ret (match err with Some _ => Some flag_errParse | None => None end)
  | URL_Value =>
      fun st =>
        let cur := match mem st !! p with Some (V_URL u) => u | _ => URL_zero X end in
        let '(u, err) := URL_Set X cur s in
        (do_ store p (V_URL u); ret err) st
  | Time_Value =>
      fun st =>
        let cur := match mem st !! p with Some (V_Time t) => t | _ => Time_zero X end in
        let '(t, err) := Time_Set X cur s in
        (do_ store p (V_Time t); ret err) st
  | StringSlice_Value =>
      fun st =>
        let cur := match mem st !! p with Some (V_StringSlice l) => l | _ => [] end in
        let '(l, err) := StringSlice_Set X cur s in
        (do_ store p (V_StringSlice l); ret err) st
  | IntSlice_Value =>
      fun st =>
        let cur := match mem st !! p with Some (V_IntSlice l) => l | _ => [] end in
        let '(l, err) := IntSlice_Set X cur s in
        (do_ store p (V_IntSlice l); ret err) st
  end.

(** [IsBoolFlag()]: only the library's bool value has it. *)
Definition IsBoolFlag (v : ValueType * Path) : bool :=
  match fst v with boolValue => true | _ => false end.

(** [f.failf(format, args...)]: write the message and the usage, return
    the message as an error. *)
Definition failf (format : string) (args : list string) : M (option error) :=
  do_ modify (print flagSet_output (Fprintln format args None));
  do_ modify (print flagSet_output Usage);
  ret (Some (flag_failf format args)).

Definition failf_v (format : string) (args : list string) (cause : error) : M (option error) :=
  do_ modify (print flagSet_output (Fprintln format args (Some cause)));
  do_ modify (print flagSet_output Usage);
  ret (Some (flag_failf_v format args cause)).

(** Split [name] at its first ['='] that is not its first byte:
    [(name, hasValue, value)]. *)
Fixpoint cut_equals (s : string) : option (string * string) :=
  match s with
  | EmptyString => None
  | String c rest =>
      if Ascii.eqb c "="%char then Some (EmptyString, rest)
      else match cut_equals rest with
           | Some (a, b) => Some (String c a, b)
           | None => None
           end
  end.

Definition split_flag (nm : string) : string * bool * string :=
  match nm with
  | EmptyString => (nm, false, "")
  | String c rest =>
      match cut_equals rest with
      | Some (a, b) => (String c a, true, b)
      | None => (nm, false, "")
      end
  end.

(** [f.Parse(arguments)] of a flag set created with
    [flag.ContinueOnError]: the loop over [parseOne], which returns at the
    first argument that is not a flag, at ["--"], or at the first error. *)
Fixpoint FlagSet_Parse (args : list string) : M (option error) :=
  match args with
  | [] => ret None
  | s :: rest =>
      match s with
      | String c0 (String c1 s2) =>
          if negb (Ascii.eqb c0 "-"%char) then ret None
          else if Ascii.eqb c1 "-"%char && String.eqb s2 "" then ret None
          else
            let nm := if Ascii.eqb c1 "-"%char then s2 else String c1 s2 in
            match nm with
            | EmptyString => failf "bad flag syntax: %s" [s]
            | String n0 _ =>
                if Ascii.eqb n0 "-"%char || Ascii.eqb n0 "="%char
                then failf "bad flag syntax: %s" [s]
                else
                  let '(nm, hasValue, val) := split_flag nm in
                  fun st =>
                    match formal st !! nm with
                    | None =>
                        if String.eqb nm "help" || String.eqb nm "h"
                        then (do_ modify (print flagSet_output Usage); ret (Some flag_ErrHelp)) st
                        else failf "flag provided but not defined: -%s" [nm] st
                    | Some flag =>
                        if IsBoolFlag (Flag_Value flag) then
                          if hasValue then
                            (do err <- Value_Set (Flag_Value flag) val;
                             match err with
                             | Some err => failf_v "invalid boolean value %q for -%s: %v" [val; nm] err
                             | None => FlagSet_Parse rest
                             end) st
                          else
                            (do err <- Value_Set (Flag_Value flag) "true";
                             match err with
                             | Some err => failf_v "invalid boolean flag %s: %v" [nm] err
                             | None => FlagSet_Parse rest
                             end) st
                        else if hasValue then
                          (do err <- Value_Set (Flag_Value flag) val;
                           match err with
                           | Some err => failf_v "invalid value %q for flag -%s: %v" [val; nm] err
                           | None => FlagSet_Parse rest
                           end) st
                        else
                          match rest with
                          | [] => failf "flag needs an argument: -%s" [nm] st
                          | val :: rest' =>
                              (do err <- Value_Set (Flag_Value flag) val;
                               match err with
                               | Some err => failf_v "invalid value %q for flag -%s: %v" [val; nm] err
                               | None => FlagSet_Parse rest'
                               end) st
                          end
                    end
            end
      | _ => ret None
      end
  end.

(** * The command-line surface of the package *)

(** The [config interface{}] argument of [parse], as far as [reflect]
    tells its shapes apart. *)
Inductive Config : Type :=
| NotAPointer                     (* [v.Kind() != reflect.Ptr]: any non-pointer value, the nil interface included *)
| PointerToNonStruct              (* a pointer, nil or not, whose element type is not a struct *)
| PointerToStruct (fields : Fields) (addr : option Path).
                                  (* a pointer to a struct with these fields, at [addr]; [None] is the nil pointer *)

Definition v_Kind_is_Ptr (config : Config) : bool :=
  match config with NotAPointer => false | _ => true end.

Definition t_Elem_Kind_is_Struct (config : Config) : bool :=
  match config with PointerToStruct _ _ => true | _ => false end.

(** [cl.parseHelp(flags)]. *)
Definition is_help_token (f : string) : bool :=
  String.eqb f "--help" || String.eqb f "-help" || String.eqb f "--h" || String.eqb f "-h".

Definition parseHelp (flags : list string) : M unit :=
  if existsb is_help_token flags then modify (set_help true) else ret tt.

(** The per-kind parsers.  [p] is the pointer to the field. *)
Definition parseBool cl (p : Path) (flag val usage : string) : M (option error) :=
  if String.eqb val "" then
    do_ BoolVar cl p flag false usage; ret None
  else
    let '(v, err) := strconv.ParseBool val in
    match err with
    | Some err => ret (Some (Errorf_q_w "parsing bool %q: %w" val err))
    | None => do_ BoolVar cl p flag v usage; ret None
    end.

Definition parseUint cl (p : Path) (flag val usage : string) : M (option error) :=
  if String.eqb val "" then
    do_ UintVar cl p flag 0 usage; ret None
  else
    let '(v, err) := strconv.ParseUint val 10 32 in
    match err with
    | Some err => ret (Some (Errorf_q_w "parsing uint %q: %w" val err))
    | None => do_ UintVar cl p flag v usage; ret None
    end.

Definition parseUint64 cl (p : Path) (flag val usage : string) : M (option error) :=
  if String.eqb val "" then
    do_ Uint64Var cl p flag 0 usage; ret None
  else
    let '(v, err) := strconv.ParseUint val 10 64 in
    match err with
    | Some err => ret (Some (Errorf_q_w "parsing uint64 %q: %w" val err))
    | None => do_ Uint64Var cl p flag v usage; ret None
    end.

Definition parseInt cl (p : Path) (flag val usage : string) : M (option error) :=
  if String.eqb val "" then
    do_ IntVar cl p flag 0 usage; ret None
  else
    let '(v, err) := strconv.Atoi val in
    match err with
    | Some err => ret (Some (Errorf_q_w "parsing int %q: %w" val err))
    | None => do_ IntVar cl p flag v usage; ret None
    end.

Definition parseInt64 cl (p : Path) (flag val usage : string) : M (option error) :=
  if String.eqb val "" then
    do_ Int64Var cl p flag 0 usage; ret None
  else
    let '(v, err) := strconv.ParseInt val 10 64 in
    match err with
    | Some err => ret (Some (Errorf_q_w "parsing int64 %q: %w" val err))
    | None => do_ Int64Var cl p flag v usage; ret None
    end.

Definition parseDuration cl (p : Path) (flag val usage : string) : M (option error) :=
  if String.eqb val "" then
    do_ DurationVar cl p flag 0 usage; ret None
  else
    let '(v, err) := Duration_ParseDuration X val in
    match err with
    | Some err => ret (Some (Errorf_q_w "parsing duration %q: %w" val err))
    | None => do_ DurationVar cl p flag v usage; ret None
    end.

Definition parseFloat64 cl (p : Path) (flag val usage : string) : M (option error) :=
  if String.eqb val "" then
    do_ Float64Var cl p flag (float64_zero X) usage; ret None
  else
    let '(v, err) := ParseFloat X val 64 in
    match err with
    | Some err => ret (Some (Errorf_q_w "parsing float64 %q: %w" val err))
    | None => do_ Float64Var cl p flag v usage; ret None
    end.

Definition parseStringSlice cl (p : Path) (flag val usage : string) : M (option error) :=
  if String.eqb val "" then
    do_ store p (V_StringSlice []);
    do_ FlagSet_Var cl (StringSlice_Value, p) flag usage;
    ret None
  else
    let '(ss, _) := StringSlice_Set X [] val in
    do_ store p (V_StringSlice ss);
    do_ FlagSet_Var cl (StringSlice_Value, p) flag usage;
    ret None.

Definition parseIntSlice cl (p : Path) (flag val usage : string) : M (option error) :=
  if String.eqb val "" then
    do_ store p (V_IntSlice []);
    do_ FlagSet_Var cl (IntSlice_Value, p) flag usage;
    ret None
  else
    let '(ints, err) := IntSlice_Set X [] val in
    match err with
    | Some err => ret (Some err)
    | None =>
        do_ store p (V_IntSlice ints);
        do_ FlagSet_Var cl (IntSlice_Value, p) flag usage;
        ret None
    end.

Definition parseURL cl (p : Path) (flag val usage : string) : M (option error) :=
  if String.eqb val "" then
    do_ store p (V_URL (URL_zero X));
    do_ FlagSet_Var cl (URL_Value, p) flag usage;
    ret None
  else
    let '(u, err) := URL_Set X (URL_zero X) val in
    match err with
    | Some err => ret (Some err)
    | None =>
        do_ store p (V_URL u);
        do_ FlagSet_Var cl (URL_Value, p) flag usage;
        ret None
    end.

Definition parseTime cl (p : Path) (flag val usage : string) : M (option error) :=
  if String.eqb val "" then
    do_ store p (V_Time (Time_zero X));
    do_ FlagSet_Var cl (Time_Value, p) flag usage;
    ret None
  else
    let '(t, err) := Time_Set X (Time_zero X) val in
    match err with
    | Some err => ret (Some err)
    | None =>
        do_ store p (V_Time t);
        do_ FlagSet_Var cl (Time_Value, p) flag usage;
        ret None
    end.

(** A failed type assertion without the comma-ok form. *)
Definition type_assertion_failed {A} : M A :=
  panic (panic_msg "interface conversion" []).

(** [cl.parseValue(kind, varPointer, flag, value, usage)].  [varPointer]
    is the path together with the type pointed to, on which the type
    assertions and type switches decide. *)
Definition parseValue cl (kind : Kind) (varPointer : Path * GoType)
    (flag val usage : string) : M (option error) :=
  let '(p, t) := varPointer in
  let unsupported : M (option error) :=
    ret (Some (Errorf_w_v "parsing value: %w: %v" ErrUnsupportedType kind)) in
  match kind with
  | Bool =>
      match t with T_bool => parseBool cl p flag val usage | _ => type_assertion_failed end
  | String_ =>
      match t with
      | T_string => do_ StringVar cl p flag val usage; ret None
      | _ => type_assertion_failed
      end
  | Uint =>
      match t with T_uint => parseUint cl p flag val usage | _ => type_assertion_failed end
  | Uint64 =>
      match t with T_uint64 => parseUint64 cl p flag val usage | _ => type_assertion_failed end
  | Int =>
      match t with T_int => parseInt cl p flag val usage | _ => type_assertion_failed end
  | Int64 =>
      match t with
      | T_Duration => parseDuration cl p flag val usage
      | T_int64 => parseInt64 cl p flag val usage
      | _ => unsupported
      end
  | Float64 =>
      match t with T_float64 => parseFloat64 cl p flag val usage | _ => type_assertion_failed end
  | Struct =>
      match t with
      | T_URL => parseURL cl p flag val usage
      | T_Time => parseTime cl p flag val usage
      | _ => unsupported
      end
  | Slice =>
      match t with
      | T_StringSlice => parseStringSlice cl p flag val usage
      | T_IntSlice => parseIntSlice cl p flag val usage
      | _ => unsupported
      end
  | _ => unsupported
  end.

(** The body of the loop of [subParse] for a field that is not recursed
    into (lines 144-155): look the environment up, then parse either its
    value or the declared default. *)
Definition resolve cl (field : StructField) (p : Path)
    (flagName envVarName usage : string) : M (option error) :=
  do_ modify (log_lookup envVarName);
  fun st =>
    match lookupEnvFunc cl envVarName with
    | Some envVarValue =>
        if negb (help st) then
          (do err <- parseValue cl (Kind_of (Type_ field)) (p, Type_ field) flagName envVarValue usage;
           match err with
           | Some err => ret (Some (Errorf_s_w "%s env: %w" (Name field) err))
           | None => ret None
           end) st
        else
          (do err <- parseValue cl (Kind_of (Type_ field)) (p, Type_ field) flagName
                       (Get (Tag field) "def") usage;
           match err with
           | Some err => ret (Some (Errorf_s_w "%s def: %w" (Name field) err))
           | None => ret None
           end) st
    | None =>
        (do err <- parseValue cl (Kind_of (Type_ field)) (p, Type_ field) flagName
                     (Get (Tag field) "def") usage;
         match err with
         | Some err => ret (Some (Errorf_s_w "%s def: %w" (Name field) err))
         | None => ret None
         end) st
    end.

(** The loop of [subParse] over the fields from index [i] on, for the
    struct at [v].  A field of a struct type other than [URL] and [Time]
    is walked by the recursive call of [subParse], which starts with
    [parseHelp] and whose type test succeeds. *)
Fixpoint subParse_fields cl (fs : Fields) (i : nat) (v : Path)
    (flags : list string) (prefix : string) : M (option error) :=
  match fs with
  | FNil => ret None
  | FCons nm type tag rest =>
      let field := {| Name := nm; Type_ := type; Tag := tag |} in
      let flagName := flagName field prefix in
      let envVarName := envVarName (name cl) field prefix in
      let usage := usage field envVarName prefix in
      let p := (v ++ [i])%list in
      let continue := subParse_fields cl rest (S i) v flags prefix in
      match type with
      | T_struct sub =>
          do err <- (do_ parseHelp flags;
                     subParse_fields cl sub 0 p flags (newPrefix field prefix));
          match err with
          | Some err => ret (Some err)
          | None => continue
          end
      | T_other Struct =>
          do err <- (do_ parseHelp flags; ret None);
          match err with
          | Some err => ret (Some err)
          | None => continue
          end
      | _ =>
          do err <- resolve cl field p flagName envVarName usage;
          match err with
          | Some err => ret (Some err)
          | None => continue
          end
      end
  end.

(** [cl.subParse(config, flags, prefix)]. *)
Definition subParse cl (config : Config) (flags : list string) (prefix : string)
    : M (option error) :=
  do_ parseHelp flags;
  if negb (v_Kind_is_Ptr config) || negb (t_Elem_Kind_is_Struct config)
  then ret (Some ErrInvalidConfigType)
  else
    match config with
    | PointerToStruct fs (Some v) => subParse_fields cl fs 0 v flags prefix
    | _ => panic (panic_msg "reflect: call of reflect.Value.NumField on zero Value" [])
    end.

(** [cl.exit(err)]. *)
Definition exit cl (err : option error) : M (option error) :=
  match err with
  | None => ret None
  | Some err =>
      match errorHandling cl with
      | ContinueOnError =>
          if errors_Is_ErrHelp err then ret None else ret (Some err)
      | ExitOnError =>
          fun st =>
            if help st || errors_Is_ErrHelp err then os_Exit 0 st
            else (do_ modify (print cl_output (Fprintf "bee: %v\n" err)); os_Exit 2) st
      | PanicOnError => panic (panic_error err)
      | OtherErrorHandling => ret None
      end
  end.

(** [cl.parse(config, flags)]. *)
Definition parse cl (config : Config) (flags : list string) : M (option error) :=
  do err <- subParse cl config flags "";
  match err with
  | Some err => exit cl (Some err)
  | None => do err <- FlagSet_Parse flags; exit cl err
  end.

(** The state of a command line made by [newCommandLine], before any
    option or call: no flag defined, [help] false; [m] is the memory the
    caller's record lives in. *)
Definition newState (m : gmap Path value) : State :=
  {| formal := ∅; help := false; mem := m; printed := []; lookups := [] |}.

End Model.

Arguments ret {X A} a.
Arguments bind {X A B} c k.
Arguments panic {X A} p.
Arguments os_Exit {X A} code.
Arguments modify {X} f.
Arguments store {X} p v.

Notation "'do' x <- c ; k" := (bind c (fun x => k))
  (at level 10, x name, c at level 100, k at level 200).
Notation "'do_' c ; k" := (bind c (fun _ => k))
  (at level 10, c at level 100, k at level 200).

Arguments V_bool {X}.
Arguments V_string {X}.
Arguments V_uint {X}.
Arguments V_uint64 {X}.
Arguments V_int {X}.
Arguments V_int64 {X}.
Arguments V_Duration {X}.
Arguments V_StringSlice {X}.
Arguments V_IntSlice {X}.
Arguments V_float64 {X}.
Arguments V_URL {X}.
Arguments V_Time {X}.
Arguments formal {X}.
Arguments help {X}.
Arguments mem {X}.
Arguments printed {X}.
Arguments lookups {X}.

(** * Vocabulary of the statements *)

(** Decimal numerals: a text of decimal digits and the number it denotes
    (positional notation, most significant digit first). *)
Definition isDigit (c : ascii) : bool := (48 <=? ord c) && (ord c <=? 57).

Fixpoint all_digits (s : string) : bool :=
  match s with
  | EmptyString => true
  | String c rest => isDigit c && all_digits rest
  end.

Fixpoint decimal_value (s : string) : Z :=
  match s with
  | EmptyString => 0
  | String c rest => (ord c - 48) * 10 ^ len rest + decimal_value rest
  end.

(** ** A concrete [Extern], for closed examples

    Modelled from the spec: the [Set] methods of [StringSlice] and
    [IntSlice], whose file is not among the sources, after section 4.4
    (a comma-separated list; for integers a signed-integer parse per
    element, the first failure aborting the whole field) and section 7
    (a parse error wraps the source text).  The other
    components are stand-ins that read a fragment of what the real
    functions read: whole numbers for [ParseFloat], one number and one
    unit for [ParseDuration], any text free of control bytes for a URL,
    and the date-time shape [dddd-dd-ddTdd:dd:dd...] for a timestamp.
    The theorems below hold for every [Extern]; this one only serves to
    evaluate them at concrete inputs. *)

(** [strings.Split(s, ",")]. *)
Fixpoint Split_comma (s : string) : list string :=
  match s with
  | EmptyString => [EmptyString]
  | String c rest =>
      if Ascii.eqb c ","%char then EmptyString :: Split_comma rest
      else match Split_comma rest with
           | h :: t => String c h :: t
           | [] => [String c EmptyString]
           end
  end.

Definition spec_StringSlice_Set (_ : list string) (s : string) : result (list string) :=
  (Split_comma s, None).

Fixpoint Atoi_all (l : list string) : list Z + error :=
  match l with
  | [] => inl []
  | x :: rest =>
      match strconv.Atoi x with
      | (_, Some e) => inr e
      | (n, None) => match Atoi_all rest with
                     | inl ns => inl (n :: ns)
                     | inr e => inr e
                     end
      end
  end.

Definition spec_IntSlice_Set (cur : list Z) (s : string) : result (list Z) :=
  match Atoi_all (Split_comma s) with
  | inl ns => (ns, None)
  | inr e => (cur, Some (Errorf_q_w "parsing int slice %q: %w" s e))
  end.

Definition standin_ParseFloat (s : string) (bitSize : Z) : result Z :=
  match strconv.ParseInt s 10 64 with
  | (n, None) => (n, None)
  | (_, Some _) => (0, Some (strconv.syntaxError "ParseFloat" s))
  end.

Fixpoint split_digits (s : string) : string * string :=
  match s with
  | EmptyString => (EmptyString, EmptyString)
  | String c rest =>
      if isDigit c then let '(d, u) := split_digits rest in (String c d, u)
      else (EmptyString, s)
  end.

Definition standin_ParseDuration (s : string) : result Z :=
  let '(d, u) := split_digits s in
  let bad := (0, Some (ExternError "time.ParseDuration" s)) in
  if String.eqb d "" then bad
  else
    let n := decimal_value d in
    if String.eqb u "ns" then (n, None)
    else if String.eqb u "us" then (n * 1000, None)
    else if String.eqb u "ms" then (n * 1000000, None)
    else if String.eqb u "s" then (n * 1000000000, None)
    else if String.eqb u "m" then (n * 60000000000, None)
    else if String.eqb u "h" then (n * 3600000000000, None)
    else bad.

Definition standin_URL_Set (cur : string) (s : string) : result string :=
  if existsb (fun c => (ord c <? 32) || (ord c =? 127)) (list_ascii_of_string s)
  then (cur, Some (ExternError "net/url.Parse" s))
  else (s, None).

Definition standin_Time_Set (cur : string) (s : string) : result string :=
  match list_ascii_of_string s with
  | y1 :: y2 :: y3 :: y4 :: d1 :: m1 :: m2 :: d2 :: a1 :: a2 :: t
       :: h1 :: h2 :: c1 :: n1 :: n2 :: c2 :: s1 :: s2 :: _ =>
      if forallb isDigit [y1; y2; y3; y4; m1; m2; a1; a2; h1; h2; n1; n2; s1; s2]
         && Ascii.eqb d1 "-"%char && Ascii.eqb d2 "-"%char && Ascii.eqb t "T"%char
         && Ascii.eqb c1 ":"%char && Ascii.eqb c2 ":"%char
      then (s, None)
      else (cur, Some (ExternError "time.Parse" s))
  | _ => (cur, Some (ExternError "time.Parse" s))
  end.

Definition spec_Extern : Extern := {|
  float64 := Z;
  float64_zero := 0;
  ParseFloat := standin_ParseFloat;
  Duration_ParseDuration := standin_ParseDuration;
  URL := string;
  URL_zero := "";
  URL_Set := standin_URL_Set;
  Time := string;
  Time_zero := "";
  Time_Set := standin_Time_Set;
  StringSlice_Set := spec_StringSlice_Set;
  IntSlice_Set := spec_IntSlice_Set;
|}.

(** A command line named ["cool"] with no environment, in continue mode,
    and the empty state. *)
Definition no_env (_ : string) : option string := None.

Definition cool (h : ErrorHandling) (env : string -> option string) : comandLine :=
  {| lookupEnvFunc := env; name := "cool"; errorHandling := h |}.

(** The prefix [subParse] has built when it reaches a field nested under
    the namespace fields [chain] (outermost first): each recursive call
    passes [newPrefix field prefix]. *)
Definition walk_prefix (chain : list StructField) : string :=
  fold_left (fun prefix sf => newPrefix sf prefix) chain "".

(** Replace every dash of a text by an underscore. *)
Definition undash (c : ascii) : ascii := if Ascii.eqb c "-"%char then "_"%char else c.

Fixpoint smap (f : ascii -> ascii) (s : string) : string :=
  match s with
  | EmptyString => EmptyString
  | String c rest => String (f c) (smap f rest)
  end.

(** The configuration record of the package's first example
    ([Example_basic]). *)
Definition example_basic_config : Fields :=
  FCons "Host" T_string []
  (FCons "Port" T_int []
  (FCons "DB" (T_struct
       (FCons "Kind" T_string []
       (FCons "Postgres" (T_struct (FCons "Host" T_string [] FNil)) []
       (FCons "Mongo" (T_struct (FCons "Host" T_StringSlice [] FNil)) []
        FNil)))) []
  (FCons "Start" T_Time []
   FNil))).

(** The record of the precedence scenarios: [{Port int `def:"3000"`}]. *)
Definition port_config : Fields := FCons "Port" T_int [("def", "3000")] FNil.

Definition env_COOL_PORT_8080 (n : string) : option string :=
  if String.eqb n "COOL_PORT" then Some "8080" else None.

Definition port_ptr : Config := PointerToStruct port_config (Some []).

(** The empty state over [spec_Extern]. *)
Definition st0 : State spec_Extern := newState spec_Extern ∅.

(** The descriptors of the fields on the way to [DB.Postgres.Host]. *)
Definition field_DB : StructField := {| Name := "DB"; Type_ := T_other Struct; Tag := [] |}.
Definition field_Postgres : StructField := {| Name := "Postgres"; Type_ := T_other Struct; Tag := [] |}.
Definition field_Host : StructField := {| Name := "Host"; Type_ := T_string; Tag := [] |}.

(** ** Terminal fields *)

(** The zero value of each of the twelve types bound to a flag, and the
    [flag.Value] implementation registered for it. *)
Definition zero_value (X : Extern) (t : GoType) : option (value X) :=
  match t with
  | T_bool => Some (V_bool false)
  | T_string => Some (V_string "")
  | T_uint => Some (V_uint 0)
  | T_uint64 => Some (V_uint64 0)
  | T_int => Some (V_int 0)
  | T_int64 => Some (V_int64 0)
  | T_float64 => Some (V_float64 (float64_zero X))
  | T_Duration => Some (V_Duration 0)
  | T_URL => Some (V_URL (URL_zero X))
  | T_Time => Some (V_Time (Time_zero X))
  | T_StringSlice => Some (V_StringSlice [])
  | T_IntSlice => Some (V_IntSlice [])
  | T_struct _ | T_other _ => None
  end.

Definition ValueType_of (t : GoType) : option ValueType :=
  match t with
  | T_bool => Some boolValue
  | T_string => Some stringValue
  | T_uint => Some uintValue
  | T_uint64 => Some uint64Value
  | T_int => Some intValue
  | T_int64 => Some int64Value
  | T_float64 => Some float64Value
  | T_Duration => Some durationValue
  | T_URL => Some URL_Value
  | T_Time => Some Time_Value
  | T_StringSlice => Some StringSlice_Value
  | T_IntSlice => Some IntSlice_Value
  | T_struct _ | T_other _ => None
  end.

(** The scalar kinds of section 4.4, as opposed to the two list kinds. *)
Definition is_scalar (t : GoType) : bool :=
  match t with
  | T_bool | T_string | T_uint | T_uint64 | T_int | T_int64 | T_float64
  | T_Duration | T_URL | T_Time => true
  | _ => false
  end.

Definition is_list (t : GoType) : bool :=
  match t with T_StringSlice | T_IntSlice => true | _ => false end.

(** The source text [subParse] selects for a field, with its phase: the
    value of the environment when there is one and no help token was
    seen, otherwise the [def] tag. *)
Definition selected_text {X} (cl : comandLine) (st : State X) (field : StructField)
    (envVarName : string) : string * string :=
  match lookupEnvFunc cl envVarName with
  | Some envVarValue =>
      if negb (help st) then (envVarValue, "env") else (Get (Tag field) "def", "def")
  | None => (Get (Tag field) "def", "def")
  end.

(** A flag name [f.Var] accepts in this state: it does not begin with a
    dash, has no equals sign, and is not defined yet. *)
Definition definable {X} (st : State X) (nm : string) : bool :=
  negb (String.prefix "-" nm) && negb (contains_byte "="%char nm)
  && bool_decide (formal st !! nm = None).

(** The conversion of a source text into a value of the field's type,
    as the per-kind parsers perform it before they define the flag: the
    zero value for the empty text, otherwise the library parser (or the
    type's [Set] on a fresh value) with its error wrapped as the parser
    of that kind wraps it.  [None] for a type no parser is bound to. *)
Definition parsed_with {X A} (format text : string) (r : result A) (inj : A -> value X)
    : value X + error :=
  match r with
  | (_, Some err) => inr (Errorf_q_w format text err)
  | (v, None) => inl (inj v)
  end.

Definition set_with {X A} (r : result A) (inj : A -> value X) : value X + error :=
  match r with
  | (_, Some err) => inr err
  | (v, None) => inl (inj v)
  end.

Definition coerce (X : Extern) (t : GoType) (text : string) : option (value X + error) :=
  if String.eqb text "" then inl <$> zero_value X t
  else
    match t with
    | T_bool => Some (parsed_with "parsing bool %q: %w" text (strconv.ParseBool text) V_bool)
    | T_string => Some (inl (V_string text))
    | T_uint => Some (parsed_with "parsing uint %q: %w" text (strconv.ParseUint text 10 32) V_uint)
    | T_uint64 => Some (parsed_with "parsing uint64 %q: %w" text (strconv.ParseUint text 10 64) V_uint64)
    | T_int => Some (parsed_with "parsing int %q: %w" text (strconv.Atoi text) V_int)
    | T_int64 => Some (parsed_with "parsing int64 %q: %w" text (strconv.ParseInt text 10 64) V_int64)
    | T_float64 => Some (parsed_with "parsing float64 %q: %w" text (ParseFloat X text 64) V_float64)
    | T_Duration =>
        Some (parsed_with "parsing duration %q: %w" text (Duration_ParseDuration X text) V_Duration)
    | T_URL => Some (set_with (URL_Set X (URL_zero X) text) V_URL)
    | T_Time => Some (set_with (Time_Set X (Time_zero X) text) V_Time)
    | T_StringSlice => Some (inl (V_StringSlice (fst (StringSlice_Set X [] text))))
    | T_IntSlice => Some (set_with (IntSlice_Set X [] text) V_IntSlice)
    | T_struct _ | T_other _ => None
    end.

(** The kinds [parseValue] has a case for. *)
Definition in_dispatch_table (k : Kind) : bool :=
  match k with
  | Bool | String_ | Uint | Uint64 | Int | Int64 | Float64 | Struct | Slice => true
  | _ => false
  end.

(** ** The walk, flattened

    A terminal field as the walk meets it: its descriptor, the pointer to
    it and the prefix in force. *)
Record Terminal : Type := { t_field : StructField; t_path : Path; t_prefix : string }.

Definition t_flagName (t : Terminal) : string := flagName (t_field t) (t_prefix t).
Definition t_envVarName (cl : comandLine) (t : Terminal) : string :=
  envVarName (name cl) (t_field t) (t_prefix t).
Definition t_usage (cl : comandLine) (t : Terminal) : string :=
  usage (t_field t) (t_envVarName cl t) (t_prefix t).
Definition t_type (t : Terminal) : GoType := Type_ (t_field t).

(** The terminal fields of a struct in the order of the walk: depth
    first, in declaration order. *)
Fixpoint terminals (fs : Fields) (i : nat) (v : Path) (prefix : string) : list Terminal :=
  match fs with
  | FNil => []
  | FCons nm type tag rest =>
      let field := {| Name := nm; Type_ := type; Tag := tag |} in
      let p := (v ++ [i])%list in
      match type with
      | T_struct sub =>
          (terminals sub 0 p (newPrefix field prefix) ++ terminals rest (S i) v prefix)%list
      | T_other Struct => terminals rest (S i) v prefix
      | _ => {| t_field := field; t_path := p; t_prefix := prefix |}
             :: terminals rest (S i) v prefix
      end
  end.

Definition resolve_terminal (X : Extern) (cl : comandLine) (t : Terminal) : M X (option error) :=
  resolve X cl (t_field t) (t_path t) (t_flagName t) (t_envVarName cl t) (t_usage cl t).

(** Resolve the terminals in turn, stopping at the first error. *)
Fixpoint resolve_all (X : Extern) (cl : comandLine) (ts : list Terminal) : M X (option error) :=
  match ts with
  | [] => ret None
  | t :: ts =>
      do err <- resolve_terminal X cl t;
      match err with
      | Some err => ret (Some err)
      | None => resolve_all X cl ts
      end
  end.

(** The state after [parseHelp]. *)
Definition after_help {X} (flags : list string) (st : State X) : State X :=
  if existsb is_help_token flags then set_help X true st else st.

(** The source text of a terminal in a state, and its phase. *)
Definition t_selected {X} (cl : comandLine) (st : State X) (t : Terminal) : string * string :=
  selected_text cl st (t_field t) (t_envVarName cl t).







(** A record whose second field has a default that does not parse:
    [{A int `def:"1"`; B bool `def:"maybe"`}], with its two terminals and
    the state once [A] is resolved. *)
Definition bad_default_config : Fields :=
  FCons "A" T_int [("def", "1")] (FCons "B" T_bool [("def", "maybe")] FNil).




Definition err_maybe : error :=
  Errorf_q_w "parsing bool %q: %w" "maybe" (strconv.syntaxError "ParseBool" "maybe").

(** The flag a terminal is bound to once resolved, and the state a
    successful resolution of it leaves. *)
Definition t_flag (cl : comandLine) (vt : ValueType) (t : Terminal) : Flag :=
  {| Flag_Name := t_flagName t; Flag_Usage := t_usage cl t; Flag_Value := (vt, t_path t) |}.

Definition resolved {X} (cl : comandLine) (t : Terminal) (vt : ValueType) (v : value X)
    (st : State X) : State X :=
  set_formal X (<[t_flagName t := t_flag cl vt t]> (formal st))
    (set_mem X (<[t_path t := v]> (mem st)) (log_lookup X (t_envVarName cl t) st)).

(** A record with a field of a map type after a supported one:
    [{Port int `def:"3000"`; Tags map[string]string}]. *)
Definition map_config : Fields :=
  FCons "Port" T_int [("def", "3000")] (FCons "Tags" (T_other Map) [] FNil).

Definition term_Port : Terminal :=
  {| t_field := {| Name := "Port"; Type_ := T_int; Tag := [("def", "3000")] |};
     t_path := [0%nat]; t_prefix := "" |}.

Definition term_Tags : Terminal :=
  {| t_field := {| Name := "Tags"; Type_ := T_other Map; Tag := [] |};
     t_path := [1%nat]; t_prefix := "" |}.

Definition st_after_Port : State spec_Extern :=
  snd (resolve_all spec_Extern (cool ContinueOnError no_env) [term_Port] st0).

(** A command line that differs from another only by its environment
    lookup function. *)
Definition with_env (env : string -> option string) (cl : comandLine) : comandLine :=
  {| lookupEnvFunc := env; name := name cl; errorHandling := errorHandling cl |}.

(** ** The final parse of the flag set, as a list of assignments *)

(** What [flag.Value.Set] leaves in the variable for a text, [cur]
    being the variable's content before, and the error it returns. *)
Definition set_value (X : Extern) (vt : ValueType) (cur : option (value X)) (s : string)
    : value X * option error :=
  match vt with
  | boolValue =>
      let '(b, err) := strconv.ParseBool s in
      (V_bool b, match err with Some _ => Some flag_errParse | None => None end)
  | stringValue => (V_string s, None)
  | uintValue =>
      let '(n, err) := strconv.ParseUint s 0 strconv.IntSize in (V_uint n, numError <$> err)
  | uint64Value =>
      let '(n, err) := strconv.ParseUint s 0 64 in (V_uint64 n, numError <$> err)
  | intValue =>
      let '(n, err) := strconv.ParseInt s 0 strconv.IntSize in (V_int n, numError <$> err)
  | int64Value =>
      let '(n, err) := strconv.ParseInt s 0 64 in (V_int64 n, numError <$> err)
  | float64Value =>
      let '(f, err) := ParseFloat X s 64 in (V_float64 f, numError <$> err)
  | durationValue =>
      let '(d, err) := Duration_ParseDuration X s in
      (V_Duration d, match err with Some _ => Some flag_errParse | None => None end)
  | URL_Value =>
      let '(u, err) := URL_Set X (match cur with Some (V_URL u) => u | _ => URL_zero X end) s in
      (V_URL u, err)
  | Time_Value =>
      let '(t, err) := Time_Set X (match cur with Some (V_Time t) => t | _ => Time_zero X end) s in
      (V_Time t, err)
  | StringSlice_Value =>
      let '(l, err) := StringSlice_Set X (match cur with Some (V_StringSlice l) => l | _ => [] end) s in
      (V_StringSlice l, err)
  | IntSlice_Value =>
      let '(l, err) := IntSlice_Set X (match cur with Some (V_IntSlice l) => l | _ => [] end) s in
      (V_IntSlice l, err)
  end.


(** One turn of [parseOne] on the arguments left: stop without error (no
    argument, a non-flag, or ["--"]), fail, report the help request, or
    set a flag from a text and go on with the rest. *)
Inductive Step : Type :=
| step_stop
| step_bad (format : string) (args : list string)
| step_help
| step_set (f : Flag) (text : string) (format : string) (args : list string)
           (rest : list string).

Definition parseOne_step (formal : gmap string Flag) (args : list string) : Step :=
  match args with
  | [] => step_stop
  | s :: rest =>
      match s with
      | String c0 (String c1 s2) =>
          if negb (Ascii.eqb c0 "-"%char) then step_stop
          else if Ascii.eqb c1 "-"%char && String.eqb s2 "" then step_stop
          else
            let nm := if Ascii.eqb c1 "-"%char then s2 else String c1 s2 in
            match nm with
            | EmptyString => step_bad "bad flag syntax: %s" [s]
            | String n0 _ =>
                if Ascii.eqb n0 "-"%char || Ascii.eqb n0 "="%char
                then step_bad "bad flag syntax: %s" [s]
                else
                  let '(nm, hasValue, val) := split_flag nm in
                  match formal !! nm with
                  | None =>
                      if String.eqb nm "help" || String.eqb nm "h" then step_help
                      else step_bad "flag provided but not defined: -%s" [nm]
                  | Some flag =>
                      if IsBoolFlag (Flag_Value flag) then
                        if hasValue
                        then step_set flag val "invalid boolean value %q for -%s: %v" [val; nm] rest
                        else step_set flag "true" "invalid boolean flag %s: %v" [nm] rest
                      else if hasValue
                      then step_set flag val "invalid value %q for flag -%s: %v" [val; nm] rest
                      else
                        match rest with
                        | [] => step_bad "flag needs an argument: -%s" [nm]
                        | val :: rest' =>
                            step_set flag val "invalid value %q for flag -%s: %v" [val; nm] rest'
                        end
                  end
            end
      | _ => step_stop
      end
  end.










(** Modelled from the spec: a [StringSlice.Set], whose file is not among
    the sources, that adds the elements of the text (section 4.4: a
    comma-separated list) to the receiver, as the [Set] of a list-valued
    flag commonly does; [spec_StringSlice_Set] replaces the receiver
    instead.  The specification does not say which of the two it is. *)
Definition appending_StringSlice_Set (cur : list string) (s : string)
    : result (list string) :=
  ((cur ++ Split_comma s)%list, None).

Definition appending_Extern : Extern := {|
  float64 := Z;
  float64_zero := 0;
  ParseFloat := standin_ParseFloat;
  Duration_ParseDuration := standin_ParseDuration;
  URL := string;
  URL_zero := "";
  URL_Set := standin_URL_Set;
  Time := string;
  Time_zero := "";
  Time_Set := standin_Time_Set;
  StringSlice_Set := appending_StringSlice_Set;
  IntSlice_Set := spec_IntSlice_Set;
|}.

(** A record with a list of strings, [{Hosts StringSlice}], and an
    environment that has [COOL_HOSTS=envhost]. *)
Definition hosts_config : Fields := FCons "Hosts" T_StringSlice [] FNil.

Definition env_COOL_HOSTS (n : string) : option string :=
  if String.eqb n "COOL_HOSTS" then Some "envhost" else None.

(** * Further properties: vocabulary *)

(** Two fields whose derived flag names collide:
    [{DB struct{Host string}; DBHost string}]. *)
Definition collide_config : Fields :=
  FCons "DB" (T_struct (FCons "Host" T_string [] FNil)) []
  (FCons "DBHost" T_string [("def", "x")] FNil).

Definition term_DB_Host : Terminal :=
  {| t_field := {| Name := "Host"; Type_ := T_string; Tag := [] |};
     t_path := [0%nat; 0%nat]; t_prefix := "DB" |}.

Definition term_DBHost : Terminal :=
  {| t_field := {| Name := "DBHost"; Type_ := T_string; Tag := [("def", "x")] |};
     t_path := [1%nat]; t_prefix := "" |}.

Definition st_after_DB_Host : State spec_Extern :=
  snd (resolve_all spec_Extern (cool ContinueOnError no_env) [term_DB_Host] st0).

(** The panic of [f.Var] for a name already defined. *)
Definition flag_redefined (cl : comandLine) (nm : string) : PanicValue :=
  if String.eqb (name cl) "" then panic_msg "flag redefined: %s" [nm]
  else panic_msg "%s flag redefined: %s" [name cl; nm].

(** The state the walk of the example record leaves, with no environment
    and no arguments. *)
Definition st_walked_example : State spec_Extern :=
  snd (subParse spec_Extern (cool ContinueOnError no_env)
         (PointerToStruct example_basic_config (Some [])) [] "" st0).

(** What was written through [cl.output], in order. *)
Definition is_cl_output (e : Stream * Event) : bool :=
  match fst e with cl_output => true | flagSet_output => false end.

Definition cl_written {X} (st : State X) : list Event :=
  map snd (List.filter is_cl_output (printed st)).

Definition is_exit {A} (o : Outcome A) : bool :=
  match o with Exits _ => true | _ => false end.

Definition is_panic {A} (o : Outcome A) : bool :=
  match o with Panics _ => true | _ => false end.

(** A call that, from the state [st], does not end the process and writes
    nothing through [cl.output]. *)
Definition quiet_at {X A} (c : M X A) (st : State X) : Prop :=
  is_exit (fst (c st)) = false /\ cl_written (snd (c st)) = cl_written st.

(** The example record with a default that does not parse, walked with an
    error handling value that is none of the three constants. *)
Definition st_bad_default : State spec_Extern :=
  snd (subParse spec_Extern (cool OtherErrorHandling no_env)
         (PointerToStruct bad_default_config (Some [])) [] "" st0).

(** An argument at which [parseOne] stops without error: shorter than two
    bytes, not starting with a dash, or the terminator ["--"]. *)
Definition stops_flag_parsing (s : string) : bool :=
  match s with
  | String c0 (String c1 s2) =>
      negb (Ascii.eqb c0 "-"%char) || (Ascii.eqb c1 "-"%char && String.eqb s2 "")
  | _ => true
  end.

Definition st_after_terminator : State spec_Extern :=
  snd (subParse spec_Extern (cool ExitOnError env_COOL_PORT_8080) port_ptr ["--"; "-h"] "" st0).

(** * http middlewares *)

Section Middlewares.

(** [http.Handler]; a [*http.ServeMux] is used as one. *)
Context {Handler : Type}.

(** [type Middlewares []func(http.Handler) http.Handler]. *)
Definition Middlewares : Type := list (Handler -> Handler).

(** [ms.Add(h)]: the slice [ms] points to after the call. *)
Definition Middlewares_Add (ms : Middlewares) (h : Handler -> Handler) : Middlewares :=
  (ms ++ [h])%list.

(** The loop of [Wrap]: [n] is [i + 1], with [i] running down to 0.
    [None] is the panic of an index out of range. *)
Fixpoint Middlewares_Wrap_loop (ms : Middlewares) (n : nat) (wrapped : Handler)
    : option Handler :=
  match n with
  | O => Some wrapped
  | S i =>
      match ms !! i with
      | Some m => Middlewares_Wrap_loop ms i (m wrapped)
      | None => None
      end
  end.

(** [ms.Wrap(mux)]. *)
Definition Middlewares_Wrap (ms : Middlewares) (mux : Handler) : option Handler :=
  if (List.length ms =? 0)%nat then Some mux
  else Middlewares_Wrap_loop ms (List.length ms) mux.

End Middlewares.

Arguments Middlewares Handler : clear implicits.

(** * The service *)

(** The levels [WithLogLevel] chooses from. *)
Inductive Level : Set := LevelDebug | LevelInfo | LevelWarn | LevelError.

(** A call of a method of [s.Log] made by [Run]. *)
Inductive LogCall : Type :=
| Log_Info (msg : string) (grace_period : Z)
| Log_Debug (msg : string)
| Log_Warn (msg : string) (err : error).

(** An [io.Writer]: the standard error stream, or another one. *)
Inductive Writer : Set := os_Stderr | other_Writer (id : nat).

(** What [Exit] writes to [os.Stderr]. *)
Inductive StderrWrite : Type :=
| Stderr_Fprintln (m : string)
| Stderr_Fprintf (format m : string) (err : error).

Definition defaultShutdownGracePeriod : Z := 5 * 1000000000.
Definition exitCode : Z := 2.

Section Service.

(** What the closers act on. *)
Context {W : Type}.

(** [type c struct]: a registered closer.  [c_inner] is given the grace
    period its context was made with; it returns, with or without an
    error. *)
Record c : Type := { c_name : string; c_inner : Z -> W -> W * option error }.

(** [type Service struct]: the fields the options and [Register] set.
    [Service_output] is [commandLine.output]; [Service_Usage] is the
    parent command name of the usage function [WithUsage] installs. *)
Record Service : Type := {
  Service_name : string;
  Service_commandLine : comandLine;
  Service_output : Writer;
  Service_Usage : option string;
  Service_timeout : Z;
  Service_closers : list c;
  Service_logLevel : option Level;
}.

(** An [Option], a function on a pointer to the service: what the call
    leaves in the service. *)
Definition Option : Type := Service -> Service.

Definition WithShutdownGracePeriod (d : Z) : Option := fun a =>
  {| Service_name := Service_name a; Service_commandLine := Service_commandLine a;
     Service_output := Service_output a; Service_Usage := Service_Usage a;
     Service_timeout := d; Service_closers := Service_closers a;
     Service_logLevel := Service_logLevel a |}.

Definition WithErrorHandling (errorHandling : ErrorHandling) : Option := fun s =>
  {| Service_name := Service_name s;
     Service_commandLine :=
       {| lookupEnvFunc := lookupEnvFunc (Service_commandLine s);
          name := name (Service_commandLine s);
          errorHandling := errorHandling |};
     Service_output := Service_output s; Service_Usage := Service_Usage s;
     Service_timeout := Service_timeout s; Service_closers := Service_closers s;
     Service_logLevel := Service_logLevel s |}.

Definition WithOutput (w : Writer) : Option := fun s =>
  {| Service_name := Service_name s; Service_commandLine := Service_commandLine s;
     Service_output := w; Service_Usage := Service_Usage s;
     Service_timeout := Service_timeout s; Service_closers := Service_closers s;
     Service_logLevel := Service_logLevel s |}.

Definition WithLookupEnvFunc (fn : string -> option string) : Option := fun s =>
  {| Service_name := Service_name s;
     Service_commandLine :=
       {| lookupEnvFunc := fn;
          name := name (Service_commandLine s);
          errorHandling := errorHandling (Service_commandLine s) |};
     Service_output := Service_output s; Service_Usage := Service_Usage s;
     Service_timeout := Service_timeout s; Service_closers := Service_closers s;
     Service_logLevel := Service_logLevel s |}.

Definition WithUsage (parentCmdName : string) : Option := fun s =>
  {| Service_name := Service_name s; Service_commandLine := Service_commandLine s;
     Service_output := Service_output s; Service_Usage := Some parentCmdName;
     Service_timeout := Service_timeout s; Service_closers := Service_closers s;
     Service_logLevel := Service_logLevel s |}.

(** [newCommandLine(name)]; [os_LookupEnv] is the environment of the
    process. *)
Definition newCommandLine (os_LookupEnv : string -> option string) (nm : string) : comandLine :=
  {| lookupEnvFunc := os_LookupEnv; name := nm; errorHandling := ExitOnError |}.

(** [Exit(m, err)]: what is written to [os.Stderr], and the code the
    process ends with. *)
Definition Exit (m : string) (err : option error) : list StderrWrite * Z :=
  (match err with
   | None => [Stderr_Fprintln m]
   | Some err => [Stderr_Fprintf "%s: %s\n" m err]
   end, exitCode).

(** The service [NewService] has built when it calls [parse]: the
    options applied in order to the initial one. *)
Definition configured (os_LookupEnv : string -> option string) (nm : string)
    (opts : list Option) : Service :=
  fold_left (fun s opt => opt s) opts
    {| Service_name := nm;
       Service_commandLine := newCommandLine os_LookupEnv nm;
       Service_output := os_Stderr;
       Service_Usage := None;
       Service_timeout := defaultShutdownGracePeriod;
       Service_closers := [];
       Service_logLevel := None |}.

(** [NewService(name, config, opts...)], in a process with the arguments
    [os_Args] and the environment [os_LookupEnv], the record [config]
    points to living in the memory [m]: the outcome, the state of the
    command line, and what [Exit] wrote.  [os.Args[1:]] panics when
    [os.Args] is empty. *)
Definition NewService (X : Extern) (os_LookupEnv : string -> option string)
    (os_Args : list string) (nm : string) (config : Config) (opts : list Option)
    (m : gmap Path (value X)) : Outcome Service * State X * list StderrWrite :=
  let s := configured os_LookupEnv nm opts in
  match os_Args with
  | [] => (Panics (panic_msg "runtime error: slice bounds out of range" []), newState X m, [])
  | _ :: flags =>
      match parse X (Service_commandLine s) config flags (newState X m) with
      | (Returns (Some err), st) =>
          let '(w, code) := Exit "failed parsing command line" (Some err) in
          (Exits code, st, w)
      | (Returns None, st) => (Returns s, st, [])
      | (Exits code, st) => (Exits code, st, [])
      | (Panics p, st) => (Panics p, st, [])
      end
  end.

(** [s.Register(name, closer)]. *)
Definition Service_Register (s : Service) (nm : string)
    (closer : Z -> W -> W * option error) : Service :=
  {| Service_name := Service_name s; Service_commandLine := Service_commandLine s;
     Service_output := Service_output s; Service_Usage := Service_Usage s;
     Service_timeout := Service_timeout s;
     Service_closers := (Service_closers s ++ [{| c_name := nm; c_inner := closer |}])%list;
     Service_logLevel := Service_logLevel s |}.

(** The loop of [Run] over the closers. *)
Fixpoint Run_loop (ctx : Z) (fs : list c) (w : W) : W * list LogCall :=
  match fs with
  | [] => (w, [])
  | f :: rest =>
      let '(w1, err) := c_inner f ctx w in
      let '(w2, log) := Run_loop ctx rest w1 in
      (w2, Log_Debug ("closing " ++ c_name f)
           :: match err with
              | Some err => Log_Warn ("closer " ++ c_name f) err :: log
              | None => log
              end)
  end.

(** [s.Run()], from the moment a signal has arrived on [s.stop]: the
    service (its slice of closers is reversed in place), what the
    closers left, and the calls made on [s.Log]. *)
Definition Service_Run (s : Service) (w : W) : Service * W * list LogCall :=
  let closers := rev (Service_closers s) in
  let '(w', log) := Run_loop (Service_timeout s) closers w in
  ({| Service_name := Service_name s; Service_commandLine := Service_commandLine s;
      Service_output := Service_output s; Service_Usage := Service_Usage s;
      Service_timeout := Service_timeout s; Service_closers := closers;
      Service_logLevel := Service_logLevel s |},
   w', Log_Info "graceful shutdown" (Service_timeout s) :: log).

(** The closers called, in order, read off the log. *)
Definition closed_names (log : list LogCall) : list string :=
  omap (fun l => match l with
                 | Log_Debug (String "c" (String "l" (String "o" (String "s" (String "i"
                     (String "n" (String "g" (String " " nm)))))))) => Some nm
                 | _ => None
                 end) log.

(** The closers that failed, with their errors, read off the log. *)
Definition warned (log : list LogCall) : list (string * error) :=
  omap (fun l => match l with Log_Warn msg err => Some (msg, err) | _ => None end) log.

End Service.

Arguments c W : clear implicits.
Arguments Service W : clear implicits.
Arguments Option W : clear implicits.

(** The service after the calls [s.Register(name, closer)] for the pairs
    of [regs], in order. *)
Definition register_all {W} (s : Service W) (regs : list (string * (Z -> W -> W * option error)))
    : Service W :=
  fold_left (fun s r => Service_Register s (fst r) (snd r)) regs s.

(** * Field names *)

Fixpoint all_bytes (p : ascii -> bool) (s : string) : bool :=
  match s with
  | EmptyString => true
  | String ch rest => p ch && all_bytes p rest
  end.

(** A byte of an identifier written in ASCII, and an exported
    identifier: it starts with an upper-case letter. *)
Definition ident_byte (ch : ascii) : bool :=
  strcase.isCap ch || strcase.isLow ch || strcase.isNum ch || Ascii.eqb ch "_"%char.

Definition exported_ident (s : string) : bool :=
  match s with
  | String c0 rest => strcase.isCap c0 && all_bytes ident_byte rest
  | EmptyString => false
  end.

(** The bytes of what [flagName] hands to [ToKebab]: identifiers joined
    by dashes. *)
Definition kebab_in (ch : ascii) : bool := ident_byte ch || Ascii.eqb ch "-"%char.

(** The byte [ToDelimited] writes for the byte [ch]. *)
Definition to_lower (ch : ascii) : ascii :=
  if strcase.isCap ch then chr (ord ch + ord "a"%char - ord "A"%char) else ch.

(** * The memory [parse] may write *)

(** The pointers handed to the parsers for a configuration: those of the
    terminal fields of the record pointed to. *)
Definition config_paths (config : Config) : list Path :=
  match config with
  | PointerToStruct fs (Some root) => map t_path (terminals fs 0 root "")
  | _ => []
  end.

(** Relative to the memory [m]: only pointers among [paths] have been
    written, and every flag defined writes through one of them. *)
Definition within {X} (paths : list Path) (m : gmap Path (value X)) (st : State X) : Prop :=
  (forall p, p ∉ paths -> mem st !! p = m !! p)
  /\ (forall nm f, formal st !! nm = Some f -> snd (Flag_Value f) ∈ paths).

(** A call that keeps a property of the state, however it ends. *)
Definition keeps {X A} (I : State X -> Prop) (c : M X A) : Prop :=
  forall st, I st -> I (snd (c st)).

(** * Theorems *)

(** ** strconv.ParseUint on decimal numerals *)

Lemma isDigit_range c : isDigit c = true -> 0 <= ord c - 48 <= 9.
Proof. unfold isDigit. intros H. apply andb_true_iff in H as [H1 H2]. lia. Qed.

Lemma len_nonneg s : 0 <= len s.
Proof. unfold len. lia. Qed.

Lemma len_String c s : len (String c s) = len s + 1.
Proof. unfold len. simpl String.length. lia. Qed.

Lemma decimal_value_nonneg s : all_digits s = true -> 0 <= decimal_value s.
Proof.
  induction s as [|c r IH]; simpl; [lia|].
  intros H. apply andb_true_iff in H as [Hc Hr].
  pose proof (isDigit_range c Hc). specialize (IH Hr).
  pose proof (len_nonneg r).
  assert (0 < 10 ^ len r) by (apply Z.pow_pos_nonneg; lia). nia.
Qed.

Lemma ParseUint_loop_decimal maxVal s :
  all_digits s = true -> maxVal <= strconv.maxUint64 ->
  forall n, 0 <= n <= maxVal ->
  strconv.ParseUint_loop false 10 (strconv.maxUint64 / 10 + 1) maxVal s n false =
    if n * 10 ^ len s + decimal_value s <=? maxVal
    then inl (n * 10 ^ len s + decimal_value s, false)
    else inr strconv_ErrRange.
Proof.
  intros Hd Hmax. induction s as [|c r IH]; intros n Hn.
  - simpl. change (len "") with 0. rewrite Z.pow_0_r, Z.mul_1_r, Z.add_0_r.
    destruct (Z.leb_spec n maxVal); [done|lia].
  - simpl in Hd. apply andb_true_iff in Hd as [Hc Hr].
    pose proof (isDigit_range c Hc) as Hcr.
    pose proof (decimal_value_nonneg r Hr) as Hv.
    pose proof (len_nonneg r) as Hl.
    assert (Hp : 0 < 10 ^ len r) by (apply Z.pow_pos_nonneg; lia).
    rewrite len_String, Z.pow_add_r, Z.pow_1_r by lia.
    cbn [strconv.ParseUint_loop decimal_value].
    rewrite andb_false_r.
    change (ord "0"%char) with 48. change (ord "9"%char) with 57.
    unfold isDigit in Hc. rewrite Hc.
    destruct (Z.leb_spec 10 (ord c - 48)); [lia|].
    change (strconv.maxUint64 / 10 + 1) with 1844674407370955162 in *.
    unfold strconv.maxUint64 in Hmax.
    destruct (Z.leb_spec 1844674407370955162 n).
    + destruct (Z.leb_spec (n * (10 ^ len r * 10) + ((ord c - 48) * 10 ^ len r + decimal_value r)) maxVal); [nia|done].
    + destruct (Z.ltb_spec maxVal (n * 10 + (ord c - 48))).
      * destruct (Z.leb_spec (n * (10 ^ len r * 10) + ((ord c - 48) * 10 ^ len r + decimal_value r)) maxVal); [nia|done].
      * rewrite IH by (auto; lia).
        replace ((n * 10 + (ord c - 48)) * 10 ^ len r + decimal_value r)
          with (n * (10 ^ len r * 10) + ((ord c - 48) * 10 ^ len r + decimal_value r)) by ring.
        done.
Qed.

Lemma ParseUint_decimal s bits :
  s <> "" -> all_digits s = true -> 0 < bits <= 64 ->
  strconv.ParseUint s 10 bits =
    if decimal_value s <=? 2 ^ bits - 1
    then (decimal_value s, None)
    else (2 ^ bits - 1, Some (strconv.rangeError "ParseUint" s)).
Proof.
  intros Hne Hd Hb. unfold strconv.ParseUint.
  destruct (decide (s = "")) as [|_]; [done|].
  change (10 =? 0) with false. cbv iota.
  destruct (Z.eqb_spec bits 0); [lia|].
  assert (Hmax : 2 ^ bits - 1 <= strconv.maxUint64).
  { unfold strconv.maxUint64. pose proof (Z.pow_le_mono_r 2 bits 64). lia. }
  assert (Hpos : 0 < 2 ^ bits) by (apply Z.pow_pos_nonneg; lia).
  rewrite (ParseUint_loop_decimal (2 ^ bits - 1) s Hd Hmax 0) by lia.
  rewrite Z.mul_0_l, Z.add_0_l.
  destruct (decimal_value s <=? 2 ^ bits - 1); done.
Qed.

Lemma ParseUint_loop_not_decimal cutoff maxVal s :
  all_digits s = false ->
  forall n, exists e, strconv.ParseUint_loop false 10 cutoff maxVal s n false = inr e.
Proof.
  induction s as [|c r IH]; [done|]. intros Hd n.
  cbn [strconv.ParseUint_loop all_digits] in *. rewrite andb_false_r.
  change (ord "0"%char) with 48. change (ord "9"%char) with 57.
  change (ord "a"%char) with 97. change (ord "z"%char) with 122.
  fold (isDigit c). destruct (isDigit c) eqn:Hc.
  - simpl in Hd. destruct (10 <=? ord c - 48); [eauto|].
    destruct (cutoff <=? n); [eauto|].
    destruct (maxVal <? n * 10 + (ord c - 48)); [eauto|]. apply IH, Hd.
  - destruct ((97 <=? strconv.lower c) && (strconv.lower c <=? 122)) eqn:Hl; [|eauto].
    apply andb_true_iff in Hl as [Hl _].
    destruct (Z.leb_spec 10 (strconv.lower c - 97 + 10)); [eauto|lia].
Qed.

Lemma ParseUint_not_decimal s bits :
  all_digits s = false ->
  exists v e, strconv.ParseUint s 10 bits = (v, Some e).
Proof.
  intros Hd. unfold strconv.ParseUint.
  destruct (decide (s = "")); [eauto|].
  change (10 =? 0) with false. cbv iota.
  destruct (ParseUint_loop_not_decimal (strconv.maxUint64 / 10 + 1)
              (2 ^ (if bits =? 0 then strconv.IntSize else bits) - 1) s Hd 0) as [e ->].
  destruct e; eauto.
Qed.

(** ** Reading a value out of an option, for the closed examples *)

Lemma value_is_int X (o : option (value X)) n :
  match o with Some (V_int k) => Some k | _ => None end = Some n -> o = Some (V_int n).
Proof. destruct o as [[]|]; try discriminate. by intros [= ->]. Qed.

Lemma value_is_uint64 X (o : option (value X)) n :
  match o with Some (V_uint64 k) => Some k | _ => None end = Some n -> o = Some (V_uint64 n).
Proof. destruct o as [[]|]; try discriminate. by intros [= ->]. Qed.




(** ** C9 *)

(** C9. A field of kind [uint] whose non-empty source text is a decimal
    numeral is parsed with [strconv.ParseUint(value, 10, 32)]: a numeral
    denoting more than 2^32 - 1 yields a parse error (and changes
    nothing), one denoting at most 2^32 - 1 defines the flag with that
    value; a text that is not a decimal numeral is an error as well.  A
    field of kind [uint64] accepts every numeral up to 2^64 - 1 and
    rejects the larger ones. *)
Theorem C9_uint_is_32_bit_uint64_is_64_bit X cl p flag usage s st :
  s <> "" ->
  (all_digits s = true -> decimal_value s <= 2 ^ 32 - 1 ->
     parseValue X cl Uint (p, T_uint) flag s usage st =
       (do_ UintVar X cl p flag (decimal_value s) usage; ret None) st)
  /\ (all_digits s = true -> 2 ^ 32 - 1 < decimal_value s ->
     parseValue X cl Uint (p, T_uint) flag s usage st =
       (Returns (Some (Errorf_q_w "parsing uint %q: %w" s (strconv.rangeError "ParseUint" s))), st))
  /\ (all_digits s = false ->
     exists e, parseValue X cl Uint (p, T_uint) flag s usage st =
       (Returns (Some (Errorf_q_w "parsing uint %q: %w" s e)), st))
  /\ (all_digits s = true -> decimal_value s <= 2 ^ 64 - 1 ->
     parseValue X cl Uint64 (p, T_uint64) flag s usage st =
       (do_ Uint64Var X cl p flag (decimal_value s) usage; ret None) st)
  /\ (all_digits s = true -> 2 ^ 64 - 1 < decimal_value s ->
     parseValue X cl Uint64 (p, T_uint64) flag s usage st =
       (Returns (Some (Errorf_q_w "parsing uint64 %q: %w" s (strconv.rangeError "ParseUint" s))), st)).
Proof.
  intros Hne.
  assert (Heq : String.eqb s "" = false) by (by apply String.eqb_neq).
  cbn [parseValue]. unfold parseUint, parseUint64. rewrite Heq.
  repeat split.
  - intros Hd Hv. rewrite (ParseUint_decimal s 32 Hne Hd) by lia.
    destruct (Z.leb_spec (decimal_value s) (2 ^ 32 - 1)); [done|lia].
  - intros Hd Hv. rewrite (ParseUint_decimal s 32 Hne Hd) by lia.
    destruct (Z.leb_spec (decimal_value s) (2 ^ 32 - 1)); [lia|done].
  - intros Hd. destruct (ParseUint_not_decimal s 32 Hd) as (v & e & ->). eauto.
  - intros Hd Hv. rewrite (ParseUint_decimal s 64 Hne Hd) by lia.
    destruct (Z.leb_spec (decimal_value s) (2 ^ 64 - 1)); [done|lia].
  - intros Hd Hv. rewrite (ParseUint_decimal s 64 Hne Hd) by lia.
    destruct (Z.leb_spec (decimal_value s) (2 ^ 64 - 1)); [lia|done].
Qed.

Lemma C9_witness :
  "4294967296" <> ""
  /\ parseValue spec_Extern (cool ContinueOnError no_env) Uint ([0%nat], T_uint)
       "port" "4294967296" "port (env COOL_PORT)" (newState spec_Extern ∅) =
     (Returns (Some (Errorf_q_w "parsing uint %q: %w" "4294967296"
                       (strconv.rangeError "ParseUint" "4294967296"))),
      newState spec_Extern ∅)
  /\ exists st',
     parseValue spec_Extern (cool ContinueOnError no_env) Uint64 ([0%nat], T_uint64)
       "port" "4294967296" "port (env COOL_PORT)" (newState spec_Extern ∅) =
     (Returns None, st') /\ mem st' !! [0%nat] = Some (V_uint64 4294967296).
Proof.
  assert (Hne : "4294967296" <> "") by discriminate.
  destruct (C9_uint_is_32_bit_uint64_is_64_bit spec_Extern (cool ContinueOnError no_env)
              [0%nat] "port" "port (env COOL_PORT)" "4294967296"
              (newState spec_Extern ∅) Hne) as (_ & H32 & _ & H64 & _).
  split; [exact Hne|]. split.
  - apply H32; [reflexivity | vm_compute; reflexivity].
  - specialize (H64 eq_refl ltac:(vm_compute; discriminate)).
    eexists. split; [exact H64|]. apply value_is_uint64. vm_compute. reflexivity.
Defined.

(** ** Derived names *)

Lemma undash_classes c :
  strcase.isCap (undash c) = strcase.isCap c
  /\ strcase.isLow (undash c) = strcase.isLow c
  /\ strcase.isNum (undash c) = strcase.isNum c.
Proof.
  unfold undash. destruct (Ascii.eqb_spec c "-"%char) as [->|]; [|done].
  repeat split; reflexivity.
Qed.

(** [strcase] treats a dash and an underscore alike. *)
Lemma ToScreamingDelimited_loop_undash delimiter screaming s :
  forall prev,
  strcase.ToScreamingDelimited_loop delimiter screaming (option_map undash prev) (smap undash s)
  = strcase.ToScreamingDelimited_loop delimiter screaming prev s.
Proof.
  induction s as [|v0 rest IH]; intros prev; [done|].
  cbn [smap strcase.ToScreamingDelimited_loop].
  change (Some (undash v0)) with (option_map undash (Some v0)).
  rewrite IH. generalize (strcase.ToScreamingDelimited_loop delimiter screaming (Some v0) rest).
  intros tail.
  assert (Hprev : match option_map undash prev with Some p => strcase.isCap p | None => false end
                  = match prev with Some p => strcase.isCap p | None => false end).
  { destruct prev as [p|]; [|done]. cbn. apply undash_classes. }
  rewrite Hprev. clear Hprev IH.
  generalize (match prev with Some p => strcase.isCap p | None => false end). intros prevIsCap.
  destruct (Ascii.eqb_spec v0 "-"%char) as [->|Hne].
  - destruct rest as [|next r']; cbn [smap]; vm_compute; reflexivity.
  - assert (Hv : undash v0 = v0).
    { unfold undash. by destruct (Ascii.eqb_spec v0 "-"%char). }
    rewrite Hv.
    destruct rest as [|next r']; cbn [smap]; [done|].
    destruct (undash_classes next) as (-> & -> & ->). done.
Qed.

Lemma undash_spaces a b c :
  strings.asciiSpace (undash a) = strings.asciiSpace a
  /\ strings.space2 (undash a) (undash b) = strings.space2 a b
  /\ strings.space3 (undash a) (undash b) (undash c) = strings.space3 a b c.
Proof.
  unfold undash.
  destruct (Ascii.eqb_spec a "-"%char) as [->|];
    destruct (Ascii.eqb_spec b "-"%char) as [->|];
    destruct (Ascii.eqb_spec c "-"%char) as [->|];
    repeat split; vm_compute; reflexivity.
Qed.

Lemma trimLeft_undash l : strings.trimLeft (map undash l) = map undash (strings.trimLeft l).
Proof.
  remember (List.length l) as n eqn:Hn. revert l Hn.
  induction n as [n IH] using lt_wf_ind. intros l Hn.
  destruct l as [|c0 r0]; [done|].
  cbn [map strings.trimLeft].
  destruct (undash_spaces c0 c0 c0) as (-> & _ & _).
  destruct (strings.asciiSpace c0).
  { apply (IH (List.length r0)); [simpl in Hn; lia | done]. }
  destruct r0 as [|c1 r1]; [done|]. cbn [map].
  destruct (undash_spaces c0 c1 c1) as (_ & -> & _).
  destruct (strings.space2 c0 c1).
  { apply (IH (List.length r1)); [simpl in Hn; lia | done]. }
  destruct r1 as [|c2 r2]; [done|]. cbn [map].
  destruct (undash_spaces c0 c1 c2) as (_ & _ & ->).
  destruct (strings.space3 c0 c1 c2); [|done].
  apply (IH (List.length r2)); [simpl in Hn; lia | done].
Qed.

Lemma trimLeft_rev_undash l :
  strings.trimLeft_rev (map undash l) = map undash (strings.trimLeft_rev l).
Proof.
  remember (List.length l) as n eqn:Hn. revert l Hn.
  induction n as [n IH] using lt_wf_ind. intros l Hn.
  destruct l as [|c0 r0]; [done|].
  cbn [map strings.trimLeft_rev].
  destruct (undash_spaces c0 c0 c0) as (-> & _ & _).
  destruct (strings.asciiSpace c0).
  { apply (IH (List.length r0)); [simpl in Hn; lia | done]. }
  destruct r0 as [|c1 r1]; [done|]. cbn [map].
  destruct (undash_spaces c1 c0 c0) as (_ & -> & _).
  destruct (strings.space2 c1 c0).
  { apply (IH (List.length r1)); [simpl in Hn; lia | done]. }
  destruct r1 as [|c2 r2]; [done|]. cbn [map].
  destruct (undash_spaces c2 c1 c0) as (_ & _ & ->).
  destruct (strings.space3 c2 c1 c0); [|done].
  apply (IH (List.length r2)); [simpl in Hn; lia | done].
Qed.

Lemma list_ascii_of_smap f s :
  list_ascii_of_string (smap f s) = map f (list_ascii_of_string s).
Proof. induction s as [|c r IH]; [done|]. cbn. by rewrite IH. Qed.

Lemma string_of_map f l :
  string_of_list_ascii (map f l) = smap f (string_of_list_ascii l).
Proof. induction l as [|c r IH]; [done|]. cbn. by rewrite IH. Qed.

Lemma TrimSpace_undash s : strings.TrimSpace (smap undash s) = smap undash (strings.TrimSpace s).
Proof.
  unfold strings.TrimSpace.
  rewrite list_ascii_of_smap, trimLeft_undash, <- map_rev, trimLeft_rev_undash,
    <- map_rev, string_of_map.
  done.
Qed.

Lemma ToScreamingDelimited_undash s delimiter screaming :
  strcase.ToScreamingDelimited (smap undash s) delimiter screaming
  = strcase.ToScreamingDelimited s delimiter screaming.
Proof.
  unfold strcase.ToScreamingDelimited. rewrite TrimSpace_undash.
  apply (ToScreamingDelimited_loop_undash delimiter screaming _ None).
Qed.

Lemma smap_app f a b : smap f (a ++ b) = smap f a ++ smap f b.
Proof.
  induction a as [|c r IH]; [done|].
  change (smap f (String c (r ++ b)) = String (f c) (smap f r ++ smap f b)).
  cbn [smap]. by rewrite IH.
Qed.

Lemma smap_concat f sep l :
  smap f (String.concat sep l) = String.concat (smap f sep) (map (smap f) l).
Proof.
  induction l as [|x [|y l] IH]; [done|done|].
  change (String.concat sep (x :: y :: l)) with (x ++ sep ++ String.concat sep (y :: l)).
  rewrite !smap_app, IH. done.
Qed.

Lemma append_assoc3 (a b c : string) : (a ++ b) ++ c = a ++ b ++ c.
Proof.
  induction a as [|x a IH]; [done|].
  change (String x ((a ++ b) ++ c) = String x (a ++ b ++ c)). by rewrite IH.
Qed.

Lemma concat_snoc sep l x :
  l <> [] -> String.concat sep (l ++ [x]) = String.concat sep l ++ sep ++ x.
Proof.
  induction l as [|a [|b l] IH]; [done|done|]. intros _.
  change (a ++ sep ++ String.concat sep ((b :: l) ++ [x])
          = (a ++ sep ++ String.concat sep (b :: l)) ++ sep ++ x).
  rewrite IH by done. by rewrite !append_assoc3.
Qed.

Lemma concat_nonempty sep l :
  l <> [] -> Forall (fun s => s <> "") l -> String.concat sep l <> "".
Proof.
  destruct l as [|a l]; [done|]. intros _ Hall.
  apply Forall_cons in Hall as [Ha _].
  destruct a as [|c a]; [done|]. destruct l; discriminate.
Qed.

Lemma walk_prefix_snoc chain sf :
  walk_prefix (chain ++ [sf]) = newPrefix sf (walk_prefix chain).
Proof. unfold walk_prefix. by rewrite fold_left_app. Qed.

(** The prefix is the dash-joined chain of the enclosing field names. *)
Lemma walk_prefix_concat chain :
  Forall (fun f => Name f <> "") chain ->
  walk_prefix chain = String.concat "-" (map Name chain).
Proof.
  induction chain as [|sf chain IH] using rev_ind; [done|]. intros Hall.
  apply Forall_app in Hall as [Hc Hsf]. specialize (IH Hc).
  rewrite walk_prefix_snoc, IH, map_app. cbn [map]. unfold newPrefix.
  destruct chain as [|f0 chain]; [done|].
  destruct (String.eqb_spec (String.concat "-" (map Name (f0 :: chain))) "") as [E|_].
  - exfalso. revert E. apply concat_nonempty; [done|].
    apply Forall_fmap. exact Hc.
  - cbn [negb]. by rewrite concat_snoc.
Qed.

Lemma walk_prefix_empty chain :
  Forall (fun f => Name f <> "") chain ->
  walk_prefix chain = "" <-> chain = [].
Proof.
  intros Hall. split; [|by intros ->].
  rewrite (walk_prefix_concat chain Hall). destruct chain as [|f0 chain]; [done|].
  intros E. exfalso. revert E. apply concat_nonempty; [done|].
  apply Forall_fmap. exact Hall.
Qed.

Lemma ToScreamingSnake_joined cmd names n :
  names <> [] ->
  strcase.ToScreamingSnake (cmd ++ "_" ++ String.concat "-" names ++ "_" ++ n)
  = strcase.ToScreamingSnake (String.concat "_" (cmd :: names ++ [n])).
Proof.
  intros Hne. unfold strcase.ToScreamingSnake.
  rewrite <- (ToScreamingDelimited_undash (cmd ++ _)),
          <- (ToScreamingDelimited_undash (String.concat _ _)).
  f_equal.
  rewrite !smap_app, !smap_concat.
  change (map (smap undash) (cmd :: names ++ [n]))
    with (smap undash cmd :: map (smap undash) (names ++ [n])).
  rewrite map_app. cbn [map].
  change (smap undash "-") with "_". change (smap undash "_") with "_".
  assert (Hne' : map (smap undash) names <> []) by (by destruct names).
  destruct (map (smap undash) names ++ [smap undash n])%list as [|y l] eqn:E.
  { by destruct (map (smap undash) names). }
  change (String.concat "_" (smap undash cmd :: y :: l))
    with (smap undash cmd ++ "_" ++ String.concat "_" (y :: l)).
  rewrite <- E, concat_snoc by done. done.
Qed.

(** ** C4 *)

(** C4. For a field without [flag] and [env] tags, reached under the
    namespace fields [chain], the derived flag name is the kebab case of
    the chain's names and the field's name joined by dashes, and the
    derived environment name is the screaming snake case of the command
    name, the chain's names and the field's name joined by underscores.
    For the field [DB.Postgres.Host] of the package's first example under
    the command ["mycmd"] the names are [db-postgres-host] and
    [MYCMD_DB_POSTGRES_HOST]: with nothing in the environment, the walk
    defines that flag for the field and looks that environment name up. *)
Theorem C4_derived_names cmd chain sf :
  Forall (fun f => Name f <> "") chain ->
  Get (Tag sf) "flag" = "" ->
  Get (Tag sf) "env" = "" ->
  flagName sf (walk_prefix chain)
    = strcase.ToKebab (String.concat "-" (map Name chain ++ [Name sf]))
  /\ envVarName cmd sf (walk_prefix chain)
    = strcase.ToScreamingSnake (String.concat "_" (cmd :: map Name chain ++ [Name sf]))
  /\ (flagName field_Host (walk_prefix [field_DB; field_Postgres]) = "db-postgres-host"
      /\ envVarName "mycmd" field_Host (walk_prefix [field_DB; field_Postgres])
         = "MYCMD_DB_POSTGRES_HOST")
  /\ (forall X h,
      let cl := {| lookupEnvFunc := no_env; name := "mycmd"; errorHandling := h |} in
      let st := snd (subParse X cl (PointerToStruct example_basic_config (Some [])) [] ""
                       (newState X ∅)) in
      Flag_Value <$> (formal st !! "db-postgres-host") = Some (stringValue, [2; 1; 0]%nat)
      /\ lookups st !! 3%nat = Some "MYCMD_DB_POSTGRES_HOST").
Proof.
  intros Hall Hflag Henv.
  pose proof (walk_prefix_concat chain Hall) as Hp.
  pose proof (walk_prefix_empty chain Hall) as He.
  split; [|split; [|split]].
  - unfold flagName. rewrite Hflag. cbn [String.eqb negb].
    destruct chain as [|f0 chain].
    + reflexivity.
    + destruct (String.eqb_spec (walk_prefix (f0 :: chain)) "") as [E|_].
      { apply He in E. discriminate. }
      cbn [negb]. rewrite Hp, concat_snoc by done. reflexivity.
  - unfold envVarName. rewrite Henv. cbn [String.eqb negb].
    destruct chain as [|f0 chain].
    + reflexivity.
    + destruct (String.eqb_spec (walk_prefix (f0 :: chain)) "") as [E|_].
      { apply He in E. discriminate. }
      cbn [negb]. rewrite Hp. apply ToScreamingSnake_joined. done.
  - vm_compute. split; reflexivity.
  - intros X h. vm_compute. split; reflexivity.
Qed.

Lemma C4_witness :
  Forall (fun f => Name f <> "") [field_DB; field_Postgres]
  /\ Get (Tag field_Host) "flag" = ""
  /\ Get (Tag field_Host) "env" = ""
  /\ flagName field_Host (walk_prefix [field_DB; field_Postgres])
     = strcase.ToKebab (String.concat "-" ["DB"; "Postgres"; "Host"])
  /\ envVarName "mycmd" field_Host (walk_prefix [field_DB; field_Postgres])
     = strcase.ToScreamingSnake (String.concat "_" ["mycmd"; "DB"; "Postgres"; "Host"]).
Proof.
  assert (H1 : Forall (fun f => Name f <> "") [field_DB; field_Postgres]).
  { repeat constructor; discriminate. }
  assert (H2 : Get (Tag field_Host) "flag" = "") by reflexivity.
  assert (H3 : Get (Tag field_Host) "env" = "") by reflexivity.
  destruct (C4_derived_names "mycmd" [field_DB; field_Postgres] field_Host H1 H2 H3)
    as (Hf & He & _).
  exact (conj H1 (conj H2 (conj H3 (conj Hf He)))).
Defined.

(** ** C8 *)

(** C8, as stated, fails: in exit mode a help request terminates the
    process with code 0, not with code 2.  Here the walk succeeds, the
    final parse of ["--help"] reports [flag.ErrHelp], and [parse] ends in
    [os.Exit(0)]. *)
Lemma C8_counterexample :
  fst (subParse spec_Extern (cool ExitOnError no_env) port_ptr ["--help"] "" st0) = Returns None
  /\ fst (FlagSet_Parse spec_Extern ["--help"]
            (snd (subParse spec_Extern (cool ExitOnError no_env) port_ptr ["--help"] "" st0)))
     = Returns (Some flag_ErrHelp)
  /\ fst (parse spec_Extern (cool ExitOnError no_env) port_ptr ["--help"] st0) = Exits 0
  /\ fst (parse spec_Extern (cool ExitOnError no_env) port_ptr ["--help"] st0) <> Exits 2.
Proof. vm_compute. repeat split; discriminate. Qed.

(** C8, amended.  In exit mode [parse] never returns an error.  An error
    of the walk, or of the final parse of the flag set, ends the process:
    with code 0 and nothing written by [exit] when a help token was in the
    arguments or the error is the help request; otherwise with code 2,
    after ["bee: <error>"] is written to [cl.output]. *)
Theorem C8_exit_mode X cl config flags st :
  errorHandling cl = ExitOnError ->
  (forall err st1,
     exit X cl (Some err) st1 =
       if help st1 || errors_Is_ErrHelp err then (Exits 0, st1)
       else (Exits 2, print X cl_output (Fprintf "bee: %v\n" err) st1))
  /\ (forall err st1,
     subParse X cl config flags "" st = (Returns (Some err), st1) ->
     parse X cl config flags st = exit X cl (Some err) st1)
  /\ (forall err st1 st2,
     subParse X cl config flags "" st = (Returns None, st1) ->
     FlagSet_Parse X flags st1 = (Returns (Some err), st2) ->
     parse X cl config flags st = exit X cl (Some err) st2)
  /\ (forall err, fst (parse X cl config flags st) <> Returns (Some err)).
Proof.
  intros Hmode.
  assert (Hexit : forall err st1,
     exit X cl (Some err) st1 =
       if help st1 || errors_Is_ErrHelp err then (Exits 0, st1)
       else (Exits 2, print X cl_output (Fprintf "bee: %v\n" err) st1)).
  { intros err st1. unfold exit. rewrite Hmode.
    destruct (help st1 || errors_Is_ErrHelp err); reflexivity. }
  split; [exact Hexit|]. split; [|split].
  - intros err st1 Hw. unfold parse, bind. rewrite Hw. reflexivity.
  - intros err st1 st2 Hw Hp. unfold parse, bind. rewrite Hw, Hp. reflexivity.
  - intros err. unfold parse, bind.
    destruct (subParse X cl config flags "" st) as [[[e|]| |] st1]; cbn -[exit]; try discriminate.
    + rewrite Hexit. destruct (help st1 || errors_Is_ErrHelp e); discriminate.
    + destruct (FlagSet_Parse X flags st1) as [[[e|]| |] st2]; cbn -[exit]; try discriminate.
      rewrite Hexit. destruct (help st2 || errors_Is_ErrHelp e); discriminate.
Qed.

Lemma C8_witness :
  errorHandling (cool ExitOnError no_env) = ExitOnError
  /\ fst (parse spec_Extern (cool ExitOnError no_env) port_ptr ["-x"] st0) = Exits 2
  /\ printed (snd (parse spec_Extern (cool ExitOnError no_env) port_ptr ["-x"] st0)) !! 2%nat
     = Some (cl_output, Fprintf "bee: %v\n" (flag_failf "flag provided but not defined: -%s" ["x"])).
Proof.
  assert (Hmode : errorHandling (cool ExitOnError no_env) = ExitOnError) by reflexivity.
  destruct (C8_exit_mode spec_Extern (cool ExitOnError no_env) port_ptr ["-x"] st0 Hmode)
    as (Hexit & _ & Hp & _).
  split; [exact Hmode|].
  assert (H1 : fst (subParse spec_Extern (cool ExitOnError no_env) port_ptr ["-x"] "" st0)
               = Returns None) by (vm_compute; reflexivity).
  assert (H2 : fst (FlagSet_Parse spec_Extern ["-x"]
                 (snd (subParse spec_Extern (cool ExitOnError no_env) port_ptr ["-x"] "" st0)))
               = Returns (Some (flag_failf "flag provided but not defined: -%s" ["x"])))
    by (vm_compute; reflexivity).
  destruct (subParse spec_Extern (cool ExitOnError no_env) port_ptr ["-x"] "" st0)
    as [o1 st1] eqn:E1.
  cbn [fst snd] in H1, H2. subst o1.
  destruct (FlagSet_Parse spec_Extern ["-x"] st1) as [o2 st2] eqn:E2.
  cbn [fst] in H2. subst o2.
  rewrite (Hp _ _ _ eq_refl E2), Hexit.
  assert (H3 : help st2 || errors_Is_ErrHelp
                 (flag_failf "flag provided but not defined: -%s" ["x"]) = false).
  { replace st2 with (snd (FlagSet_Parse spec_Extern ["-x"] st1)) by (by rewrite E2).
    replace st1 with (snd (subParse spec_Extern (cool ExitOnError no_env) port_ptr ["-x"] "" st0))
      by (by rewrite E1).
    vm_compute. reflexivity. }
  rewrite H3. cbn [fst snd print printed]. split; [reflexivity|].
  replace st2 with (snd (FlagSet_Parse spec_Extern ["-x"] st1)) by (by rewrite E2).
  replace st1 with (snd (subParse spec_Extern (cool ExitOnError no_env) port_ptr ["-x"] "" st0))
    by (by rewrite E1).
  vm_compute. reflexivity.
Defined.

(** ** C6 *)

Lemma parseHelp_spec X flags st :
  parseHelp X flags st
  = (Returns tt, if existsb is_help_token flags then set_help X true st else st).
Proof. unfold parseHelp. destruct (existsb is_help_token flags); reflexivity. Qed.

(** C6. When the argument is not a pointer to a struct, the walk returns
    [ErrInvalidConfigType] before it visits any field: the memory, the
    flags defined, the writers and the environment are as before (only
    [cl.help] may have been set by the scan for help tokens).  [parse]
    hands that error to [exit]: in continue mode it is returned. *)
Theorem C6_invalid_config_type X cl config flags prefix st :
  v_Kind_is_Ptr config && t_Elem_Kind_is_Struct config = false ->
  (exists st',
     subParse X cl config flags prefix st = (Returns (Some ErrInvalidConfigType), st')
     /\ mem st' = mem st /\ formal st' = formal st
     /\ lookups st' = lookups st /\ printed st' = printed st
     /\ parse X cl config flags st = exit X cl (Some ErrInvalidConfigType) st'
     /\ (errorHandling cl = ContinueOnError ->
         parse X cl config flags st = (Returns (Some ErrInvalidConfigType), st')))
  /\ mem (snd (parse X cl config flags st)) = mem st
  /\ formal (snd (parse X cl config flags st)) = formal st.
Proof.
  intros Hcfg.
  assert (Hsub : forall pre,
    subParse X cl config flags pre st
    = (Returns (Some ErrInvalidConfigType),
       if existsb is_help_token flags then set_help X true st else st)).
  { intros pre. unfold subParse, bind. rewrite parseHelp_spec.
    destruct config; cbn in Hcfg |- *; try reflexivity. discriminate. }
  assert (Hparse : parse X cl config flags st
    = exit X cl (Some ErrInvalidConfigType)
        (if existsb is_help_token flags then set_help X true st else st)).
  { unfold parse, bind. rewrite Hsub. reflexivity. }
  split.
  - eexists. split; [apply Hsub|].
    repeat split; try (destruct (existsb is_help_token flags); reflexivity).
    + exact Hparse.
    + intros Hmode. rewrite Hparse. unfold exit. rewrite Hmode. reflexivity.
  - rewrite Hparse. unfold exit, os_Exit, bind, modify, panic, ret.
    destruct (errorHandling cl); cbn;
      destruct (existsb is_help_token flags); cbn; try (split; reflexivity);
      destruct (help st); split; reflexivity.
Qed.

Lemma C6_witness :
  v_Kind_is_Ptr NotAPointer && t_Elem_Kind_is_Struct NotAPointer = false
  /\ fst (parse spec_Extern (cool ContinueOnError no_env) NotAPointer ["-port"; "9090"] st0)
     = Returns (Some ErrInvalidConfigType)
  /\ mem (snd (parse spec_Extern (cool ContinueOnError no_env) NotAPointer ["-port"; "9090"] st0))
     = mem st0
  /\ formal (snd (parse spec_Extern (cool ContinueOnError no_env) NotAPointer ["-port"; "9090"] st0))
     = formal st0.
Proof.
  assert (H : v_Kind_is_Ptr NotAPointer && t_Elem_Kind_is_Struct NotAPointer = false)
    by reflexivity.
  destruct (C6_invalid_config_type spec_Extern (cool ContinueOnError no_env) NotAPointer
              ["-port"; "9090"] "" st0 H)
    as [(st' & _ & _ & _ & _ & _ & _ & Hcont) (Hmem & Hformal)].
  split; [exact H|]. split; [|split; [exact Hmem|exact Hformal]].
  rewrite (Hcont eq_refl). reflexivity.
Defined.

(** ** Registration and resolution of one field *)

Lemma FlagSet_Var_definable X cl v nm us (st : State X) :
  definable st nm = true ->
  FlagSet_Var X cl v nm us st
  = (Returns tt,
     set_formal X (<[nm := {| Flag_Name := nm; Flag_Usage := us; Flag_Value := v |}]> (formal st)) st).
Proof.
  unfold definable, FlagSet_Var. intros H.
  apply andb_true_iff in H as [H H3]. apply andb_true_iff in H as [H1 H2].
  apply negb_true_iff in H1, H2. apply bool_decide_eq_true in H3.
  rewrite H1, H2, H3. reflexivity.
Qed.

Lemma FlagSet_Var_not_definable X cl v nm us (st : State X) :
  definable st nm = false ->
  exists pv st', FlagSet_Var X cl v nm us st = (Panics pv, st').
Proof.
  unfold definable, FlagSet_Var. intros H.
  destruct (String.prefix "-" nm); [eauto|].
  destruct (contains_byte "="%char nm); [eauto|].
  destruct (formal st !! nm) eqn:E.
  - destruct (String.eqb (name cl) ""); eauto.
  - cbn [negb andb] in H. apply bool_decide_eq_false in H. done.
Qed.

(** What [f.Var] never does: return an error, or touch the memory. *)
Lemma FlagSet_Var_outcome X cl v nm us (st : State X) :
  (exists st', FlagSet_Var X cl v nm us st = (Returns tt, st'))
  \/ (exists pv st', FlagSet_Var X cl v nm us st = (Panics pv, st')).
Proof.
  destruct (definable st nm) eqn:E.
  - left. rewrite FlagSet_Var_definable by done. eauto.
  - right. by apply FlagSet_Var_not_definable.
Qed.

(** [resolve] logs the lookup, parses the selected text and wraps a
    failure with the field's name and the phase. *)
Lemma resolve_spec X cl field p fn en us st :
  resolve X cl field p fn en us st =
    let st1 := log_lookup X en st in
    let '(text, phase) := selected_text cl st1 field en in
    match parseValue X cl (Kind_of (Type_ field)) (p, Type_ field) fn text us st1 with
    | (Returns (Some err), st2) =>
        (Returns (Some (Errorf_s_w ("%s " ++ phase ++ ": %w") (Name field) err)), st2)
    | r => r
    end.
Proof.
  unfold resolve, selected_text, bind, modify. cbn [help log_lookup].
  destruct (lookupEnvFunc cl en) as [v|]; [destruct (help st)|]; cbn [negb];
    match goal with |- context [parseValue ?a ?b ?c ?d ?e ?f ?g ?h] =>
      destruct (parseValue a b c d e f g h) as [[[err|]| |] st2] end; reflexivity.
Qed.

(** Empty text: the zero value is assigned and the flag defined, whatever
    the type. *)
Lemma parseValue_empty X cl t p fn us z vt st :
  zero_value X t = Some z -> ValueType_of t = Some vt ->
  parseValue X cl (Kind_of t) (p, t) fn "" us st
  = (do_ store p z; do_ FlagSet_Var X cl (vt, p) fn us; ret None) st.
Proof.
  intros Hz Hv.
  destruct t; cbn in Hz, Hv; try discriminate;
    injection Hz as <-; injection Hv as <-; cbn;
    unfold BoolVar, StringVar, UintVar, Uint64Var, IntVar, Int64Var, Float64Var, DurationVar,
      bind, store, modify, ret;
    match goal with |- context [FlagSet_Var ?a ?b ?c ?d ?e ?f] =>
      destruct (FlagSet_Var a b c d e f) as [[[]| |] st2] end; reflexivity.
Qed.

(** ** C2 *)

(** C2. When the source text selected for a field (the value of the
    environment, or the declared default) is empty, resolution assigns the
    zero value of the field's type and defines the flag with it; no text
    parser takes part (the library parsers reject the empty text), and no
    error is returned.  For the two list types the value assigned is the
    empty list, and the [Set] method of the type is not consulted. *)
Theorem C2_empty_text_is_zero_value X cl field p fn en us z vt st :
  zero_value X (Type_ field) = Some z ->
  ValueType_of (Type_ field) = Some vt ->
  fst (selected_text cl st field en) = "" ->
  resolve X cl field p fn en us st
    = (do_ modify (log_lookup X en);
       do_ store p z;
       do_ FlagSet_Var X cl (vt, p) fn us;
       ret None) st
  /\ (forall err, fst (resolve X cl field p fn en us st) <> Returns (Some err))
  /\ (definable st fn = true ->
      exists st', resolve X cl field p fn en us st = (Returns None, st')
                  /\ mem st' !! p = Some z
                  /\ Flag_Value <$> (formal st' !! fn) = Some (vt, p))
  /\ (Type_ field = T_StringSlice -> z = V_StringSlice [])
  /\ (Type_ field = T_IntSlice -> z = V_IntSlice [])
  /\ (snd (strconv.ParseBool "") <> None
      /\ snd (strconv.ParseUint "" 10 32) <> None
      /\ snd (strconv.ParseUint "" 10 64) <> None
      /\ snd (strconv.Atoi "") <> None
      /\ snd (strconv.ParseInt "" 10 64) <> None).
Proof.
  intros Hz Hv Htext.
  assert (Heq : resolve X cl field p fn en us st
    = (do_ modify (log_lookup X en); do_ store p z;
       do_ FlagSet_Var X cl (vt, p) fn us; ret None) st).
  { rewrite resolve_spec. cbv zeta.
    change (selected_text cl (log_lookup X en st) field en) with (selected_text cl st field en).
    destruct (selected_text cl st field en) as [text phase]. cbn in Htext. subst text.
    rewrite (parseValue_empty X cl (Type_ field) p fn us z vt _ Hz Hv).
    unfold bind, store, modify, ret.
    match goal with |- context [FlagSet_Var ?a ?b ?c ?d ?e ?f] =>
      destruct (FlagSet_Var a b c d e f) as [[[]| |] st2] end; reflexivity. }
  split; [exact Heq|]. split; [|split; [|split; [|split]]].
  - intros err. rewrite Heq. unfold bind, store, modify, ret.
    match goal with |- context [FlagSet_Var ?a ?b ?c ?d ?e ?f] =>
      destruct (FlagSet_Var a b c d e f) as [[[]| |] st2] end; discriminate.
  - intros Hdef. rewrite Heq. unfold bind, store, modify, ret.
    rewrite FlagSet_Var_definable by exact Hdef.
    eexists. split; [reflexivity|]. cbn. split.
    + apply lookup_insert_eq.
    + by rewrite lookup_insert_eq.
  - intros Ht. rewrite Ht in Hz. by injection Hz as <-.
  - intros Ht. rewrite Ht in Hz. by injection Hz as <-.
  - vm_compute. repeat split; discriminate.
Qed.

Lemma C2_witness :
  zero_value spec_Extern (Type_ {| Name := "Port"; Type_ := T_int; Tag := [] |}) = Some (V_int 0)
  /\ ValueType_of (Type_ {| Name := "Port"; Type_ := T_int; Tag := [] |}) = Some intValue
  /\ fst (selected_text (cool ContinueOnError no_env) st0
            {| Name := "Port"; Type_ := T_int; Tag := [] |} "COOL_PORT") = ""
  /\ exists st',
       resolve spec_Extern (cool ContinueOnError no_env)
         {| Name := "Port"; Type_ := T_int; Tag := [] |} [0%nat] "port" "COOL_PORT"
         "port (env COOL_PORT)" st0 = (Returns None, st')
       /\ mem st' !! [0%nat] = Some (V_int 0)
       /\ Flag_Value <$> (formal st' !! "port") = Some (intValue, [0%nat]).
Proof.
  pose proof (C2_empty_text_is_zero_value spec_Extern (cool ContinueOnError no_env)
                {| Name := "Port"; Type_ := T_int; Tag := [] |} [0%nat] "port" "COOL_PORT"
                "port (env COOL_PORT)" (V_int 0) intValue st0 eq_refl eq_refl eq_refl)
    as (_ & _ & Hdef & _).
  repeat split. exact (Hdef eq_refl).
Defined.

(** ** C10 *)

(** C10. For a field of type [StringSlice] and any source text, from the
    environment or the declared default, resolution returns no error:
    whatever error [StringSlice.Set] reports is dropped, the field is
    assigned what [Set] left in a fresh slice (the empty list for the
    empty text, where [Set] is not called), and the flag is defined. *)
Theorem C10_string_slice_never_fails X cl nm tag p fn en us st :
  let field := {| Name := nm; Type_ := T_StringSlice; Tag := tag |} in
  let text := fst (selected_text cl st field en) in
  let parsed := if String.eqb text "" then [] else fst (StringSlice_Set X [] text) in
  resolve X cl field p fn en us st
    = (do_ modify (log_lookup X en);
       do_ store p (V_StringSlice parsed);
       do_ FlagSet_Var X cl (StringSlice_Value, p) fn us;
       ret None) st
  /\ (forall err, fst (resolve X cl field p fn en us st) <> Returns (Some err))
  /\ (definable st fn = true ->
      exists st', resolve X cl field p fn en us st = (Returns None, st')
                  /\ mem st' !! p = Some (V_StringSlice parsed)).
Proof.
  intros field text parsed.
  assert (Heq : resolve X cl field p fn en us st
    = (do_ modify (log_lookup X en); do_ store p (V_StringSlice parsed);
       do_ FlagSet_Var X cl (StringSlice_Value, p) fn us; ret None) st).
  { rewrite resolve_spec. cbv zeta.
    change (selected_text cl (log_lookup X en st) field en) with (selected_text cl st field en).
    subst parsed text.
    destruct (selected_text cl st field en) as [text phase]. cbn [fst].
    cbn [Kind_of Type_ field parseValue]. unfold parseStringSlice.
    destruct (String.eqb text "").
    - unfold bind, store, modify, ret.
      match goal with |- context [FlagSet_Var ?a ?b ?c ?d ?e ?f] =>
        destruct (FlagSet_Var a b c d e f) as [[[]| |] st2] end; reflexivity.
    - destruct (StringSlice_Set X [] text) as [ss e]. cbn [fst].
      unfold bind, store, modify, ret.
      match goal with |- context [FlagSet_Var ?a ?b ?c ?d ?e ?f] =>
        destruct (FlagSet_Var a b c d e f) as [[[]| |] st2] end; reflexivity. }
  split; [exact Heq|]. split.
  - intros err. rewrite Heq. unfold bind, store, modify, ret.
    match goal with |- context [FlagSet_Var ?a ?b ?c ?d ?e ?f] =>
      destruct (FlagSet_Var a b c d e f) as [[[]| |] st2] end; discriminate.
  - intros Hdef. rewrite Heq. unfold bind, store, modify, ret.
    rewrite FlagSet_Var_definable by exact Hdef.
    eexists. split; [reflexivity|]. cbn. apply lookup_insert_eq.
Qed.

(** ** The parsers against [coerce] *)

Ltac case_Var :=
  match goal with |- context [FlagSet_Var ?a ?b ?c ?d ?e ?f] =>
    destruct (FlagSet_Var a b c d e f) as [[[]| |] ?] end.

(** For the twelve bound types [parseValue] converts the text with
    [coerce]; on success it assigns the value and defines the flag, on
    failure it returns the error and changes nothing. *)
Lemma parseValue_coerce X cl t vt p fn text us st :
  ValueType_of t = Some vt ->
  exists r, coerce X t text = Some r /\
  parseValue X cl (Kind_of t) (p, t) fn text us st =
    match r with
    | inl v => (do_ store p v; do_ FlagSet_Var X cl (vt, p) fn us; ret None) st
    | inr err => (Returns (Some err), st)
    end.
Proof.
  intros Hv. unfold coerce.
  destruct (String.eqb text "") eqn:Etext.
  - apply String.eqb_eq in Etext. subst text.
    destruct (zero_value X t) as [z|] eqn:Hz.
    + exists (inl z). split; [done|]. by apply parseValue_empty.
    + destruct t; discriminate.
  - destruct t; cbn in Hv; try discriminate; injection Hv as <-;
      eexists; (split; [reflexivity|]);
      cbn [Kind_of parseValue];
      unfold parseBool, parseUint, parseUint64, parseInt, parseInt64, parseFloat64,
        parseDuration, parseURL, parseTime, parseStringSlice, parseIntSlice,
        parsed_with, set_with;
      rewrite ?Etext.
    + destruct (strconv.ParseBool text) as [v [e|]]; [done|].
      unfold BoolVar, bind, store, modify, ret. case_Var; done.
    + unfold StringVar, bind, store, modify, ret. case_Var; done.
    + destruct (strconv.ParseUint text 10 32) as [v [e|]]; [done|].
      unfold UintVar, bind, store, modify, ret. case_Var; done.
    + destruct (strconv.ParseUint text 10 64) as [v [e|]]; [done|].
      unfold Uint64Var, bind, store, modify, ret. case_Var; done.
    + destruct (strconv.Atoi text) as [v [e|]]; [done|].
      unfold IntVar, bind, store, modify, ret. case_Var; done.
    + destruct (strconv.ParseInt text 10 64) as [v [e|]]; [done|].
      unfold Int64Var, bind, store, modify, ret. case_Var; done.
    + destruct (ParseFloat X text 64) as [v [e|]]; [done|].
      unfold Float64Var, bind, store, modify, ret. case_Var; done.
    + destruct (Duration_ParseDuration X text) as [v [e|]]; [done|].
      unfold DurationVar, bind, store, modify, ret. case_Var; done.
    + destruct (URL_Set X (URL_zero X) text) as [v [e|]]; [done|].
      unfold bind, store, modify, ret. case_Var; done.
    + destruct (Time_Set X (Time_zero X) text) as [v [e|]]; [done|].
      unfold bind, store, modify, ret. case_Var; done.
    + destruct (StringSlice_Set X [] text) as [v e]. cbn [fst].
      unfold bind, store, modify, ret. case_Var; done.
    + destruct (IntSlice_Set X [] text) as [v [e|]]; [done|].
      unfold bind, store, modify, ret. case_Var; done.
Qed.

(** A type outside the twelve, of a kind without a forced type
    assertion, is reported as unsupported. *)
Lemma parseValue_unsupported X cl k p fn text us st :
  in_dispatch_table k = false ->
  parseValue X cl (Kind_of (T_other k)) (p, T_other k) fn text us st
  = (Returns (Some (Errorf_w_v "parsing value: %w: %v" ErrUnsupportedType k)), st).
Proof. intros Hk. destruct k; try discriminate; reflexivity. Qed.

(** ** The walk is the resolution of its terminals in order *)

Lemma FlagSet_Var_help X cl v nm us (st : State X) :
  help (snd (FlagSet_Var X cl v nm us st)) = help st.
Proof.
  unfold FlagSet_Var.
  destruct (String.prefix "-" nm); [done|].
  destruct (contains_byte "="%char nm); [done|].
  destruct (formal st !! nm); [|done].
  destruct (String.eqb (name cl) ""); done.
Qed.

Lemma parseValue_help X cl t p fn text us st :
  help (snd (parseValue X cl (Kind_of t) (p, t) fn text us st)) = help st.
Proof.
  destruct (ValueType_of t) as [vt|] eqn:Hv.
  - destruct (parseValue_coerce X cl t vt p fn text us st Hv) as (r & _ & ->).
    destruct r as [v|e]; [|done].
    unfold bind, store, modify, ret.
    pose proof (FlagSet_Var_help X cl (vt, p) fn us
                  (set_mem X (<[p:=v]> (mem st)) st)) as H.
    case_Var; exact H.
  - destruct t; try discriminate.
    + reflexivity.
    + destruct k; reflexivity.
Qed.

Lemma resolve_help X cl field p fn en us st :
  help (snd (resolve X cl field p fn en us st)) = help st.
Proof.
  rewrite resolve_spec. cbv zeta.
  destruct (selected_text cl (log_lookup X en st) field en) as [text phase].
  pose proof (parseValue_help X cl (Type_ field) p fn text us (log_lookup X en st)) as H.
  destruct (parseValue X cl (Kind_of (Type_ field)) (p, Type_ field) fn text us
              (log_lookup X en st)) as [[[e|]| |] st2]; exact H.
Qed.

Lemma resolve_all_help X cl ts st :
  help (snd (resolve_all X cl ts st)) = help st.
Proof.
  revert st. induction ts as [|t ts IH]; intros st; [done|].
  cbn [resolve_all]. unfold bind.
  pose proof (resolve_help X cl (t_field t) (t_path t) (t_flagName t) (t_envVarName cl t)
                (t_usage cl t) st) as H.
  unfold resolve_terminal.
  destruct (resolve X cl (t_field t) (t_path t) (t_flagName t) (t_envVarName cl t)
              (t_usage cl t) st) as [[[e|]| |] st2]; cbn in H |- *; try exact H.
  rewrite IH. exact H.
Qed.

Lemma resolve_all_app X cl ts1 ts2 st :
  resolve_all X cl (ts1 ++ ts2) st
  = (do err <- resolve_all X cl ts1;
     match err with
     | Some err => ret (Some err)
     | None => resolve_all X cl ts2
     end) st.
Proof.
  revert st. induction ts1 as [|t ts1 IH]; intros st; [done|].
  cbn [resolve_all app]. unfold bind.
  destruct (resolve_terminal X cl t st) as [[[e|]| |] st2]; try reflexivity.
  rewrite IH. reflexivity.
Qed.

Lemma parseHelp_idempotent X flags (st : State X) :
  (existsb is_help_token flags = true -> help st = true) ->
  parseHelp X flags st = (Returns tt, st).
Proof.
  intros H. rewrite parseHelp_spec. destruct (existsb is_help_token flags); [|done].
  f_equal. destruct st as [f h m pr lk]. cbn in H. rewrite H by done. reflexivity.
Qed.

Lemma subParse_fields_flat X cl flags fs :
  forall i v prefix st,
  (existsb is_help_token flags = true -> help st = true) ->
  subParse_fields X cl fs i v flags prefix st
  = resolve_all X cl (terminals fs i v prefix) st.
Proof.
  induction fs as [ | | | | | | | | | | | | sub IHsub | k | | nm type IHtype tag rest IHrest]
    using Fields_mut
    with (P := fun t => match t with
                        | T_struct sub => forall i v prefix st,
                            (existsb is_help_token flags = true -> help st = true) ->
                            subParse_fields X cl sub i v flags prefix st
                            = resolve_all X cl (terminals sub i v prefix) st
                        | _ => True
                        end);
    try exact I; try done.
  intros i v prefix st Hinv.
  assert (Hterm : forall s0 : State X,
    (existsb is_help_token flags = true -> help s0 = true) ->
    (do err <- resolve X cl {| Name := nm; Type_ := type; Tag := tag |} (v ++ [i])%list
                 (flagName {| Name := nm; Type_ := type; Tag := tag |} prefix)
                 (envVarName (name cl) {| Name := nm; Type_ := type; Tag := tag |} prefix)
                 (usage {| Name := nm; Type_ := type; Tag := tag |}
                    (envVarName (name cl) {| Name := nm; Type_ := type; Tag := tag |} prefix) prefix);
     match err with
     | Some err => ret (Some err)
     | None => subParse_fields X cl rest (S i) v flags prefix
     end) s0
    = resolve_all X cl
        ({| t_field := {| Name := nm; Type_ := type; Tag := tag |};
            t_path := (v ++ [i])%list; t_prefix := prefix |}
         :: terminals rest (S i) v prefix) s0).
  { intros s0 H0. cbn [resolve_all]. unfold resolve_terminal, bind. cbn [t_field t_path t_prefix].
    unfold t_flagName, t_envVarName, t_usage, t_envVarName. cbn [t_field t_path t_prefix].
    match goal with |- context [resolve ?a ?b ?c ?d ?e ?f ?g ?h] =>
      pose proof (resolve_help a b c d e f g h) as Hh;
      destruct (resolve a b c d e f g h) as [[[e'|]| |] st2] end; try reflexivity.
    apply IHrest. cbn in Hh. rewrite Hh. exact H0. }
  destruct type; cbn [subParse_fields terminals]; try (apply Hterm; exact Hinv).
  - (* a nested struct *)
    rewrite resolve_all_app. unfold bind at 1 2.
    rewrite (parseHelp_idempotent X flags st Hinv).
    rewrite (IHtype 0%nat _ _ st Hinv).
    pose proof (resolve_all_help X cl
                  (terminals fields 0 (v ++ [i])%list
                     (newPrefix {| Name := nm; Type_ := T_struct fields; Tag := tag |} prefix)) st)
      as Hh.
    unfold bind.
    destruct (resolve_all X cl _ st) as [[[e'|]| |] st2]; try reflexivity.
    apply IHrest. cbn in Hh. rewrite Hh. exact Hinv.
  - (* any other type *)
    destruct k; try (apply Hterm; exact Hinv).
    unfold bind. rewrite (parseHelp_idempotent X flags st Hinv). cbn.
    apply IHrest. exact Hinv.
Qed.

Lemma subParse_flat X cl fs root flags prefix st :
  subParse X cl (PointerToStruct fs (Some root)) flags prefix st
  = resolve_all X cl (terminals fs 0 root prefix) (after_help flags st).
Proof.
  unfold subParse, bind. rewrite parseHelp_spec. cbn [v_Kind_is_Ptr t_Elem_Kind_is_Struct negb orb].
  apply subParse_fields_flat. unfold after_help.
  intros ->. reflexivity.
Qed.

Lemma coerce_supported X t text r :
  coerce X t text = Some r -> exists vt, ValueType_of t = Some vt.
Proof.
  unfold coerce. destruct t; cbn; eauto.
  - destruct (String.eqb text ""); discriminate.
  - destruct (String.eqb text ""); discriminate.
Qed.

(** One terminal: the lookup is logged, the selected text converted; a
    value is assigned and bound to the flag, an error is returned with
    the field's name and the phase. *)
Lemma resolve_terminal_coerce X cl t vt st r :
  ValueType_of (t_type t) = Some vt ->
  coerce X (t_type t) (fst (t_selected cl st t)) = Some r ->
  resolve_terminal X cl t st =
    match r with
    | inl v =>
        (do_ store (t_path t) v;
         do_ FlagSet_Var X cl (vt, t_path t) (t_flagName t) (t_usage cl t);
         ret None) (log_lookup X (t_envVarName cl t) st)
    | inr err =>
        (Returns (Some (Errorf_s_w ("%s " ++ snd (t_selected cl st t) ++ ": %w")
                          (Name (t_field t)) err)),
         log_lookup X (t_envVarName cl t) st)
    end.
Proof.
  intros Hv Hc. unfold resolve_terminal. rewrite resolve_spec. cbv zeta.
  change (selected_text cl (log_lookup X (t_envVarName cl t) st) (t_field t) (t_envVarName cl t))
    with (t_selected cl st t).
  destruct (t_selected cl st t) as [text phase]. cbn [fst snd] in *.
  destruct (parseValue_coerce X cl (t_type t) vt (t_path t) (t_flagName t) text (t_usage cl t)
              (log_lookup X (t_envVarName cl t) st) Hv) as (r' & Hc' & Hp).
  unfold t_type in *. rewrite Hc in Hc'. injection Hc' as <-. rewrite Hp.
  destruct r as [v|e]; [|reflexivity].
  unfold bind, store, modify, ret. case_Var; reflexivity.
Qed.



(** ** C7 *)




(** ** Successful resolution *)

Lemma resolve_terminal_success X cl t st st' :
  resolve_terminal X cl t st = (Returns None, st') ->
  exists vt v,
    ValueType_of (t_type t) = Some vt
    /\ coerce X (t_type t) (fst (t_selected cl st t)) = Some (inl v)
    /\ definable st (t_flagName t) = true
    /\ st' = resolved cl t vt v st.
Proof.
  intros H.
  destruct (ValueType_of (t_type t)) as [vt|] eqn:Hv.
  - destruct (parseValue_coerce X cl (t_type t) vt (t_path t) (t_flagName t)
                (fst (t_selected cl st t)) (t_usage cl t) st Hv) as (r & Hc & _).
    rewrite (resolve_terminal_coerce X cl t vt st r Hv Hc) in H.
    destruct r as [v|e]; [|discriminate].
    exists vt, v. split; [done|]. split; [done|].
    unfold bind, store, modify, ret in H.
    destruct (definable st (t_flagName t)) eqn:Hd.
    + split; [done|].
      rewrite FlagSet_Var_definable in H by exact Hd.
      injection H as <-. reflexivity.
    + exfalso.
      destruct (FlagSet_Var_not_definable X cl (vt, t_path t) (t_flagName t) (t_usage cl t)
                  (set_mem X (<[t_path t:=v]> (mem (log_lookup X (t_envVarName cl t) st)))
                     (log_lookup X (t_envVarName cl t) st)) Hd) as (pv & st2 & E).
      rewrite E in H. discriminate.
  - exfalso. unfold resolve_terminal in H. rewrite resolve_spec in H. cbv zeta in H.
    revert H.
    destruct (selected_text cl (log_lookup X (t_envVarName cl t) st) (t_field t)
                (t_envVarName cl t)) as [text phase].
    unfold t_type in Hv.
    destruct (Type_ (t_field t)) as [ | | | | | | | | | | | | sub | k]; try discriminate.
    destruct k; cbn; discriminate.
Qed.

Lemma t_selected_help X cl (st st' : State X) t :
  help st' = help st -> t_selected cl st' t = t_selected cl st t.
Proof. unfold t_selected, selected_text. by intros ->. Qed.

(** After the terminals [ts] are resolved, each holds the conversion of
    its source text and is bound to its flag; the rest of the memory is
    as before. *)
Lemma resolve_all_success X cl ts : forall st st',
  resolve_all X cl ts st = (Returns None, st') ->
  NoDup (map t_path ts) ->
  help st' = help st
  /\ printed st' = printed st
  /\ lookups st' = (lookups st ++ map (t_envVarName cl) ts)%list
  /\ (forall p, p ∉ map t_path ts -> mem st' !! p = mem st !! p)
  /\ (forall nm, nm ∉ map t_flagName ts -> formal st' !! nm = formal st !! nm)
  /\ NoDup (map t_flagName ts)
  /\ (forall t, t ∈ ts -> formal st !! t_flagName t = None)
  /\ (forall t, t ∈ ts ->
        exists vt v,
          ValueType_of (t_type t) = Some vt
          /\ coerce X (t_type t) (fst (t_selected cl st t)) = Some (inl v)
          /\ mem st' !! t_path t = Some v
          /\ formal st' !! t_flagName t = Some (t_flag cl vt t)).
Proof.
  induction ts as [|t ts IH]; intros st st' H Hnd.
  - injection H as <-. rewrite app_nil_r.
    repeat split; try done; try constructor. all: intros t Ht; by apply elem_of_nil in Ht.
  - cbn [resolve_all] in H. unfold bind in H.
    destruct (resolve_terminal X cl t st) as [[[e|]| |] st1] eqn:Ht; try discriminate.
    destruct (resolve_terminal_success X cl t st st1 Ht) as (vt & v & Hv & Hc & Hd & ->).
    cbn [map] in Hnd. apply NoDup_cons in Hnd as [Hnot Hnd].
    destruct (IH _ _ H Hnd) as (Hh & Hpr & Hlk & Hmem & Hform & Hndf & Hfresh & Hall).
    cbn in Hh, Hpr, Hlk.
    assert (Hnew : t_flagName t ∉ map t_flagName ts).
    { intros Hin. apply list_elem_of_fmap in Hin as (t2 & E & Hin).
      specialize (Hfresh t2 Hin). rewrite <- E in Hfresh. cbn in Hfresh.
      by rewrite lookup_insert_eq in Hfresh. }
    assert (Hdf : formal st !! t_flagName t = None).
    { unfold definable in Hd. apply andb_true_iff in Hd as [_ Hd].
      by apply bool_decide_eq_true in Hd. }
    split; [done|]. split; [done|]. split.
    { rewrite Hlk. cbn [map]. by rewrite <- app_assoc. }
    split; [|split; [|split; [|split]]].
    + intros p Hp. cbn [map] in Hp. apply not_elem_of_cons in Hp as [Hne Hp].
      rewrite (Hmem p Hp). cbn. by rewrite lookup_insert_ne.
    + intros nm Hnm. cbn [map] in Hnm. apply not_elem_of_cons in Hnm as [Hne Hnm].
      rewrite (Hform nm Hnm). cbn. by rewrite lookup_insert_ne.
    + cbn [map]. apply NoDup_cons. done.
    + intros t2 Ht2. apply elem_of_cons in Ht2 as [->|Ht2]; [done|].
      specialize (Hfresh t2 Ht2). cbn in Hfresh.
      destruct (decide (t_flagName t = t_flagName t2)) as [E|Hne].
      * rewrite E, lookup_insert_eq in Hfresh. discriminate.
      * by rewrite lookup_insert_ne in Hfresh.
    + intros t2 Ht2. apply elem_of_cons in Ht2 as [->|Ht2].
      * exists vt, v. split; [done|]. split; [done|]. split.
        -- rewrite (Hmem _ Hnot). cbn. apply lookup_insert_eq.
        -- rewrite (Hform _ Hnew). cbn. apply lookup_insert_eq.
      * destruct (Hall t2 Ht2) as (vt2 & v2 & Hv2 & Hc2 & Hm2 & Hf2).
        exists vt2, v2. split; [done|]. split; [|done].
        exact Hc2.
Qed.

(** ** The pointers of the terminals are pairwise distinct *)

Lemma terminals_paths fs :
  forall i v prefix t, t ∈ terminals fs i v prefix ->
  exists j rest, (i <= j)%nat /\ t_path t = (v ++ j :: rest)%list.
Proof.
  induction fs as [ | | | | | | | | | | | | sub IHsub | k | | nm type IHtype tag rest IHrest]
    using Fields_mut
    with (P := fun ty => match ty with
                         | T_struct sub => forall i v prefix t, t ∈ terminals sub i v prefix ->
                             exists j rest, (i <= j)%nat /\ t_path t = (v ++ j :: rest)%list
                         | _ => True
                         end);
    try exact I; try done.
  - intros i v prefix t Ht. by apply elem_of_nil in Ht.
  - intros i v prefix t Ht.
    assert (Hrest : t ∈ terminals rest (S i) v prefix ->
                    exists j r, (i <= j)%nat /\ t_path t = (v ++ j :: r)%list).
    { intros H. destruct (IHrest _ _ _ _ H) as (j & r & Hj & E). exists j, r. split; [lia|done]. }
    assert (Hhead : forall ty, t ∈ {| t_field := {| Name := nm; Type_ := ty; Tag := tag |};
                                       t_path := (v ++ [i])%list; t_prefix := prefix |}
                                    :: terminals rest (S i) v prefix ->
                    exists j r, (i <= j)%nat /\ t_path t = (v ++ j :: r)%list).
    { intros ty H. apply elem_of_cons in H as [->|H]; [|by apply Hrest].
      exists i, []. split; [lia|done]. }
    destruct type; cbn [terminals] in Ht; try (by eapply Hhead).
    + apply elem_of_app in Ht as [Ht|Ht]; [|by apply Hrest].
      destruct (IHtype _ _ _ _ Ht) as (j & r & _ & E).
      exists i, (j :: r). split; [lia|]. rewrite E, <- app_assoc. done.
    + destruct k; try (by eapply Hhead). by apply Hrest.
Qed.

Lemma terminals_NoDup fs :
  forall i v prefix, NoDup (map t_path (terminals fs i v prefix)).
Proof.
  induction fs as [ | | | | | | | | | | | | sub IHsub | k | | nm type IHtype tag rest IHrest]
    using Fields_mut
    with (P := fun ty => match ty with
                         | T_struct sub => forall i v prefix,
                             NoDup (map t_path (terminals sub i v prefix))
                         | _ => True
                         end);
    try exact I; try done.
  - intros. constructor.
  - intros i v prefix.
    assert (Hfar : forall p r, p ∈ map t_path (terminals rest (S i) v prefix) ->
                   p <> (v ++ i :: r)%list).
    { intros p r Hp E. apply list_elem_of_fmap in Hp as (t & -> & Ht).
      destruct (terminals_paths rest _ _ _ _ Ht) as (j & r' & Hj & E').
      rewrite E' in E. apply app_inv_head in E. injection E as E _. lia. }
    assert (Hhead : forall ty,
      NoDup (map t_path ({| t_field := {| Name := nm; Type_ := ty; Tag := tag |};
                            t_path := (v ++ [i])%list; t_prefix := prefix |}
                         :: terminals rest (S i) v prefix))).
    { intros ty. cbn [map t_path]. apply NoDup_cons. split; [|apply IHrest].
      intros Hin. by apply (Hfar _ [] Hin). }
    destruct type; cbn [terminals]; try apply Hhead.
    + rewrite map_app. apply NoDup_app. split; [apply IHtype|]. split; [|apply IHrest].
      intros p Hp Hp'. apply list_elem_of_fmap in Hp as (t & -> & Ht).
      destruct (terminals_paths fields _ _ _ _ Ht) as (j & r & _ & E).
      apply (Hfar _ (j :: r) Hp'). rewrite E, <- app_assoc. done.
    + destruct k; try apply Hhead. apply IHrest.
Qed.

(** ** C5 *)

(** C5. Let a terminal field of a type no parser is bound to, of a kind
    outside the dispatch table (a map, say), be reached by the walk (the
    fields before it resolve).  Then the walk fails there with an error
    that wraps [ErrUnsupportedType] and names the kind, [parse] passes it
    to [exit] (continue mode returns it), and every terminal visited
    before holds the value converted from its source text: nothing is
    rolled back. *)
Theorem C5_unsupported_type X cl fs root flags st pre t post st1 k :
  terminals fs 0 root "" = (pre ++ t :: post)%list ->
  t_type t = T_other k ->
  in_dispatch_table k = false ->
  resolve_all X cl pre (after_help flags st) = (Returns None, st1) ->
  let phase := snd (t_selected cl st1 t) in
  let err := Errorf_s_w ("%s " ++ phase ++ ": %w") (Name (t_field t))
               (Errorf_w_v "parsing value: %w: %v" ErrUnsupportedType k) in
  let st2 := log_lookup X (t_envVarName cl t) st1 in
    (phase = "env" \/ phase = "def")
    /\ subParse X cl (PointerToStruct fs (Some root)) flags "" st = (Returns (Some err), st2)
    /\ errors_Is_ErrUnsupportedType err = true
    /\ parse X cl (PointerToStruct fs (Some root)) flags st = exit X cl (Some err) st2
    /\ (errorHandling cl = ContinueOnError ->
        parse X cl (PointerToStruct fs (Some root)) flags st = (Returns (Some err), st2))
    /\ (forall t', t' ∈ pre ->
        exists v, coerce X (t_type t') (fst (t_selected cl (after_help flags st) t')) = Some (inl v)
                  /\ mem st2 !! t_path t' = Some v).
Proof.
  intros Hts Hty Hk Hpre. cbv zeta.
  assert (Hsub : subParse X cl (PointerToStruct fs (Some root)) flags "" st
    = (Returns (Some (Errorf_s_w ("%s " ++ snd (t_selected cl st1 t) ++ ": %w") (Name (t_field t))
                        (Errorf_w_v "parsing value: %w: %v" ErrUnsupportedType k))),
       log_lookup X (t_envVarName cl t) st1)).
  { rewrite subParse_flat, Hts, resolve_all_app. unfold bind at 1. rewrite Hpre.
    cbn [resolve_all]. unfold bind, resolve_terminal. rewrite resolve_spec. cbv zeta.
    change (selected_text cl (log_lookup X (t_envVarName cl t) st1) (t_field t)
              (t_envVarName cl t)) with (t_selected cl st1 t).
    destruct (t_selected cl st1 t) as [text phase]. cbn [snd].
    unfold t_type in Hty. rewrite Hty, parseValue_unsupported by exact Hk. reflexivity. }
  split; [|split; [exact Hsub|split; [reflexivity|split; [|split]]]].
  - unfold t_selected, selected_text.
    destruct (lookupEnvFunc cl (t_envVarName cl t)); [destruct (help st1)|]; cbn; auto.
  - unfold parse, bind. rewrite Hsub. reflexivity.
  - intros Hmode. unfold parse, bind. rewrite Hsub. unfold exit. rewrite Hmode. reflexivity.
  - intros t' Ht'.
    assert (Hnd : NoDup (map t_path pre)).
    { pose proof (terminals_NoDup fs 0 root "") as H. rewrite Hts, map_app in H.
      by apply NoDup_app in H as (H & _ & _). }
    destruct (resolve_all_success X cl pre _ _ Hpre Hnd) as (_ & _ & _ & _ & _ & _ & _ & Hall).
    destruct (Hall t' Ht') as (vt & v & _ & Hc & Hm & _).
    exists v. split; [exact Hc|exact Hm].
Qed.

Lemma C5_witness :
  terminals map_config 0 [] "" = ([term_Port] ++ term_Tags :: [])%list
  /\ t_type term_Tags = T_other Map
  /\ in_dispatch_table Map = false
  /\ resolve_all spec_Extern (cool ContinueOnError no_env) [term_Port] (after_help [] st0)
     = (Returns None, st_after_Port)
  /\ fst (parse spec_Extern (cool ContinueOnError no_env)
            (PointerToStruct map_config (Some [])) [] st0)
     = Returns (Some (Errorf_s_w "%s def: %w" "Tags"
                        (Errorf_w_v "parsing value: %w: %v" ErrUnsupportedType Map)))
  /\ mem (snd (parse spec_Extern (cool ContinueOnError no_env)
                 (PointerToStruct map_config (Some [])) [] st0)) !! [0%nat]
     = Some (V_int 3000).
Proof.
  assert (H1 : terminals map_config 0 [] "" = ([term_Port] ++ term_Tags :: [])%list)
    by reflexivity.
  assert (H2 : t_type term_Tags = T_other Map) by reflexivity.
  assert (H3 : in_dispatch_table Map = false) by reflexivity.
  assert (H4 : resolve_all spec_Extern (cool ContinueOnError no_env) [term_Port]
                 (after_help [] st0) = (Returns None, st_after_Port)).
  { assert (Hfst : fst (resolve_all spec_Extern (cool ContinueOnError no_env) [term_Port] st0)
                   = Returns None) by (vm_compute; reflexivity).
    unfold st_after_Port. change (after_help [] st0) with st0.
    destruct (resolve_all spec_Extern (cool ContinueOnError no_env) [term_Port] st0) as [o s].
    cbn [fst snd] in *. by subst o. }
  destruct (C5_unsupported_type spec_Extern (cool ContinueOnError no_env) map_config [] [] st0
              [term_Port] term_Tags [] st_after_Port Map H1 H2 H3 H4)
    as (_ & _ & _ & _ & Hcont & _).
  split; [exact H1|]. split; [exact H2|]. split; [exact H3|]. split; [exact H4|].
  pose proof (Hcont eq_refl) as E. unfold Path in E. rewrite E. cbn [fst snd].
  split; [vm_compute; reflexivity|]. apply value_is_int. vm_compute. reflexivity.
Defined.

(** ** Help mode *)

Lemma resolve_terminal_help_env X env cl t st :
  help st = true ->
  resolve_terminal X (with_env env cl) t st = resolve_terminal X cl t st.
Proof.
  intros Hh. unfold resolve_terminal, resolve, bind, modify. cbn [help log_lookup].
  rewrite Hh. cbn [negb].
  change (t_envVarName (with_env env cl) t) with (t_envVarName cl t).
  destruct (lookupEnvFunc (with_env env cl) (t_envVarName cl t));
    destruct (lookupEnvFunc cl (t_envVarName cl t)); reflexivity.
Qed.

Lemma resolve_all_help_env X env cl ts : forall st,
  help st = true ->
  resolve_all X (with_env env cl) ts st = resolve_all X cl ts st.
Proof.
  induction ts as [|t ts IH]; intros st Hh; [reflexivity|].
  cbn [resolve_all]. unfold bind.
  rewrite (resolve_terminal_help_env X env cl t st Hh).
  pose proof (resolve_help X cl (t_field t) (t_path t) (t_flagName t) (t_envVarName cl t)
                (t_usage cl t) st) as Hh'.
  fold (resolve_terminal X cl t) in Hh'.
  destruct (resolve_terminal X cl t st) as [[[e|]| |] st2]; try reflexivity.
  apply IH. cbn in Hh'. by rewrite Hh'.
Qed.

Lemma subParse_help_env X env cl config flags prefix st :
  existsb is_help_token flags = true ->
  subParse X (with_env env cl) config flags prefix st = subParse X cl config flags prefix st.
Proof.
  intros Hh. destruct config as [ | | fs [root|]]; try reflexivity.
  rewrite !subParse_flat. apply resolve_all_help_env.
  unfold after_help. rewrite Hh. reflexivity.
Qed.

Lemma is_help_token_cases tok :
  is_help_token tok = true ->
  tok = "--help" \/ tok = "-help" \/ tok = "--h" \/ tok = "-h".
Proof.
  unfold is_help_token. intros H.
  repeat (apply orb_true_iff in H as [H|H]);
    apply String.eqb_eq in H; auto.
Qed.

(** A help token in first position, when no flag is called [help] or
    [h]: the flag set prints its usage and reports [flag.ErrHelp]. *)
Lemma FlagSet_Parse_help_first X tok rest (st : State X) :
  is_help_token tok = true ->
  formal st !! "help" = None -> formal st !! "h" = None ->
  FlagSet_Parse X (tok :: rest) st
  = (Returns (Some flag_ErrHelp), print X flagSet_output Usage st).
Proof.
  intros Htok Hhelp Hh.
  destruct (is_help_token_cases tok Htok) as [E|[E|[E|E]]]; subst tok;
    cbn; rewrite ?Hhelp, ?Hh; reflexivity.
Qed.

(** ** C3 *)

(** C3, as stated, fails twice.  With a help token in the arguments the
    environment is still looked up for every terminal field (only the
    result is set aside); and resolution in continue mode can still
    return an error, here that of a default that does not parse. *)
Lemma C3_counterexample :
  lookups (snd (parse spec_Extern (cool ContinueOnError env_COOL_PORT_8080) port_ptr
                  ["--help"] st0)) = ["COOL_PORT"]
  /\ fst (parse spec_Extern (cool ContinueOnError no_env)
            (PointerToStruct bad_default_config (Some [])) ["--help"] st0)
     = Returns (Some (Errorf_s_w "%s def: %w" "B" err_maybe)).
Proof. split; vm_compute; reflexivity. Qed.

(** C3, amended.  With a help token in the arguments the outcome of
    resolution, and the state it leaves, do not depend on the
    environment-lookup function: the function is called once per terminal
    field, with the derived name, and its result is set aside, every
    terminal being resolved from its declared default.  In continue mode
    no error is returned when the walk succeeds and the final parse ends
    without error or with the help request, which is what a leading help
    token yields when no flag is named [help] or [h]. *)
Theorem C3_help_ignores_environment X cl env config flags st :
  existsb is_help_token flags = true ->
  parse X (with_env env cl) config flags st = parse X cl config flags st
  /\ (forall fs root st1,
        config = PointerToStruct fs (Some root) ->
        subParse X cl config flags "" st = (Returns None, st1) ->
        lookups st1 = (lookups st ++ map (t_envVarName cl) (terminals fs 0 root ""))%list
        /\ forall t, t ∈ terminals fs 0 root "" ->
             exists v, coerce X (t_type t) (Get (Tag (t_field t)) "def") = Some (inl v)
                       /\ mem st1 !! t_path t = Some v)
  /\ (errorHandling cl = ContinueOnError ->
      forall st1 r st2,
        subParse X cl config flags "" st = (Returns None, st1) ->
        FlagSet_Parse X flags st1 = (Returns r, st2) ->
        r = None \/ r = Some flag_ErrHelp ->
        parse X cl config flags st = (Returns None, st2))
  /\ (forall tok rest st1,
        flags = tok :: rest -> is_help_token tok = true ->
        formal st1 !! "help" = None -> formal st1 !! "h" = None ->
        FlagSet_Parse X flags st1
        = (Returns (Some flag_ErrHelp), print X flagSet_output Usage st1)).
Proof.
  intros Hh. split; [|split; [|split]].
  - unfold parse, bind. rewrite (subParse_help_env X env cl config flags "" st Hh).
    reflexivity.
  - intros fs root st1 -> Hsub. rewrite subParse_flat in Hsub.
    destruct (resolve_all_success X cl _ _ _ Hsub (terminals_NoDup fs 0 root ""))
      as (_ & _ & Hlk & _ & _ & _ & _ & Hall).
    split.
    + rewrite Hlk. unfold after_help. rewrite Hh. reflexivity.
    + intros t Ht. destruct (Hall t Ht) as (vt & v & _ & Hc & Hm & _).
      exists v. split; [|exact Hm].
      revert Hc. unfold t_selected, selected_text, after_help. rewrite Hh. cbn [help set_help negb].
      destruct (lookupEnvFunc cl (t_envVarName cl t)); done.
  - intros Hmode st1 r st2 Hsub Hp Hr. unfold parse, bind. rewrite Hsub, Hp.
    unfold exit. rewrite Hmode. destruct Hr as [E|E]; subst r; reflexivity.
  - intros tok rest st1 -> Htok H1 H2. by apply FlagSet_Parse_help_first.
Qed.

Lemma C3_witness :
  existsb is_help_token ["--help"] = true
  /\ fst (parse spec_Extern (with_env env_COOL_PORT_8080 (cool ContinueOnError no_env)) port_ptr
            ["--help"] st0) = Returns None
  /\ mem (snd (parse spec_Extern (with_env env_COOL_PORT_8080 (cool ContinueOnError no_env))
                 port_ptr ["--help"] st0)) !! [0%nat] = Some (V_int 3000).
Proof.
  assert (H : existsb is_help_token ["--help"] = true) by reflexivity.
  destruct (C3_help_ignores_environment spec_Extern (cool ContinueOnError no_env)
              env_COOL_PORT_8080 port_ptr ["--help"] st0 H) as (Henv & _).
  split; [exact H|]. rewrite Henv.
  split; [vm_compute; reflexivity|]. apply value_is_int. vm_compute. reflexivity.
Defined.

(** ** The final parse of the flag set *)

Lemma Value_Set_spec X vt p s (st : State X) :
  Value_Set X (vt, p) s st
  = (Returns (snd (set_value X vt (mem st !! p) s)),
     set_mem X (<[p := fst (set_value X vt (mem st !! p) s)]> (mem st)) st).
Proof.
  destruct vt; cbn [Value_Set set_value].
  - destruct (strconv.ParseBool s) as [b e]. reflexivity.
  - reflexivity.
  - destruct (strconv.ParseUint s 0 strconv.IntSize) as [b e]. reflexivity.
  - destruct (strconv.ParseUint s 0 64) as [b e]. reflexivity.
  - destruct (strconv.ParseInt s 0 strconv.IntSize) as [b e]. reflexivity.
  - destruct (strconv.ParseInt s 0 64) as [b e]. reflexivity.
  - destruct (ParseFloat X s 64) as [b e]. reflexivity.
  - destruct (Duration_ParseDuration X s) as [b e]. reflexivity.
  - destruct (URL_Set X _ s) as [b e]. reflexivity.
  - destruct (Time_Set X _ s) as [b e]. reflexivity.
  - destruct (StringSlice_Set X _ s) as [b e]. reflexivity.
  - destruct (IntSlice_Set X _ s) as [b e]. reflexivity.
Qed.

(** [Parse], one turn at a time. *)
Lemma FlagSet_Parse_eq X args (st : State X) :
  FlagSet_Parse X args st =
    match parseOne_step (formal st) args with
    | step_stop => (Returns None, st)
    | step_bad format a => failf X format a st
    | step_help => (Returns (Some flag_ErrHelp), print X flagSet_output Usage st)
    | step_set f text format a rest =>
        (do err <- Value_Set X (Flag_Value f) text;
         match err with
         | Some err => failf_v X format a err
         | None => FlagSet_Parse X rest
         end) st
    end.
Proof.
  destruct args as [|s rest]; [reflexivity|].
  cbn [FlagSet_Parse parseOne_step].
  destruct s as [|c0 [|c1 s2]]; try reflexivity.
  destruct (negb (Ascii.eqb c0 "-"%char)); [reflexivity|].
  destruct (Ascii.eqb c1 "-"%char && String.eqb s2 ""); [reflexivity|].
  destruct (if Ascii.eqb c1 "-"%char then s2 else String c1 s2) as [|n0 nm']; [reflexivity|].
  destruct (Ascii.eqb n0 "-"%char || Ascii.eqb n0 "="%char); [reflexivity|].
  destruct (split_flag (String n0 nm')) as [[nm hasValue] val].
  destruct (formal st !! nm) as [flag|].
  - destruct (IsBoolFlag (Flag_Value flag)); [destruct hasValue; reflexivity|].
    destruct hasValue; [reflexivity|]. destruct rest; reflexivity.
  - destruct (String.eqb nm "help" || String.eqb nm "h"); reflexivity.
Qed.

Lemma parseOne_step_set formal args f text format a rest :
  parseOne_step formal args = step_set f text format a rest ->
  (List.length rest < List.length args)%nat /\ exists nm, formal !! nm = Some f.
Proof.
  destruct args as [|s rest0]; [discriminate|].
  cbn [parseOne_step].
  destruct s as [|c0 [|c1 s2]]; try discriminate.
  destruct (negb (Ascii.eqb c0 "-"%char)); [discriminate|].
  destruct (Ascii.eqb c1 "-"%char && String.eqb s2 ""); [discriminate|].
  destruct (if Ascii.eqb c1 "-"%char then s2 else String c1 s2) as [|n0 nm']; [discriminate|].
  destruct (Ascii.eqb n0 "-"%char || Ascii.eqb n0 "="%char); [discriminate|].
  destruct (split_flag (String n0 nm')) as [[nm hasValue] val].
  destruct (formal !! nm) as [flag|] eqn:E.
  - destruct (IsBoolFlag (Flag_Value flag)); [destruct hasValue|destruct hasValue; [|destruct rest0]];
      try discriminate; intros [= <- <- <- <- <-]; (split; [cbn; lia|eauto]).
  - destruct (String.eqb nm "help" || String.eqb nm "h"); discriminate.
Qed.









(** ** C1 *)




Lemma value_is_StringSlice X (o : option (value X)) l :
  match o with Some (V_StringSlice k) => Some k | _ => None end = Some l ->
  o = Some (V_StringSlice l).
Proof. destruct o as [[]|]; try discriminate. by intros [= ->]. Qed.

(** Whether a text of the command line replaces the value the walk gave
    to a field of one of the package's own types is decided by the
    type's [Set], which is not among the sources.  With [COOL_HOSTS=envhost]
    and arguments [-hosts clihost], a [Set] that adds to the receiver
    leaves both in [Hosts], one that replaces it leaves the text of the
    command line alone. *)
Lemma list_field_on_the_command_line_follows_Set :
  fst (parse appending_Extern (cool ContinueOnError env_COOL_HOSTS)
         (PointerToStruct hosts_config (Some [])) ["-hosts"; "clihost"]
         (newState appending_Extern ∅)) = Returns None
  /\ mem (snd (parse appending_Extern (cool ContinueOnError env_COOL_HOSTS)
                 (PointerToStruct hosts_config (Some [])) ["-hosts"; "clihost"]
                 (newState appending_Extern ∅))) !! [0%nat]
     = Some (V_StringSlice ["envhost"; "clihost"])
  /\ mem (snd (parse spec_Extern (cool ContinueOnError env_COOL_HOSTS)
                 (PointerToStruct hosts_config (Some [])) ["-hosts"; "clihost"]
                 (newState spec_Extern ∅))) !! [0%nat]
     = Some (V_StringSlice ["clihost"]).
Proof.
  split; [vm_compute; reflexivity|].
  split; apply value_is_StringSlice; vm_compute; reflexivity.
Qed.

(** * Further properties *)

(** ** Colliding flag names *)

Lemma resolve_all_names_ok X cl ts : forall st st',
  resolve_all X cl ts st = (Returns None, st') ->
  forall t, t ∈ ts ->
  String.prefix "-" (t_flagName t) = false /\ contains_byte "="%char (t_flagName t) = false.
Proof.
  induction ts as [|t0 ts IH]; intros st st' H t Ht; [by apply elem_of_nil in Ht|].
  cbn [resolve_all] in H. unfold bind in H.
  destruct (resolve_terminal X cl t0 st) as [[[e|]| |] st1] eqn:E0; try discriminate.
  apply elem_of_cons in Ht as [->|Ht]; [|by eapply IH].
  destruct (resolve_terminal_success X cl t0 st st1 E0) as (_ & _ & _ & _ & Hd & _).
  unfold definable in Hd. apply andb_true_iff in Hd as [Hd _].
  apply andb_true_iff in Hd as [H1 H2]. by apply negb_true_iff in H1, H2.
Qed.

(** X1. Two terminal fields with the same derived flag name: when the walk
    reaches the second one and its text converts, the variable is
    assigned and then [f.Var] panics with "flag redefined"; the walk does
    not return, and no flag is added. *)
Theorem walk_panics_on_colliding_flag_names X cl fs root flags st pre t post st1 t' v :
  terminals fs 0 root "" = (pre ++ t :: post)%list ->
  resolve_all X cl pre (after_help flags st) = (Returns None, st1) ->
  t' ∈ pre ->
  t_flagName t' = t_flagName t ->
  coerce X (t_type t) (fst (t_selected cl st1 t)) = Some (inl v) ->
  exists st2,
    subParse X cl (PointerToStruct fs (Some root)) flags "" st
      = (Panics (flag_redefined cl (t_flagName t)), st2)
    /\ mem st2 !! t_path t = Some v
    /\ formal st2 = formal st1
    /\ fst (parse X cl (PointerToStruct fs (Some root)) flags st)
       = Panics (flag_redefined cl (t_flagName t)).
Proof.
  intros Hts Hpre Ht' Hname Hc.
  destruct (coerce_supported X _ _ _ Hc) as [vt Hv].
  assert (Hnd : NoDup (map t_path pre)).
  { pose proof (terminals_NoDup fs 0 root "") as H. rewrite Hts, map_app in H.
    by apply NoDup_app in H as (H & _ & _). }
  destruct (resolve_all_success X cl pre _ _ Hpre Hnd) as (_ & _ & _ & _ & _ & _ & _ & Hall).
  destruct (Hall t' Ht') as (vt' & v' & _ & _ & _ & Hf').
  destruct (resolve_all_names_ok X cl pre _ _ Hpre t' Ht') as [Hdash Heq].
  rewrite Hname in Hf', Hdash, Heq.
  assert (Hvar : forall s : State X, formal s = formal st1 ->
    FlagSet_Var X cl (vt, t_path t) (t_flagName t) (t_usage cl t) s
    = (Panics (flag_redefined cl (t_flagName t)),
       print X flagSet_output
         (if String.eqb (name cl) "" then Fprintln "flag redefined: %s" [t_flagName t] None
          else Fprintln "%s flag redefined: %s" [name cl; t_flagName t] None) s)).
  { intros s Hs. unfold FlagSet_Var, flag_redefined. rewrite Hdash, Heq, Hs, Hf'.
    destruct (String.eqb (name cl) ""); reflexivity. }
  assert (Hsub : exists st2, subParse X cl (PointerToStruct fs (Some root)) flags "" st
     = (Panics (flag_redefined cl (t_flagName t)), st2)
     /\ mem st2 !! t_path t = Some v /\ formal st2 = formal st1).
  { eexists. split; [|split].
    - rewrite subParse_flat, Hts, resolve_all_app. unfold bind at 1. rewrite Hpre.
      cbn [resolve_all]. unfold bind at 1.
      rewrite (resolve_terminal_coerce X cl t vt st1 (inl v) Hv Hc).
      unfold bind, store, modify, ret. rewrite Hvar by reflexivity. reflexivity.
    - cbn. apply lookup_insert_eq.
    - reflexivity. }
  destruct Hsub as (st2 & Hsub & Hm & Hf).
  exists st2. split; [exact Hsub|]. split; [exact Hm|].
  split; [exact Hf|]. unfold parse, bind. rewrite Hsub. reflexivity.
Qed.

Lemma coerce_is_inl_string X (r : option (value X + error)) s :
  match r with Some (inl (V_string k)) => Some k | _ => None end = Some s ->
  r = Some (inl (V_string s)).
Proof. destruct r as [[[]|]|]; try discriminate. by intros [= ->]. Qed.

Lemma walk_panics_on_colliding_flag_names_witness :
  terminals collide_config 0 [] "" = ([term_DB_Host] ++ term_DBHost :: [])%list
  /\ resolve_all spec_Extern (cool ContinueOnError no_env) [term_DB_Host] (after_help [] st0)
     = (Returns None, st_after_DB_Host)
  /\ term_DB_Host ∈ [term_DB_Host]
  /\ t_flagName term_DB_Host = t_flagName term_DBHost
  /\ coerce spec_Extern (t_type term_DBHost)
       (fst (t_selected (cool ContinueOnError no_env) st_after_DB_Host term_DBHost))
     = Some (inl (V_string "x"))
  /\ fst (parse spec_Extern (cool ContinueOnError no_env)
            (PointerToStruct collide_config (Some [])) [] st0)
     = Panics (panic_msg "%s flag redefined: %s" ["cool"; "db-host"]).
Proof.
  assert (H1 : terminals collide_config 0 [] "" = ([term_DB_Host] ++ term_DBHost :: [])%list)
    by reflexivity.
  assert (H2 : resolve_all spec_Extern (cool ContinueOnError no_env) [term_DB_Host]
                 (after_help [] st0) = (Returns None, st_after_DB_Host)).
  { assert (Hfst : fst (resolve_all spec_Extern (cool ContinueOnError no_env) [term_DB_Host] st0)
                   = Returns None) by (vm_compute; reflexivity).
    unfold st_after_DB_Host. change (after_help [] st0) with st0.
    destruct (resolve_all spec_Extern (cool ContinueOnError no_env) [term_DB_Host] st0) as [o s].
    cbn [fst snd] in *. by subst o. }
  assert (H3 : term_DB_Host ∈ [term_DB_Host]) by (apply elem_of_cons; left; reflexivity).
  assert (H4 : t_flagName term_DB_Host = t_flagName term_DBHost) by (vm_compute; reflexivity).
  assert (H5 : coerce spec_Extern (t_type term_DBHost)
                 (fst (t_selected (cool ContinueOnError no_env) st_after_DB_Host term_DBHost))
               = Some (inl (V_string "x"))).
  { apply coerce_is_inl_string. vm_compute. reflexivity. }
  destruct (walk_panics_on_colliding_flag_names spec_Extern (cool ContinueOnError no_env)
              collide_config [] [] st0 [term_DB_Host] term_DBHost [] st_after_DB_Host
              term_DB_Host (V_string "x") H1 H2 H3 H4 H5)
    as (st2 & _ & _ & _ & Hp).
  split; [exact H1|]. split; [exact H2|]. split; [exact H3|]. split; [exact H4|].
  split; [exact H5|]. exact Hp.
Defined.

(** ** What a successful walk leaves *)

Lemma after_help_fields X flags (st : State X) :
  formal (after_help flags st) = formal st
  /\ mem (after_help flags st) = mem st
  /\ printed (after_help flags st) = printed st
  /\ lookups (after_help flags st) = lookups st
  /\ help (after_help flags st) = existsb is_help_token flags || help st.
Proof.
  unfold after_help. destruct (existsb is_help_token flags); cbn; repeat split; reflexivity.
Qed.

(** X2. When the walk of a record succeeds on a fresh command line, the flag
    set holds exactly the derived flag names of the terminal fields, these
    names are pairwise distinct, each flag is bound to its field, the
    environment was consulted once per terminal field in walk order,
    nothing was printed, and memory outside the terminal fields is as it
    was. *)
Theorem successful_walk_defines_one_flag_per_terminal X cl fs root flags m st' :
  subParse X cl (PointerToStruct fs (Some root)) flags "" (newState X m) = (Returns None, st') ->
  NoDup (map t_flagName (terminals fs 0 root ""))
  /\ (forall nm, is_Some (formal st' !! nm) <-> nm ∈ map t_flagName (terminals fs 0 root ""))
  /\ (forall t, t ∈ terminals fs 0 root "" ->
        exists vt, ValueType_of (t_type t) = Some vt
                   /\ formal st' !! t_flagName t = Some (t_flag cl vt t))
  /\ lookups st' = map (t_envVarName cl) (terminals fs 0 root "")
  /\ printed st' = []
  /\ help st' = existsb is_help_token flags
  /\ (forall p, p ∉ map t_path (terminals fs 0 root "") -> mem st' !! p = m !! p).
Proof.
  rewrite subParse_flat. intros H.
  destruct (after_help_fields X flags (newState X m)) as (Hf0 & Hm0 & Hp0 & Hl0 & Hh0).
  destruct (resolve_all_success X cl _ _ _ H (terminals_NoDup fs 0 root ""))
    as (Hh & Hpr & Hlk & Hmem & Hform & Hnd & _ & Hall).
  split; [exact Hnd|]. split; [|split; [|split; [|split; [|split]]]].
  - intros nm. split.
    + intros Hs. destruct (decide (nm ∈ map t_flagName (terminals fs 0 root ""))) as [|Hn]; [done|].
      rewrite (Hform nm Hn), Hf0 in Hs. cbn in Hs. rewrite lookup_empty in Hs.
      by destruct Hs.
    + intros Hin. apply list_elem_of_fmap in Hin as (t & -> & Hin).
      destruct (Hall t Hin) as (vt & v & _ & _ & _ & Hf). rewrite Hf. by eexists.
  - intros t Hin. destruct (Hall t Hin) as (vt & v & Hv & _ & _ & Hf). by exists vt.
  - rewrite Hlk, Hl0. reflexivity.
  - rewrite Hpr, Hp0. reflexivity.
  - rewrite Hh, Hh0. cbn. by rewrite orb_false_r.
  - intros p Hp. rewrite (Hmem p Hp), Hm0. reflexivity.
Qed.

Lemma successful_walk_defines_one_flag_per_terminal_witness :
  subParse spec_Extern (cool ContinueOnError no_env)
    (PointerToStruct example_basic_config (Some [])) [] "" (newState spec_Extern ∅)
  = (Returns None, st_walked_example)
  /\ lookups st_walked_example
     = ["COOL_HOST"; "COOL_PORT"; "COOL_DB_KIND"; "COOL_DB_POSTGRES_HOST";
        "COOL_DB_MONGO_HOST"; "COOL_START"]
  /\ (forall nm, is_Some (formal st_walked_example !! nm) <->
                 nm ∈ ["host"; "port"; "db-kind"; "db-postgres-host"; "db-mongo-host"; "start"]).
Proof.
  assert (H1 : subParse spec_Extern (cool ContinueOnError no_env)
                 (PointerToStruct example_basic_config (Some [])) [] "" (newState spec_Extern ∅)
               = (Returns None, st_walked_example)).
  { assert (Hfst : fst (subParse spec_Extern (cool ContinueOnError no_env)
                          (PointerToStruct example_basic_config (Some [])) [] "" st0)
                   = Returns None) by (vm_compute; reflexivity).
    unfold st_walked_example. change (newState spec_Extern ∅) with st0.
    destruct (subParse spec_Extern (cool ContinueOnError no_env)
                (PointerToStruct example_basic_config (Some [])) [] "" st0) as [o s].
    cbn [fst snd] in *. by subst o. }
  destruct (successful_walk_defines_one_flag_per_terminal spec_Extern
              (cool ContinueOnError no_env) example_basic_config [] [] ∅ st_walked_example H1)
    as (_ & Hdom & _ & Hlk & _).
  split; [exact H1|]. split.
  - refine (eq_trans Hlk _). vm_compute. reflexivity.
  - exact Hdom.
Defined.

(** ** Only [exit] ends the process or writes its line to [cl.output] *)

Lemma quiet_ret X A (a : A) (st : State X) : quiet_at (ret a) st.
Proof. done. Qed.

Lemma quiet_panic X A pv (st : State X) : quiet_at (panic (A:=A) pv) st.
Proof. done. Qed.

Lemma quiet_bind X A B (c : M X A) (k : A -> M X B) st :
  quiet_at c st -> (forall a st', quiet_at (k a) st') -> quiet_at (bind c k) st.
Proof.
  unfold quiet_at, bind. intros [He Hw] Hk.
  destruct (c st) as [[a| |] st1]; cbn in *; try done.
  destruct (Hk a st1) as [He' Hw']. split; [done|]. by rewrite Hw'.
Qed.

Lemma cl_written_print_flagSet X e (st : State X) :
  cl_written (print X flagSet_output e st) = cl_written st.
Proof.
  unfold cl_written, print. cbn [printed]. rewrite List.filter_app. cbn.
  by rewrite app_nil_r.
Qed.

Lemma quiet_modify X (f : State X -> State X) st :
  cl_written (f st) = cl_written st -> quiet_at (modify f) st.
Proof. done. Qed.

Lemma quiet_store X p v (st : State X) : quiet_at (store p v) st.
Proof. done. Qed.

Lemma quiet_FlagSet_Var X cl v nm us (st : State X) : quiet_at (FlagSet_Var X cl v nm us) st.
Proof.
  unfold quiet_at, FlagSet_Var.
  destruct (String.prefix "-" nm); [split; [done|apply cl_written_print_flagSet]|].
  destruct (contains_byte "="%char nm); [split; [done|apply cl_written_print_flagSet]|].
  destruct (formal st !! nm); [|done].
  destruct (String.eqb (name cl) ""); (split; [done|apply cl_written_print_flagSet]).
Qed.

Lemma quiet_parseValue X cl k vp fn text us (st : State X) :
  quiet_at (parseValue X cl k vp fn text us) st.
Proof.
  destruct vp as [p t].
  assert (Hdef : forall vt v s, quiet_at (do_ store p v; do_ FlagSet_Var X cl (vt, p) fn us;
                                          ret (None : option error)) s).
  { intros vt v s. apply quiet_bind; [apply quiet_store|]. intros _ s1.
    apply quiet_bind; [apply quiet_FlagSet_Var|]. intros _ s2. apply quiet_ret. }
  unfold parseValue.
  destruct k; try apply quiet_ret; destruct t; try apply quiet_ret; try apply quiet_panic;
    unfold parseBool, parseUint, parseUint64, parseInt, parseInt64, parseFloat64,
      parseDuration, parseURL, parseTime, parseStringSlice, parseIntSlice,
      BoolVar, StringVar, UintVar, Uint64Var, IntVar, Int64Var, Float64Var, DurationVar;
    try (destruct (String.eqb text "")).
  all: try (apply quiet_bind;
            [apply quiet_bind; [apply quiet_store|intros; apply quiet_FlagSet_Var]
            |intros; apply quiet_ret]).
  all: try apply Hdef.
  all: try match goal with |- context [let '(_, _) := ?e in _] =>
         destruct e as [? [?|]] end; try apply quiet_ret; try apply Hdef.
  all: try (apply quiet_bind;
            [apply quiet_bind; [apply quiet_store|intros; apply quiet_FlagSet_Var]
            |intros; apply quiet_ret]).
Qed.

Lemma quiet_resolve_terminal X cl t (st : State X) : quiet_at (resolve_terminal X cl t) st.
Proof.
  unfold resolve_terminal, resolve.
  apply quiet_bind; [by apply quiet_modify|]. intros _ s.
  assert (Hp : forall text phase s',
    quiet_at (do err <- parseValue X cl (Kind_of (Type_ (t_field t))) (t_path t, Type_ (t_field t))
                          (t_flagName t) text (t_usage cl t);
              match err with
              | Some err => ret (Some (Errorf_s_w phase (Name (t_field t)) err))
              | None => ret None
              end) s').
  { intros text phase s'. apply quiet_bind; [apply quiet_parseValue|].
    intros [e|] s2; apply quiet_ret. }
  unfold quiet_at.
  destruct (lookupEnvFunc cl (t_envVarName cl t)); [destruct (negb (help s))|]; apply Hp.
Qed.

Lemma quiet_resolve_all X cl ts : forall st : State X, quiet_at (resolve_all X cl ts) st.
Proof.
  induction ts as [|t ts IH]; intros st; [apply quiet_ret|].
  cbn [resolve_all]. apply quiet_bind; [apply quiet_resolve_terminal|].
  intros [e|] s; [apply quiet_ret|apply IH].
Qed.

Lemma quiet_subParse X cl config flags prefix (st : State X) :
  quiet_at (subParse X cl config flags prefix) st.
Proof.
  destruct config as [| |fs [root|]].
  - unfold subParse. apply quiet_bind; [|intros; apply quiet_ret].
    unfold parseHelp. destruct (existsb is_help_token flags); [by apply quiet_modify|apply quiet_ret].
  - unfold subParse. apply quiet_bind; [|intros; apply quiet_ret].
    unfold parseHelp. destruct (existsb is_help_token flags); [by apply quiet_modify|apply quiet_ret].
  - unfold quiet_at. rewrite subParse_flat.
    destruct (quiet_resolve_all X cl (terminals fs 0 root prefix) (after_help flags st)) as [He Hw].
    split; [exact He|]. rewrite Hw. unfold after_help.
    by destruct (existsb is_help_token flags).
  - unfold subParse. apply quiet_bind; [|intros; apply quiet_panic].
    unfold parseHelp. destruct (existsb is_help_token flags); [by apply quiet_modify|apply quiet_ret].
Qed.

Lemma quiet_failf X format a (st : State X) : quiet_at (failf X format a) st.
Proof.
  unfold failf. apply quiet_bind; [apply quiet_modify, cl_written_print_flagSet|]. intros _ s.
  apply quiet_bind; [apply quiet_modify, cl_written_print_flagSet|]. intros; apply quiet_ret.
Qed.

Lemma quiet_failf_v X format a e (st : State X) : quiet_at (failf_v X format a e) st.
Proof.
  unfold failf_v. apply quiet_bind; [apply quiet_modify, cl_written_print_flagSet|]. intros _ s.
  apply quiet_bind; [apply quiet_modify, cl_written_print_flagSet|]. intros; apply quiet_ret.
Qed.

(** The final parse always returns, and changes neither the flags
    defined, nor [cl.help], nor what was looked up or written through
    [cl.output]. *)
Lemma FlagSet_Parse_frame X : forall n args (st : State X),
  (List.length args <= n)%nat ->
  exists r st', FlagSet_Parse X args st = (Returns r, st')
    /\ formal st' = formal st /\ help st' = help st /\ lookups st' = lookups st
    /\ cl_written st' = cl_written st.
Proof.
  induction n as [|n IH]; intros args st Hlen.
  - destruct args; [|cbn in Hlen; lia]. by exists None, st.
  - rewrite FlagSet_Parse_eq.
    destruct (parseOne_step (formal st) args) as [ |fmt a| |f text fmt a rest] eqn:Estep.
    + by exists None, st.
    + eexists _, _. split; [reflexivity|]. cbn. repeat split.
      unfold cl_written. cbn. rewrite !List.filter_app. cbn. by rewrite !app_nil_r.
    + eexists _, _. split; [reflexivity|]. cbn. repeat split. apply cl_written_print_flagSet.
    + destruct (parseOne_step_set _ _ _ _ _ _ _ Estep) as [Hlt _].
      unfold bind. destruct (Flag_Value f) as [vt p] eqn:Ef.
      rewrite Value_Set_spec.
      destruct (snd (set_value X vt (mem st !! p) text)) as [e|] eqn:Eerr.
      * eexists _, _. split; [reflexivity|]. cbn. repeat split.
        unfold cl_written. cbn. rewrite !List.filter_app. cbn. by rewrite !app_nil_r.
      * destruct (IH rest (set_mem X (<[p:=(set_value X vt (mem st !! p) text).1]> (mem st)) st))
          as (r & st' & -> & Hf & Hh & Hl & Hw); [lia|].
        by exists r, st'.
Qed.

Lemma quiet_FlagSet_Parse X args (st : State X) :
  exists r st', FlagSet_Parse X args st = (Returns r, st') /\ cl_written st' = cl_written st.
Proof.
  destruct (FlagSet_Parse_frame X (List.length args) args st (le_n _))
    as (r & st' & H & _ & _ & _ & Hw).
  by exists r, st'.
Qed.

(** X3. Outside exit mode [parse] never ends the process, and the package
    writes nothing through [cl.output]: the walk and the flag set only
    write the flag set's messages and call its usage function (a call is
    recorded as such, whatever the function installed writes), and [exit]
    writes its line in exit mode only. *)
Theorem parse_outside_exit_mode_neither_exits_nor_writes X cl config flags st :
  errorHandling cl <> ExitOnError ->
  is_exit (fst (parse X cl config flags st)) = false
  /\ cl_written (snd (parse X cl config flags st)) = cl_written st.
Proof.
  intros Hmode.
  assert (Hexit : forall err s, quiet_at (exit X cl err) s).
  { intros [e|] s; [|apply quiet_ret]. unfold exit.
    destruct (errorHandling cl); try done.
    destruct (errors_Is_ErrHelp e); apply quiet_ret. }
  change (quiet_at (parse X cl config flags) st). unfold parse.
  apply quiet_bind; [apply quiet_subParse|]. intros [e|] s; [apply Hexit|].
  destruct (quiet_FlagSet_Parse X flags s) as (r & s' & Hp & Hw).
  unfold quiet_at, bind. rewrite Hp.
  destruct (Hexit r s') as [He Hw']. split; [exact He|]. by rewrite Hw'.
Qed.

Lemma parse_outside_exit_mode_neither_exits_nor_writes_witness :
  errorHandling (cool ContinueOnError no_env) <> ExitOnError
  /\ is_exit (fst (parse spec_Extern (cool ContinueOnError no_env)
                     (PointerToStruct bad_default_config (Some [])) ["-x"] st0)) = false
  /\ cl_written (snd (parse spec_Extern (cool ContinueOnError no_env)
                        (PointerToStruct bad_default_config (Some [])) ["-x"] st0))
     = cl_written st0.
Proof.
  assert (H : errorHandling (cool ContinueOnError no_env) <> ExitOnError) by discriminate.
  split; [exact H|].
  exact (parse_outside_exit_mode_neither_exits_nor_writes spec_Extern
           (cool ContinueOnError no_env) (PointerToStruct bad_default_config (Some []))
           ["-x"] st0 H).
Defined.

(** X4. In continue mode [parse] hands back the error of the walk, or else of
    the flag set, as it is, except the help request, which it turns into
    success; the state is the one the failing step left. *)
Theorem parse_continue_mode_returns_the_error X cl config flags st :
  errorHandling cl = ContinueOnError ->
  (forall e st1,
     subParse X cl config flags "" st = (Returns (Some e), st1) ->
     parse X cl config flags st
     = (Returns (if errors_Is_ErrHelp e then None else Some e), st1))
  /\ (forall st1 r st2,
     subParse X cl config flags "" st = (Returns None, st1) ->
     FlagSet_Parse X flags st1 = (Returns r, st2) ->
     parse X cl config flags st
     = (Returns (match r with
                 | Some e => if errors_Is_ErrHelp e then None else Some e
                 | None => None
                 end), st2))
  /\ (forall e, fst (parse X cl config flags st) = Returns (Some e) ->
                errors_Is_ErrHelp e = false).
Proof.
  intros Hmode.
  assert (Hexit : forall e s, exit X cl (Some e) s
                              = (Returns (if errors_Is_ErrHelp e then None else Some e), s)).
  { intros e s. unfold exit. rewrite Hmode. by destruct (errors_Is_ErrHelp e). }
  split; [|split].
  - intros e st1 Hw. unfold parse, bind. rewrite Hw. apply Hexit.
  - intros st1 r st2 Hw Hp. unfold parse, bind. rewrite Hw, Hp.
    destruct r as [e|]; [apply Hexit|reflexivity].
  - intros e. unfold parse, bind.
    destruct (subParse X cl config flags "" st) as [[[e1|]| |] st1]; try discriminate.
    + rewrite Hexit. cbn. destruct (errors_Is_ErrHelp e1) eqn:E; [discriminate|].
      by intros [= <-].
    + destruct (FlagSet_Parse X flags st1) as [[[e2|]| |] st2]; try discriminate.
      rewrite Hexit. cbn. destruct (errors_Is_ErrHelp e2) eqn:E; [discriminate|].
      by intros [= <-].
Qed.

Lemma parse_continue_mode_returns_the_error_witness :
  errorHandling (cool ContinueOnError no_env) = ContinueOnError
  /\ fst (parse spec_Extern (cool ContinueOnError no_env)
            (PointerToStruct bad_default_config (Some [])) [] st0)
     = Returns (Some (Errorf_s_w "%s def: %w" "B" err_maybe))
  /\ errors_Is_ErrHelp (Errorf_s_w "%s def: %w" "B" err_maybe) = false.
Proof.
  assert (H : errorHandling (cool ContinueOnError no_env) = ContinueOnError) by reflexivity.
  assert (H1 : fst (parse spec_Extern (cool ContinueOnError no_env)
                      (PointerToStruct bad_default_config (Some [])) [] st0)
               = Returns (Some (Errorf_s_w "%s def: %w" "B" err_maybe)))
    by (vm_compute; reflexivity).
  destruct (parse_continue_mode_returns_the_error spec_Extern (cool ContinueOnError no_env)
              (PointerToStruct bad_default_config (Some [])) [] st0 H) as (_ & _ & H3).
  split; [exact H|]. split; [exact H1|]. exact (H3 _ H1).
Defined.

(** X5. In panic mode every error becomes a panic carrying it, the help
    request included; [parse] returns only on success. *)
Theorem parse_panic_mode_panics_with_the_error X cl config flags st :
  errorHandling cl = PanicOnError ->
  (forall e st1,
     subParse X cl config flags "" st = (Returns (Some e), st1) ->
     parse X cl config flags st = (Panics (panic_error e), st1))
  /\ (forall st1 e st2,
     subParse X cl config flags "" st = (Returns None, st1) ->
     FlagSet_Parse X flags st1 = (Returns (Some e), st2) ->
     parse X cl config flags st = (Panics (panic_error e), st2))
  /\ (forall r, fst (parse X cl config flags st) = Returns r -> r = None).
Proof.
  intros Hmode.
  assert (Hexit : forall e s, exit X cl (Some e) s = (Panics (panic_error e), s)).
  { intros e s. unfold exit. by rewrite Hmode. }
  split; [|split].
  - intros e st1 Hw. unfold parse, bind. rewrite Hw. apply Hexit.
  - intros st1 e st2 Hw Hp. unfold parse, bind. rewrite Hw, Hp. apply Hexit.
  - intros r. unfold parse, bind.
    destruct (subParse X cl config flags "" st) as [[[e1|]| |] st1]; try discriminate.
    + by rewrite Hexit.
    + destruct (FlagSet_Parse X flags st1) as [[[e2|]| |] st2]; try discriminate.
      * by rewrite Hexit.
      * cbn. by intros [= <-].
Qed.

Lemma parse_panic_mode_panics_with_the_error_witness :
  errorHandling (cool PanicOnError no_env) = PanicOnError
  /\ subParse spec_Extern (cool PanicOnError no_env) port_ptr ["-h"] "" st0
     = (Returns None, snd (subParse spec_Extern (cool PanicOnError no_env) port_ptr ["-h"] "" st0))
  /\ fst (FlagSet_Parse spec_Extern ["-h"]
            (snd (subParse spec_Extern (cool PanicOnError no_env) port_ptr ["-h"] "" st0)))
     = Returns (Some flag_ErrHelp)
  /\ fst (parse spec_Extern (cool PanicOnError no_env) port_ptr ["-h"] st0)
     = Panics (panic_error flag_ErrHelp).
Proof.
  assert (H : errorHandling (cool PanicOnError no_env) = PanicOnError) by reflexivity.
  destruct (parse_panic_mode_panics_with_the_error spec_Extern (cool PanicOnError no_env)
              port_ptr ["-h"] st0 H) as (_ & Hp & _).
  assert (H1 : fst (subParse spec_Extern (cool PanicOnError no_env) port_ptr ["-h"] "" st0)
               = Returns None) by (vm_compute; reflexivity).
  assert (H2 : fst (FlagSet_Parse spec_Extern ["-h"]
                 (snd (subParse spec_Extern (cool PanicOnError no_env) port_ptr ["-h"] "" st0)))
               = Returns (Some flag_ErrHelp)) by (vm_compute; reflexivity).
  split; [exact H|].
  destruct (subParse spec_Extern (cool PanicOnError no_env) port_ptr ["-h"] "" st0)
    as [o1 st1] eqn:E1.
  cbn [fst snd] in *. subst o1.
  split; [reflexivity|]. split; [exact H2|].
  destruct (FlagSet_Parse spec_Extern ["-h"] st1) as [o2 st2] eqn:E2.
  cbn [fst] in H2. subst o2.
  rewrite (Hp st1 flag_ErrHelp st2 eq_refl E2). reflexivity.
Defined.

(** X6. With an error handling value that is none of the three constants of
    the flag package, [exit] falls through its switch: [parse] reports
    success whatever went wrong, leaving the state of the failing step. *)
Theorem parse_unknown_mode_swallows_errors X cl config flags st :
  errorHandling cl = OtherErrorHandling ->
  (forall e st1,
     subParse X cl config flags "" st = (Returns (Some e), st1) ->
     parse X cl config flags st = (Returns None, st1))
  /\ (forall r, fst (parse X cl config flags st) = Returns r -> r = None).
Proof.
  intros Hmode.
  assert (Hexit : forall e s, exit X cl (Some e) s = (Returns None, s)).
  { intros e s. unfold exit. by rewrite Hmode. }
  split.
  - intros e st1 Hw. unfold parse, bind. rewrite Hw. apply Hexit.
  - intros r. unfold parse, bind.
    destruct (subParse X cl config flags "" st) as [[[e1|]| |] st1]; try discriminate.
    + rewrite Hexit. cbn. by intros [= <-].
    + destruct (FlagSet_Parse X flags st1) as [[[e2|]| |] st2]; try discriminate.
      * rewrite Hexit. cbn. by intros [= <-].
      * cbn. by intros [= <-].
Qed.

Lemma parse_unknown_mode_swallows_errors_witness :
  errorHandling (cool OtherErrorHandling no_env) = OtherErrorHandling
  /\ subParse spec_Extern (cool OtherErrorHandling no_env)
       (PointerToStruct bad_default_config (Some [])) [] "" st0
     = (Returns (Some (Errorf_s_w "%s def: %w" "B" err_maybe)), st_bad_default)
  /\ fst (parse spec_Extern (cool OtherErrorHandling no_env)
            (PointerToStruct bad_default_config (Some [])) [] st0)
     = Returns None.
Proof.
  assert (H : errorHandling (cool OtherErrorHandling no_env) = OtherErrorHandling)
    by reflexivity.
  assert (H1 : subParse spec_Extern (cool OtherErrorHandling no_env)
                 (PointerToStruct bad_default_config (Some [])) [] "" st0
               = (Returns (Some (Errorf_s_w "%s def: %w" "B" err_maybe)), st_bad_default)).
  { assert (Hfst : fst (subParse spec_Extern (cool OtherErrorHandling no_env)
                          (PointerToStruct bad_default_config (Some [])) [] "" st0)
                   = Returns (Some (Errorf_s_w "%s def: %w" "B" err_maybe)))
      by (vm_compute; reflexivity).
    unfold st_bad_default.
    destruct (subParse spec_Extern (cool OtherErrorHandling no_env)
                (PointerToStruct bad_default_config (Some [])) [] "" st0) as [o s].
    cbn [fst snd] in *. by subst o. }
  destruct (parse_unknown_mode_swallows_errors spec_Extern (cool OtherErrorHandling no_env)
              (PointerToStruct bad_default_config (Some [])) [] st0 H) as (Hs & _).
  split; [exact H|]. split; [exact H1|]. rewrite (Hs _ _ H1). reflexivity.
Defined.

(** ** A [uint] field on the command line *)

Lemma ParseUint_loop_base0_decimal cutoff maxVal s :
  all_digits s = true ->
  forall n u,
  strconv.ParseUint_loop true 10 cutoff maxVal s n u
  = strconv.ParseUint_loop false 10 cutoff maxVal s n u.
Proof.
  induction s as [|c r IH]; [done|]. intros Hd n u.
  simpl in Hd. apply andb_true_iff in Hd as [Hc Hr].
  cbn [strconv.ParseUint_loop]. rewrite andb_false_r, andb_true_r.
  assert (Hu : Ascii.eqb c "_"%char = false).
  { apply Ascii.eqb_neq. intros ->. vm_compute in Hc. discriminate. }
  rewrite Hu.
  change (ord "0"%char) with 48. change (ord "9"%char) with 57.
  unfold isDigit in Hc. rewrite Hc.
  destruct (10 <=? ord c - 48); [done|].
  destruct (cutoff <=? n); [done|].
  destruct (maxVal <? n * 10 + (ord c - 48)); [done|]. by apply IH.
Qed.

Lemma ParseUint_base0_decimal s :
  s <> "" -> all_digits s = true -> String.prefix "0" s = false ->
  strconv.ParseUint s 0 64 = strconv.ParseUint s 10 64.
Proof.
  intros Hne Hd Hz. unfold strconv.ParseUint.
  destruct (decide (s = "")) as [|_]; [done|].
  change (0 =? 0) with true. change (10 =? 0) with false. cbv iota.
  destruct s as [|c0 rest]; [done|].
  assert (Hc : Ascii.eqb c0 "0"%char = false).
  { cbn [String.prefix] in Hz. destruct (Ascii.eqb_spec c0 "0"%char) as [->|]; [|done].
    destruct (ascii_dec "0" "0"); [|done]. by destruct rest. }
  rewrite Hc. rewrite ParseUint_loop_base0_decimal by exact Hd.
  reflexivity.
Qed.

(** X7. On a 64-bit target, where [strconv.IntSize] is 64, a text for a
    [uint] field is read with 32 bits when it comes from the environment
    or the default, and with the 64 bits of [uint] when it comes from the
    command line: a decimal numeral without leading zero between 2^32 and
    2^64 - 1 is a range error for the walk, which changes nothing, and is
    assigned to the field without error by the flag registered for it.
    (On a 32-bit target the flag reads 32 bits as well.) *)
Theorem uint_field_is_wider_on_the_command_line X cl p flag usage s (st : State X) :
  strconv.IntSize = 64 ->
  s <> "" -> all_digits s = true -> String.prefix "0" s = false ->
  2 ^ 32 - 1 < decimal_value s <= 2 ^ 64 - 1 ->
  parseValue X cl Uint (p, T_uint) flag s usage st
  = (Returns (Some (Errorf_q_w "parsing uint %q: %w" s (strconv.rangeError "ParseUint" s))), st)
  /\ Value_Set X (uintValue, p) s st
     = (Returns None, set_mem X (<[p := V_uint (decimal_value s)]> (mem st)) st).
Proof.
  intros H64 Hne Hd Hz [Hlo Hhi]. split.
  - assert (Heq : String.eqb s "" = false) by (by apply String.eqb_neq).
    cbn [parseValue]. unfold parseUint. rewrite Heq.
    rewrite (ParseUint_decimal s 32 Hne Hd) by lia.
    destruct (Z.leb_spec (decimal_value s) (2 ^ 32 - 1)); [lia|done].
  - cbn [Value_Set]. rewrite H64.
    rewrite (ParseUint_base0_decimal s Hne Hd Hz).
    rewrite (ParseUint_decimal s 64 Hne Hd) by lia.
    destruct (Z.leb_spec (decimal_value s) (2 ^ 64 - 1)); [done|lia].
Qed.

Lemma uint_field_is_wider_on_the_command_line_witness :
  strconv.IntSize = 64
  /\ "4294967296" <> ""
  /\ all_digits "4294967296" = true
  /\ String.prefix "0" "4294967296" = false
  /\ 2 ^ 32 - 1 < decimal_value "4294967296" <= 2 ^ 64 - 1
  /\ parseValue spec_Extern (cool ContinueOnError no_env) Uint ([0%nat], T_uint)
       "port" "4294967296" "port (env COOL_PORT)" st0
     = (Returns (Some (Errorf_q_w "parsing uint %q: %w" "4294967296"
                         (strconv.rangeError "ParseUint" "4294967296"))), st0)
  /\ Value_Set spec_Extern (uintValue, [0%nat]) "4294967296" st0
     = (Returns None,
        set_mem spec_Extern (<[[0%nat] := V_uint (decimal_value "4294967296")]> (mem st0)) st0).
Proof.
  assert (H0 : strconv.IntSize = 64) by reflexivity.
  assert (H1 : "4294967296" <> "") by discriminate.
  assert (H2 : all_digits "4294967296" = true) by reflexivity.
  assert (H3 : String.prefix "0" "4294967296" = false) by reflexivity.
  assert (H4 : 2 ^ 32 - 1 < decimal_value "4294967296" <= 2 ^ 64 - 1)
    by (vm_compute; split; [reflexivity|discriminate]).
  split; [exact H0|].
  split; [exact H1|]. split; [exact H2|]. split; [exact H3|]. split; [exact H4|].
  exact (uint_field_is_wider_on_the_command_line spec_Extern (cool ContinueOnError no_env)
           [0%nat] "port" "port (env COOL_PORT)" "4294967296" st0 H0 H1 H2 H3 H4).
Defined.

(** ** A help token among the operands *)

Lemma FlagSet_Parse_stops X s rest (st : State X) :
  stops_flag_parsing s = true -> FlagSet_Parse X (s :: rest) st = (Returns None, st).
Proof.
  intros Hs. cbn [FlagSet_Parse]. destruct s as [|c0 [|c1 s2]]; try reflexivity.
  cbn [stops_flag_parsing] in Hs.
  destruct (negb (Ascii.eqb c0 "-"%char)); [reflexivity|].
  cbn [orb] in Hs. rewrite Hs. reflexivity.
Qed.

(** X8. [parseHelp] looks for a help token in all the arguments, the flag set
    only up to the first operand or ["--"].  When the first argument
    stops the flag set and a help token follows it, a walk that succeeds
    makes [parse] return success in every mode: [cl.help] is set, so the
    environment was set aside, but no usage is printed, no flag is set and
    the process is not ended. *)
Theorem help_token_among_operands_sets_help_silently X cl config s rest st st1 :
  stops_flag_parsing s = true ->
  existsb is_help_token rest = true ->
  subParse X cl config (s :: rest) "" st = (Returns None, st1) ->
  parse X cl config (s :: rest) st = (Returns None, st1)
  /\ help st1 = true
  /\ printed st1 = printed st.
Proof.
  intros Hs Hh Hw.
  assert (Hh' : existsb is_help_token (s :: rest) = true) by (cbn; rewrite Hh; apply orb_true_r).
  split.
  - unfold parse, bind. rewrite Hw, FlagSet_Parse_stops by exact Hs. reflexivity.
  - destruct config as [| |fs [root|]].
    + unfold subParse, bind in Hw. rewrite parseHelp_spec in Hw. discriminate.
    + unfold subParse, bind in Hw. rewrite parseHelp_spec in Hw. discriminate.
    + rewrite subParse_flat in Hw.
      destruct (resolve_all_success X cl _ _ _ Hw (terminals_NoDup fs 0 root ""))
        as (Hhelp & Hpr & _).
      rewrite Hhelp, Hpr. unfold after_help. rewrite Hh'. done.
    + unfold subParse, bind in Hw. rewrite parseHelp_spec in Hw. discriminate.
Qed.

Lemma help_token_among_operands_sets_help_silently_witness :
  stops_flag_parsing "--" = true
  /\ existsb is_help_token ["-h"] = true
  /\ subParse spec_Extern (cool ExitOnError env_COOL_PORT_8080) port_ptr ["--"; "-h"] "" st0
     = (Returns None, st_after_terminator)
  /\ parse spec_Extern (cool ExitOnError env_COOL_PORT_8080) port_ptr ["--"; "-h"] st0
     = (Returns None, st_after_terminator)
  /\ mem st_after_terminator !! [0%nat] = Some (V_int 3000).
Proof.
  assert (H1 : stops_flag_parsing "--" = true) by reflexivity.
  assert (H2 : existsb is_help_token ["-h"] = true) by reflexivity.
  assert (H3 : subParse spec_Extern (cool ExitOnError env_COOL_PORT_8080) port_ptr
                 ["--"; "-h"] "" st0 = (Returns None, st_after_terminator)).
  { assert (Hfst : fst (subParse spec_Extern (cool ExitOnError env_COOL_PORT_8080) port_ptr
                          ["--"; "-h"] "" st0) = Returns None) by (vm_compute; reflexivity).
    unfold st_after_terminator.
    destruct (subParse spec_Extern (cool ExitOnError env_COOL_PORT_8080) port_ptr
                ["--"; "-h"] "" st0) as [o s].
    cbn [fst snd] in *. by subst o. }
  destruct (help_token_among_operands_sets_help_silently spec_Extern
              (cool ExitOnError env_COOL_PORT_8080) port_ptr "--" ["-h"] st0
              st_after_terminator H1 H2 H3) as (Hp & _ & _).
  split; [exact H1|]. split; [exact H2|]. split; [exact H3|]. split; [exact Hp|].
  apply value_is_int. vm_compute. reflexivity.
Defined.

(** ** Chaining middlewares *)

Lemma Middlewares_Wrap_loop_take {Handler} (ms : Middlewares Handler) : forall n wrapped,
  (n <= List.length ms)%nat ->
  Middlewares_Wrap_loop ms n wrapped = Some (foldr (fun m h => m h) wrapped (take n ms)).
Proof.
  induction n as [|i IH]; intros wrapped Hn; [reflexivity|].
  cbn [Middlewares_Wrap_loop].
  destruct (ms !! i) as [m|] eqn:E.
  - rewrite IH by lia. rewrite (take_S_r ms i m E), foldr_app. reflexivity.
  - apply lookup_ge_None in E. lia.
Qed.

(** X9. [Wrap] never runs out of range, and nests the middlewares in the
    order they were added: the first one added is the outermost, so a
    request passes through them in the order of the calls of [Add];
    adding a middleware wraps the multiplexer with it before the earlier
    ones, and with no middleware the multiplexer is returned as it is. *)
Theorem Wrap_nests_middlewares_in_order_added {Handler} (ms : Middlewares Handler) h mux :
  Middlewares_Wrap ms mux = Some (foldr (fun m wrapped => m wrapped) mux ms)
  /\ Middlewares_Wrap (Middlewares_Add ms h) mux = Middlewares_Wrap ms (h mux)
  /\ Middlewares_Wrap [] mux = Some mux.
Proof.
  assert (Hw : forall l : Middlewares Handler,
            Middlewares_Wrap l mux = Some (foldr (fun m wrapped => m wrapped) mux l)).
  { intros l. unfold Middlewares_Wrap. destruct l as [|m l]; [reflexivity|].
    cbn [List.length Nat.eqb].
    rewrite Middlewares_Wrap_loop_take by (cbn; lia).
    change (S (List.length l)) with (List.length (m :: l)).
    by rewrite firstn_all. }
  split; [apply Hw|]. split; [|reflexivity].
  rewrite Hw. unfold Middlewares_Add. rewrite foldr_app. cbn [foldr].
  unfold Middlewares_Wrap. destruct ms as [|m l]; [reflexivity|].
  cbn [List.length Nat.eqb].
  rewrite Middlewares_Wrap_loop_take by (cbn; lia).
  change (S (List.length l)) with (List.length (m :: l)).
  by rewrite firstn_all.
Qed.

(** ** Graceful shutdown *)

Lemma closed_names_Debug nm log :
  closed_names (Log_Debug ("closing " ++ nm) :: log) = nm :: closed_names log.
Proof. reflexivity. Qed.

Lemma closed_names_Warn msg e log : closed_names (Log_Warn msg e :: log) = closed_names log.
Proof. reflexivity. Qed.

Lemma Run_loop_spec {W} ctx (fs : list (c W)) : forall w,
  fst (Run_loop ctx fs w) = fold_left (fun w f => fst (c_inner f ctx w)) fs w
  /\ closed_names (snd (Run_loop ctx fs w)) = map c_name fs.
Proof.
  induction fs as [|f rest IH]; intros w; [done|].
  cbn [Run_loop fold_left map].
  destruct (c_inner f ctx w) as [w1 err] eqn:E1. cbn [fst].
  destruct (IH w1) as [IHw IHn].
  destruct (Run_loop ctx rest w1) as [w2 log]. cbn [fst snd] in *.
  split; [exact IHw|].
  rewrite closed_names_Debug. destruct err as [e|]; rewrite ?closed_names_Warn, IHn; done.
Qed.

Lemma register_all_closers {W} regs : forall s : Service W,
  Service_closers (register_all s regs)
  = (Service_closers s ++ map (fun r => {| c_name := fst r; c_inner := snd r |}) regs)%list.
Proof.
  induction regs as [|r regs IH]; intros s; cbn; [by rewrite app_nil_r|].
  unfold register_all in IH. rewrite IH. cbn. by rewrite <- app_assoc.
Qed.

Lemma register_all_timeout {W} regs : forall s : Service W,
  Service_timeout (register_all s regs) = Service_timeout s.
Proof.
  induction regs as [|r regs IH]; intros s; cbn; [done|].
  unfold register_all in IH. by rewrite IH.
Qed.

(** X10. [Run] calls every registered closer, the last registered first,
    whether or not the earlier calls returned an error, each with the
    grace period of the service, and leaves the slice of closers
    reversed. *)
Theorem Run_closes_in_reverse_order_of_registration {W} (s : Service W) regs w :
  closed_names (snd (Service_Run (register_all s regs) w))
  = (rev (map fst regs) ++ rev (map c_name (Service_closers s)))%list
  /\ snd (fst (Service_Run (register_all s regs) w))
     = fold_left (fun w f => fst (c_inner f (Service_timeout s) w))
         (rev (Service_closers (register_all s regs))) w
  /\ Service_closers (fst (fst (Service_Run (register_all s regs) w)))
     = rev (Service_closers (register_all s regs))
  /\ hd_error (snd (Service_Run (register_all s regs) w))
     = Some (Log_Info "graceful shutdown" (Service_timeout s)).
Proof.
  unfold Service_Run. rewrite register_all_timeout.
  destruct (Run_loop_spec (Service_timeout s) (rev (Service_closers (register_all s regs))) w)
    as [Hw Hn].
  destruct (Run_loop (Service_timeout s) (rev (Service_closers (register_all s regs))) w)
    as [w' log].
  cbn [fst snd] in *. split; [|done].
  change (closed_names (Log_Info "graceful shutdown" (Service_timeout s) :: log))
    with (closed_names log).
  rewrite Hn, register_all_closers, rev_app_distr, map_app, <- !map_rev.
  f_equal. rewrite !map_rev, map_map. reflexivity.
Qed.

(** ** How [NewService] ends *)

Lemma exit_outcome X cl r (s : State X) :
  match fst (exit X cl r s) with
  | Returns None => True
  | Returns (Some e) => errorHandling cl = ContinueOnError /\ r = Some e
  | Exits code => errorHandling cl = ExitOnError /\ (code = 0 \/ code = 2)
  | Panics _ => errorHandling cl = PanicOnError
  end.
Proof.
  destruct r as [e|]; [|done]. unfold exit.
  destruct (errorHandling cl); cbn; try done.
  - by destruct (errors_Is_ErrHelp e).
  - destruct (help s || errors_Is_ErrHelp e); cbn; auto.
Qed.

Lemma parse_outcome X cl config flags (st : State X) :
  match fst (parse X cl config flags st) with
  | Returns None => True
  | Returns (Some e) => errorHandling cl = ContinueOnError
  | Exits code => errorHandling cl = ExitOnError /\ (code = 0 \/ code = 2)
  | Panics _ => True
  end.
Proof.
  unfold parse, bind.
  destruct (quiet_subParse X cl config flags "" st) as [He _].
  destruct (subParse X cl config flags "" st) as [[[e|]| |] st1]; try done.
  - pose proof (exit_outcome X cl (Some e) st1) as H.
    destruct (exit X cl (Some e) st1) as [[[e'|]| |] st2]; cbn in *; tauto.
  - destruct (quiet_FlagSet_Parse X flags st1) as (r & st2 & -> & _).
    pose proof (exit_outcome X cl r st2) as H.
    destruct (exit X cl r st2) as [[[e'|]| |] st3]; cbn in *; tauto.
Qed.

(** X11. [NewService] hands back the service, with the options applied in
    order, only when [parse] reported success.  It ends the process with
    code 0 or 2 and nothing else: in exit mode, which is the default,
    through [cl.exit] and without [Exit] writing anything, so that the
    message "failed parsing command line" is never printed; in continue
    mode through [Exit], which writes that message with the error to the
    standard error stream and ends the process with code 2. *)
Theorem NewService_returns_only_after_a_successful_parse {W} X os_LookupEnv os_Args nm config
    (opts : list (Option W)) m :
  match fst (fst (NewService X os_LookupEnv os_Args nm config opts m)) with
  | Returns s =>
      s = configured os_LookupEnv nm opts
      /\ snd (NewService X os_LookupEnv os_Args nm config opts m) = []
      /\ fst (parse X (Service_commandLine s) config (tail os_Args) (newState X m))
         = Returns None
  | Exits code =>
      (errorHandling (Service_commandLine (configured os_LookupEnv nm opts)) = ExitOnError
       /\ (code = 0 \/ code = 2)
       /\ snd (NewService X os_LookupEnv os_Args nm config opts m) = [])
      \/ (errorHandling (Service_commandLine (configured os_LookupEnv nm opts)) = ContinueOnError
          /\ code = 2
          /\ exists err,
               fst (parse X (Service_commandLine (configured os_LookupEnv nm opts)) config
                      (tail os_Args) (newState X m)) = Returns (Some err)
               /\ snd (NewService X os_LookupEnv os_Args nm config opts m)
                  = [Stderr_Fprintf "%s: %s\n" "failed parsing command line" err])
  | Panics _ => snd (NewService X os_LookupEnv os_Args nm config opts m) = []
  end.
Proof.
  unfold NewService. destruct os_Args as [|a flags]; [reflexivity|]. cbn [tail].
  pose proof (parse_outcome X (Service_commandLine (configured os_LookupEnv nm opts)) config
                flags (newState X m)) as H.
  destruct (parse X (Service_commandLine (configured os_LookupEnv nm opts)) config flags
              (newState X m)) as [[[e|]|code|p] st] eqn:E; cbn [fst snd] in *.
  - right. split; [exact H|]. split; [reflexivity|]. by exists e.
  - rewrite E. done.
  - left. destruct H as [H1 H2]. done.
  - reflexivity.
Qed.

(** ** The range of [int] and [int64] fields *)

Lemma decimal_value_lt s : all_digits s = true -> decimal_value s < 10 ^ len s.
Proof.
  induction s as [|ch r IH]; [done|]. intros H. simpl in H.
  apply andb_true_iff in H as [Hc Hr]. specialize (IH Hr).
  pose proof (isDigit_range ch Hc). pose proof (len_nonneg r).
  cbn [decimal_value]. rewrite len_String, Z.pow_add_r, Z.pow_1_r by lia. nia.
Qed.

Lemma Atoi_fast_loop_digits s :
  all_digits s = true ->
  forall n, strconv.Atoi_fast_loop s n = Some (n * 10 ^ len s + decimal_value s).
Proof.
  induction s as [|ch r IH]; intros Hd n.
  - cbn. change (len "") with 0. f_equal. lia.
  - simpl in Hd. apply andb_true_iff in Hd as [Hc Hr].
    pose proof (isDigit_range ch Hc) as Hrg. pose proof (len_nonneg r).
    cbn [strconv.Atoi_fast_loop decimal_value]. change (ord "0"%char) with 48.
    rewrite Z.mod_small by lia.
    destruct (Z.ltb_spec 9 (ord ch - 48)); [lia|].
    rewrite IH by exact Hr. f_equal.
    rewrite len_String, Z.pow_add_r, Z.pow_1_r by lia. ring.
Qed.

Lemma digit_is_no_sign ch :
  isDigit ch = true -> Ascii.eqb ch "+"%char = false /\ Ascii.eqb ch "-"%char = false.
Proof.
  intros H. split; apply Ascii.eqb_neq; intros ->; vm_compute in H; discriminate.
Qed.

Lemma ParseUint_bitSize_0 s :
  strconv.IntSize = 64 -> strconv.ParseUint s 10 0 = strconv.ParseUint s 10 64.
Proof. intros H64. unfold strconv.ParseUint. rewrite H64. reflexivity. Qed.

(** [ParseInt] of a decimal numeral, with or without a minus sign, for
    64 bits: asked for, or those of [int] on a 64-bit target. *)
Lemma ParseInt_decimal s bits :
  s <> "" -> all_digits s = true -> bits = 0 /\ strconv.IntSize = 64 \/ bits = 64 ->
  strconv.ParseInt s 10 bits
  = (if decimal_value s <=? 2 ^ 63 - 1 then (decimal_value s, None)
     else (2 ^ 63 - 1, Some (strconv.rangeError "ParseInt" s)))
  /\ strconv.ParseInt (String "-" s) 10 bits
     = (if decimal_value s <=? 2 ^ 63 then (- decimal_value s, None)
        else (- 2 ^ 63, Some (strconv.rangeError "ParseInt" (String "-" s)))).
Proof.
  intros Hne Hd Hb.
  assert (HU : strconv.ParseUint s 10 bits = strconv.ParseUint s 10 64).
  { destruct Hb as [[-> H64]| ->]; [by apply ParseUint_bitSize_0|reflexivity]. }
  assert (Hbits : 2 ^ ((if bits =? 0 then strconv.IntSize else bits) - 1) = 2 ^ 63).
  { destruct Hb as [[-> H64]| ->]; [|reflexivity].
    change (0 =? 0) with true. cbv iota. by rewrite H64. }
  pose proof (decimal_value_nonneg s Hd) as Hnn.
  split.
  - destruct s as [|ch r]; [done|].
    assert (Hc : isDigit ch = true) by (simpl in Hd; by apply andb_true_iff in Hd as [? _]).
    destruct (digit_is_no_sign ch Hc) as [Hp Hm].
    unfold strconv.ParseInt. rewrite Hp, Hm, HU, Hbits.
    rewrite (ParseUint_decimal (String ch r) 64 Hne Hd) by lia.
    destruct (Z.leb_spec (decimal_value (String ch r)) (2 ^ 64 - 1)).
    + cbn [negb andb].
      destruct (Z.leb_spec (2 ^ 63) (decimal_value (String ch r)));
        destruct (Z.leb_spec (decimal_value (String ch r)) (2 ^ 63 - 1)); try lia; reflexivity.
    + unfold strconv.rangeError at 1. cbn [negb andb].
      destruct (Z.leb_spec (2 ^ 63) (2 ^ 64 - 1)); [|lia].
      destruct (Z.leb_spec (decimal_value (String ch r)) (2 ^ 63 - 1)); [lia|reflexivity].
  - unfold strconv.ParseInt. change (Ascii.eqb "-" "+") with false.
    change (Ascii.eqb "-" "-") with true. cbv iota. rewrite HU, Hbits.
    rewrite (ParseUint_decimal s 64 Hne Hd) by lia.
    destruct (Z.leb_spec (decimal_value s) (2 ^ 64 - 1)).
    + cbn [negb andb].
      destruct (Z.ltb_spec (2 ^ 63) (decimal_value s));
        destruct (Z.leb_spec (decimal_value s) (2 ^ 63)); try lia; reflexivity.
    + unfold strconv.rangeError at 1. cbn [negb andb].
      destruct (Z.ltb_spec (2 ^ 63) (2 ^ 64 - 1)); [|lia].
      destruct (Z.leb_spec (decimal_value s) (2 ^ 63)); [lia|reflexivity].
Qed.

(** [Atoi] of a decimal numeral, with or without a minus sign, on a
    64-bit target: the fast path and [ParseInt] agree. *)
Lemma Atoi_decimal s :
  strconv.IntSize = 64 ->
  s <> "" -> all_digits s = true ->
  strconv.Atoi s
  = (if decimal_value s <=? 2 ^ 63 - 1 then (decimal_value s, None)
     else (2 ^ 63 - 1, Some (strconv.rangeError "Atoi" s)))
  /\ strconv.Atoi (String "-" s)
     = (if decimal_value s <=? 2 ^ 63 then (- decimal_value s, None)
        else (- 2 ^ 63, Some (strconv.rangeError "Atoi" (String "-" s)))).
Proof.
  intros H64 Hne Hd.
  destruct (ParseInt_decimal s 0 Hne Hd (or_introl (conj eq_refl H64))) as [HP HN].
  pose proof (decimal_value_nonneg s Hd) as Hnn.
  pose proof (decimal_value_lt s Hd) as Hlt.
  pose proof (len_nonneg s) as Hlen.
  assert (Hpos : 0 < len s).
  { destruct s; [done|]. rewrite len_String. pose proof (len_nonneg s). lia. }
  split.
  - unfold strconv.Atoi. rewrite H64.
    change (64 =? 32) with false. change (64 =? 64) with true. cbn [andb orb].
    destruct (Z.ltb_spec 0 (len s)); [|lia]. cbn [andb].
    destruct (Z.ltb_spec (len s) 19).
    + destruct s as [|ch r]; [done|].
      assert (Hc : isDigit ch = true) by (simpl in Hd; by apply andb_true_iff in Hd as [? _]).
      destruct (digit_is_no_sign ch Hc) as [Hp Hm]. rewrite Hp, Hm. cbn [orb andb].
      rewrite (Atoi_fast_loop_digits _ Hd).
      assert (10 ^ len (String ch r) <= 10 ^ 18) by (apply Z.pow_le_mono_r; lia).
      destruct (Z.leb_spec (decimal_value (String ch r)) (2 ^ 63 - 1)); [|lia].
      f_equal; lia.
    + rewrite HP.
      destruct (decimal_value s <=? 2 ^ 63 - 1); reflexivity.
  - unfold strconv.Atoi. rewrite H64, len_String.
    change (64 =? 32) with false. change (64 =? 64) with true. cbn [andb orb].
    destruct (Z.ltb_spec 0 (len s + 1)); [|lia]. cbn [andb].
    destruct (Z.ltb_spec (len s + 1) 19).
    + change (Ascii.eqb "-" "-") with true. cbn [orb andb].
      destruct (Z.ltb_spec (len s) 1); [lia|].
      rewrite (Atoi_fast_loop_digits _ Hd).
      assert (10 ^ len s <= 10 ^ 18) by (apply Z.pow_le_mono_r; lia).
      destruct (Z.leb_spec (decimal_value s) (2 ^ 63)); [|lia].
      f_equal; lia.
    + rewrite HN.
      destruct (decimal_value s <=? 2 ^ 63); reflexivity.
Qed.

(** X12. A field of kind [int64] takes from the environment or the
    default the decimal numerals denoting at most 2^63 - 1 and, after a
    minus sign, at most 2^63, on every target; a field of kind [int]
    takes the same numerals on a 64-bit target, where [strconv.IntSize]
    is 64 (on a 32-bit target [int] has 32 bits).  A numeral outside this
    range is a range error, reported through [ParseInt] for [int64] and
    through [Atoi] for [int], and nothing changes. *)
Theorem int_fields_take_the_64_bit_range X cl p flag usage s (st : State X) :
  s <> "" -> all_digits s = true ->
  ((decimal_value s <= 2 ^ 63 - 1 ->
      parseValue X cl Int64 (p, T_int64) flag s usage st
      = (do_ Int64Var X cl p flag (decimal_value s) usage; ret None) st)
   /\ (2 ^ 63 - 1 < decimal_value s ->
      parseValue X cl Int64 (p, T_int64) flag s usage st
      = (Returns (Some (Errorf_q_w "parsing int64 %q: %w" s
                          (strconv.rangeError "ParseInt" s))), st))
   /\ (decimal_value s <= 2 ^ 63 ->
      parseValue X cl Int64 (p, T_int64) flag (String "-" s) usage st
      = (do_ Int64Var X cl p flag (- decimal_value s) usage; ret None) st)
   /\ (2 ^ 63 < decimal_value s ->
      parseValue X cl Int64 (p, T_int64) flag (String "-" s) usage st
      = (Returns (Some (Errorf_q_w "parsing int64 %q: %w" (String "-" s)
                          (strconv.rangeError "ParseInt" (String "-" s)))), st)))
  /\ (strconv.IntSize = 64 ->
      (decimal_value s <= 2 ^ 63 - 1 ->
         parseValue X cl Int (p, T_int) flag s usage st
         = (do_ IntVar X cl p flag (decimal_value s) usage; ret None) st)
      /\ (2 ^ 63 - 1 < decimal_value s ->
         parseValue X cl Int (p, T_int) flag s usage st
         = (Returns (Some (Errorf_q_w "parsing int %q: %w" s
                             (strconv.rangeError "Atoi" s))), st))
      /\ (decimal_value s <= 2 ^ 63 ->
         parseValue X cl Int (p, T_int) flag (String "-" s) usage st
         = (do_ IntVar X cl p flag (- decimal_value s) usage; ret None) st)
      /\ (2 ^ 63 < decimal_value s ->
         parseValue X cl Int (p, T_int) flag (String "-" s) usage st
         = (Returns (Some (Errorf_q_w "parsing int %q: %w" (String "-" s)
                             (strconv.rangeError "Atoi" (String "-" s)))), st))).
Proof.
  intros Hne Hd.
  assert (Heq : String.eqb s "" = false) by (by apply String.eqb_neq).
  split.
  - destruct (ParseInt_decimal s 64 Hne Hd (or_intror eq_refl)) as [HP HPn].
    cbn [parseValue]. unfold parseInt64.
    change (String.eqb (String "-" s) "") with false. rewrite Heq, HP, HPn.
    split; [|split; [|split]]; intros Hv.
    + destruct (Z.leb_spec (decimal_value s) (2 ^ 63 - 1)); [done|lia].
    + destruct (Z.leb_spec (decimal_value s) (2 ^ 63 - 1)); [lia|done].
    + destruct (Z.leb_spec (decimal_value s) (2 ^ 63)); [done|lia].
    + destruct (Z.leb_spec (decimal_value s) (2 ^ 63)); [lia|done].
  - intros H64. destruct (Atoi_decimal s H64 Hne Hd) as [HA HAn].
    cbn [parseValue]. unfold parseInt.
    change (String.eqb (String "-" s) "") with false. rewrite Heq, HA, HAn.
    split; [|split; [|split]]; intros Hv.
    + destruct (Z.leb_spec (decimal_value s) (2 ^ 63 - 1)); [done|lia].
    + destruct (Z.leb_spec (decimal_value s) (2 ^ 63 - 1)); [lia|done].
    + destruct (Z.leb_spec (decimal_value s) (2 ^ 63)); [done|lia].
    + destruct (Z.leb_spec (decimal_value s) (2 ^ 63)); [lia|done].
Qed.

Lemma int_fields_take_the_64_bit_range_witness :
  "9223372036854775808" <> ""
  /\ all_digits "9223372036854775808" = true
  /\ strconv.IntSize = 64
  /\ 2 ^ 63 - 1 < decimal_value "9223372036854775808"
  /\ decimal_value "9223372036854775808" <= 2 ^ 63
  /\ parseValue spec_Extern (cool ContinueOnError no_env) Int ([0%nat], T_int)
       "port" "9223372036854775808" "port (env COOL_PORT)" st0
     = (Returns (Some (Errorf_q_w "parsing int %q: %w" "9223372036854775808"
                         (strconv.rangeError "Atoi" "9223372036854775808"))), st0)
  /\ parseValue spec_Extern (cool ContinueOnError no_env) Int ([0%nat], T_int)
       "port" "-9223372036854775808" "port (env COOL_PORT)" st0
     = (do_ IntVar spec_Extern (cool ContinueOnError no_env) [0%nat] "port"
              (- decimal_value "9223372036854775808") "port (env COOL_PORT)";
        ret None) st0
  /\ parseValue spec_Extern (cool ContinueOnError no_env) Int64 ([0%nat], T_int64)
       "port" "9223372036854775808" "port (env COOL_PORT)" st0
     = (Returns (Some (Errorf_q_w "parsing int64 %q: %w" "9223372036854775808"
                         (strconv.rangeError "ParseInt" "9223372036854775808"))), st0).
Proof.
  assert (H1 : "9223372036854775808" <> "") by discriminate.
  assert (H2 : all_digits "9223372036854775808" = true) by reflexivity.
  assert (H0 : strconv.IntSize = 64) by reflexivity.
  assert (H3 : 2 ^ 63 - 1 < decimal_value "9223372036854775808") by (vm_compute; reflexivity).
  assert (H4 : decimal_value "9223372036854775808" <= 2 ^ 63) by (vm_compute; discriminate).
  destruct (int_fields_take_the_64_bit_range spec_Extern (cool ContinueOnError no_env)
              [0%nat] "port" "port (env COOL_PORT)" "9223372036854775808" st0 H1 H2)
    as ((_ & Hhi64 & _) & Hint).
  destruct (Hint H0) as (_ & Hhi & Hneg & _).
  split; [exact H1|]. split; [exact H2|]. split; [exact H0|].
  split; [exact H3|]. split; [exact H4|].
  split; [exact (Hhi H3)|]. split; [exact (Hneg H4)|exact (Hhi64 H3)].
Defined.

(** ** Derived flag names are valid flag names *)

Ltac ascii_cases ch :=
  destruct ch as [b0 b1 b2 b3 b4 b5 b6 b7];
  destruct b0, b1, b2, b3, b4, b5, b6, b7.

Lemma kebab_in_no_space ch :
  kebab_in ch = true -> strings.asciiSpace ch = false /\ ord ch < 128.
Proof. ascii_cases ch; vm_compute; intros H; try discriminate H; split; reflexivity. Qed.

Lemma kebab_in_to_lower ch :
  kebab_in ch = true -> Ascii.eqb "=" (to_lower ch) = false.
Proof. ascii_cases ch; vm_compute; intros H; try discriminate H; reflexivity. Qed.

Lemma isCap_to_lower ch :
  strcase.isCap ch = true ->
  strcase.isSeparator (to_lower ch) = false /\ to_lower ch <> "-"%char.
Proof. ascii_cases ch; vm_compute; intros H; try discriminate H; split; congruence. Qed.

Lemma ident_byte_kebab_in s : all_bytes ident_byte s = true -> all_bytes kebab_in s = true.
Proof.
  induction s as [|ch r IH]; [done|]. cbn [all_bytes]. intros H.
  apply andb_true_iff in H as [H1 H2]. unfold kebab_in at 1. by rewrite H1, IH.
Qed.

Lemma all_bytes_app p a b : all_bytes p (a ++ b) = all_bytes p a && all_bytes p b.
Proof.
  induction a as [|ch a IH]; [done|].
  change (String ch a ++ b) with (String ch (a ++ b)). cbn [all_bytes].
  by rewrite IH, andb_assoc.
Qed.

Lemma all_bytes_Forall p s :
  all_bytes p s = true -> Forall (fun ch => p ch = true) (list_ascii_of_string s).
Proof.
  induction s as [|ch r IH]; cbn; [constructor|]. intros H.
  apply andb_true_iff in H as [H1 H2]. constructor; auto.
Qed.

Lemma trimLeft_kebab l :
  Forall (fun ch => kebab_in ch = true) l -> strings.trimLeft l = l.
Proof.
  intros H. destruct l as [|c0 r0]; [done|].
  apply Forall_cons in H as [H0 _]. destruct (kebab_in_no_space c0 H0) as [Hs Ho].
  cbn [strings.trimLeft]. rewrite Hs.
  destruct r0 as [|c1 r1]; [done|].
  unfold strings.space2. destruct (Z.eqb_spec (ord c0) 194); [lia|]. cbn [andb].
  destruct r1 as [|c2 r2]; [done|].
  unfold strings.space3.
  destruct (Z.eqb_spec (ord c0) 225); [lia|]. destruct (Z.eqb_spec (ord c0) 226); [lia|].
  destruct (Z.eqb_spec (ord c0) 227); [lia|]. reflexivity.
Qed.

Lemma trimLeft_rev_kebab l :
  Forall (fun ch => kebab_in ch = true) l -> strings.trimLeft_rev l = l.
Proof.
  intros H. destruct l as [|c0 r0]; [done|].
  apply Forall_cons in H as [H0 H]. destruct (kebab_in_no_space c0 H0) as [Hs _].
  cbn [strings.trimLeft_rev]. rewrite Hs.
  destruct r0 as [|c1 r1]; [done|].
  apply Forall_cons in H as [H1 H]. destruct (kebab_in_no_space c1 H1) as [_ Ho1].
  unfold strings.space2. destruct (Z.eqb_spec (ord c1) 194); [lia|]. cbn [andb].
  destruct r1 as [|c2 r2]; [done|].
  apply Forall_cons in H as [H2 H]. destruct (kebab_in_no_space c2 H2) as [_ Ho2].
  unfold strings.space3.
  destruct (Z.eqb_spec (ord c2) 225); [lia|]. destruct (Z.eqb_spec (ord c2) 226); [lia|].
  destruct (Z.eqb_spec (ord c2) 227); [lia|]. reflexivity.
Qed.

Lemma TrimSpace_kebab s : all_bytes kebab_in s = true -> strings.TrimSpace s = s.
Proof.
  intros H. apply all_bytes_Forall in H. unfold strings.TrimSpace.
  rewrite trimLeft_kebab by exact H.
  rewrite trimLeft_rev_kebab by (by apply Forall_rev).
  by rewrite rev_involutive, string_of_list_ascii_of_string.
Qed.

Lemma contains_byte_String ch x t :
  contains_byte ch (String x t) = Ascii.eqb ch x || contains_byte ch t.
Proof. reflexivity. Qed.

Lemma ToKebab_loop_no_equals s : forall prev,
  all_bytes kebab_in s = true ->
  contains_byte "=" (strcase.ToScreamingDelimited_loop "-" false prev s) = false.
Proof.
  induction s as [|v0 rest IH]; intros prev H; [reflexivity|].
  cbn [all_bytes] in H. apply andb_true_iff in H as [H0 Hr].
  specialize (IH (Some v0) Hr).
  pose proof (kebab_in_to_lower v0 H0) as Hv. unfold to_lower in Hv.
  cbn [strcase.ToScreamingDelimited_loop].
  rewrite andb_false_r, andb_true_r.
  remember (strcase.ToScreamingDelimited_loop "-" false (Some v0) rest) as tail eqn:Et.
  clear Et.
  remember (if strcase.isCap v0 then chr (ord v0 + ord "a"%char - ord "A"%char) else v0)
    as v eqn:Ev.
  clear Ev.
  destruct rest as [|next r].
  - destruct (strcase.isSeparator v); rewrite contains_byte_String; [by rewrite IH|].
    by rewrite Hv, IH.
  - repeat match goal with
           | |- context [if ?b then _ else _] => destruct b
           end;
      rewrite ?contains_byte_String, ?Hv, ?IH; reflexivity.
Qed.

Lemma ToKebab_loop_first c0 rest :
  strcase.isCap c0 = true ->
  exists t, strcase.ToScreamingDelimited_loop "-" false None (String c0 rest)
            = String (to_lower c0) t.
Proof.
  intros Hc. destruct (isCap_to_lower c0 Hc) as [Hsep _]. unfold to_lower in *.
  cbn [strcase.ToScreamingDelimited_loop].
  rewrite andb_false_r, andb_true_r, Hc in *. rewrite Hsep.
  destruct rest as [|next r]; [eauto|].
  rewrite !andb_false_r.
  repeat match goal with
         | |- context [if ?b then _ else _] => destruct b
         end; eauto.
Qed.

(** The walk's prefix under exported identifiers is empty or a text of
    identifier bytes and dashes that starts with an upper-case letter. *)
Lemma walk_prefix_shape chain :
  Forall (fun f => exported_ident (Name f) = true) chain ->
  walk_prefix chain = ""
  \/ exists c0 r, walk_prefix chain = String c0 r
                  /\ strcase.isCap c0 = true /\ all_bytes kebab_in r = true.
Proof.
  induction chain as [|sf chain IH] using rev_ind; [by left|]. intros Hall.
  apply Forall_app in Hall as [Hc Hsf]. apply Forall_cons in Hsf as [Hsf _].
  right. rewrite walk_prefix_snoc. unfold newPrefix.
  destruct (Name sf) as [|n0 nr] eqn:En; [discriminate|].
  cbn [exported_ident] in Hsf. apply andb_true_iff in Hsf as [Hn0 Hnr].
  destruct (IH Hc) as [->|(c0 & r & -> & Hc0 & Hr)].
  - cbn. exists n0, nr. split; [done|]. split; [done|]. by apply ident_byte_kebab_in.
  - cbn [String.eqb negb].
    exists c0, (r ++ "-" ++ String n0 nr). split; [reflexivity|]. split; [exact Hc0|].
    rewrite all_bytes_app, Hr. cbn [andb].
    change ("-" ++ String n0 nr) with (String "-" (String n0 nr)). cbn [all_bytes].
    rewrite (ident_byte_kebab_in nr Hnr).
    unfold kebab_in, ident_byte. rewrite Hn0. reflexivity.
Qed.

(** X13. A flag name derived from the field names is a valid flag name: when
    the field and the structs around it have exported ASCII names and
    the field has no [flag] tag, the name neither begins with a dash nor
    contains an equals sign, so that defining the flag panics only when
    the name is defined already. *)
Theorem derived_flag_names_are_valid chain sf :
  Forall (fun f => exported_ident (Name f) = true) chain ->
  exported_ident (Name sf) = true ->
  Get (Tag sf) "flag" = "" ->
  String.prefix "-" (flagName sf (walk_prefix chain)) = false
  /\ contains_byte "=" (flagName sf (walk_prefix chain)) = false
  /\ forall X cl v us (st : State X),
       formal st !! flagName sf (walk_prefix chain) = None ->
       FlagSet_Var X cl v (flagName sf (walk_prefix chain)) us st
       = (Returns tt,
          set_formal X (<[flagName sf (walk_prefix chain) :=
                            {| Flag_Name := flagName sf (walk_prefix chain);
                               Flag_Usage := us; Flag_Value := v |}]> (formal st)) st).
Proof.
  intros Hchain Hsf Hflag.
  assert (Hn : exists c0 r,
            (if negb (String.eqb (walk_prefix chain) "")
             then walk_prefix chain ++ "-" ++ Name sf else Name sf) = String c0 r
            /\ strcase.isCap c0 = true /\ all_bytes kebab_in r = true).
  { destruct (Name sf) as [|n0 nr] eqn:En; [discriminate|].
    cbn [exported_ident] in Hsf. apply andb_true_iff in Hsf as [Hn0 Hnr].
    destruct (walk_prefix_shape chain Hchain) as [->|(c0 & r & -> & Hc0 & Hr)].
    - cbn. exists n0, nr. split; [done|]. split; [done|]. by apply ident_byte_kebab_in.
    - cbn [String.eqb negb].
      exists c0, (r ++ "-" ++ String n0 nr). split; [reflexivity|]. split; [exact Hc0|].
      rewrite all_bytes_app, Hr. cbn [andb].
      change ("-" ++ String n0 nr) with (String "-" (String n0 nr)). cbn [all_bytes].
      rewrite (ident_byte_kebab_in nr Hnr).
      unfold kebab_in, ident_byte. rewrite Hn0. reflexivity. }
  destruct Hn as (c0 & r & Hn & Hc0 & Hr).
  assert (Hall : all_bytes kebab_in (String c0 r) = true).
  { cbn [all_bytes]. rewrite Hr. unfold kebab_in, ident_byte. by rewrite Hc0. }
  assert (Hname : flagName sf (walk_prefix chain)
                  = strcase.ToScreamingDelimited_loop "-" false None (String c0 r)).
  { unfold flagName. rewrite Hflag. cbn [String.eqb negb]. rewrite Hn.
    unfold strcase.ToKebab, strcase.ToDelimited, strcase.ToScreamingDelimited.
    by rewrite TrimSpace_kebab. }
  assert (H1 : String.prefix "-" (flagName sf (walk_prefix chain)) = false).
  { rewrite Hname. destruct (ToKebab_loop_first c0 r Hc0) as [t ->].
    destruct (isCap_to_lower c0 Hc0) as [_ Hd]. cbn [String.prefix].
    destruct (ascii_dec "-" (to_lower c0)) as [E|]; [by symmetry in E|reflexivity]. }
  assert (H2 : contains_byte "=" (flagName sf (walk_prefix chain)) = false).
  { rewrite Hname. by apply ToKebab_loop_no_equals. }
  split; [exact H1|]. split; [exact H2|].
  intros X cl v us st Hfree. apply FlagSet_Var_definable.
  unfold definable. rewrite H1, H2. cbn [negb andb]. by apply bool_decide_eq_true.
Qed.

Lemma derived_flag_names_are_valid_witness :
  Forall (fun f => exported_ident (Name f) = true) [field_DB; field_Postgres]
  /\ exported_ident (Name field_Host) = true
  /\ Get (Tag field_Host) "flag" = ""
  /\ String.prefix "-" (flagName field_Host (walk_prefix [field_DB; field_Postgres])) = false
  /\ contains_byte "=" (flagName field_Host (walk_prefix [field_DB; field_Postgres])) = false.
Proof.
  assert (H1 : Forall (fun f => exported_ident (Name f) = true) [field_DB; field_Postgres]).
  { repeat constructor. }
  assert (H2 : exported_ident (Name field_Host) = true) by reflexivity.
  assert (H3 : Get (Tag field_Host) "flag" = "") by reflexivity.
  destruct (derived_flag_names_are_valid [field_DB; field_Postgres] field_Host H1 H2 H3)
    as (Hp & Hc & _).
  exact (conj H1 (conj H2 (conj H3 (conj Hp Hc)))).
Defined.

(** ** [parse] writes only the terminal fields of the record *)

Section Within.

Context (X : Extern) (paths : list Path) (m : gmap Path (value X)).

Lemma keeps_ret A (a : A) : keeps (within paths m) (ret (X:=X) a).
Proof. by intros st H. Qed.

Lemma keeps_panic A pv : keeps (within paths m) (panic (X:=X) (A:=A) pv).
Proof. by intros st H. Qed.

Lemma keeps_bind A B (c : M X A) (k : A -> M X B) :
  keeps (within paths m) c -> (forall a, keeps (within paths m) (k a)) ->
  keeps (within paths m) (bind c k).
Proof.
  intros Hc Hk st H. unfold bind. specialize (Hc st H).
  destruct (c st) as [[a| |] st1]; cbn [snd] in *; try done. by apply Hk.
Qed.

Lemma keeps_modify (f : State X -> State X) :
  (forall st, mem (f st) = mem st /\ formal (f st) = formal st) ->
  keeps (within paths m) (modify f).
Proof.
  intros Hf st [H1 H2]. destruct (Hf st) as [Em Ef]. unfold modify, within. cbn [snd].
  rewrite Em, Ef. done.
Qed.

Lemma keeps_store p v : p ∈ paths -> keeps (within paths m) (store (X:=X) p v).
Proof.
  intros Hp st [H1 H2]. unfold store, modify, within. cbn. split; [|exact H2].
  intros q Hq. rewrite lookup_insert_ne; [by apply H1|]. by intros ->.
Qed.

Lemma keeps_FlagSet_Var cl vt p nm us :
  p ∈ paths -> keeps (within paths m) (FlagSet_Var X cl (vt, p) nm us).
Proof.
  intros Hp st [H1 H2]. unfold FlagSet_Var.
  destruct (String.prefix "-" nm); [done|].
  destruct (contains_byte "="%char nm); [done|].
  destruct (formal st !! nm) eqn:E; [by destruct (String.eqb (name cl) "")|].
  split; [exact H1|]. cbn. intros nm' f Hf.
  destruct (decide (nm' = nm)) as [->|Hne].
  - rewrite lookup_insert_eq in Hf. by injection Hf as <-.
  - rewrite lookup_insert_ne in Hf by done. by eapply H2.
Qed.

Lemma keeps_define cl vt p v nm us :
  p ∈ paths ->
  keeps (within paths m)
    (do_ store p v; do_ FlagSet_Var X cl (vt, p) nm us; ret (None : option error)).
Proof.
  intros Hp. apply keeps_bind; [by apply keeps_store|]. intros _.
  apply keeps_bind; [by apply keeps_FlagSet_Var|]. intros _. apply keeps_ret.
Qed.

Lemma keeps_parseValue cl t p fn text us :
  p ∈ paths -> keeps (within paths m) (parseValue X cl (Kind_of t) (p, t) fn text us).
Proof.
  intros Hp st H.
  destruct (ValueType_of t) as [vt|] eqn:Hv.
  - destruct (parseValue_coerce X cl t vt p fn text us st Hv) as (r & _ & ->).
    destruct r as [v|e]; [|done]. by apply keeps_define.
  - destruct t as [ | | | | | | | | | | | |sub|k]; try discriminate.
    + done.
    + cbn [Kind_of parseValue]. by destruct k.
Qed.

Lemma keeps_resolve_terminal cl t :
  t_path t ∈ paths -> keeps (within paths m) (resolve_terminal X cl t).
Proof.
  intros Hp. unfold resolve_terminal, resolve.
  apply keeps_bind; [by apply keeps_modify|]. intros _ st H.
  assert (Hk : forall text phase,
    keeps (within paths m)
      (do err <- parseValue X cl (Kind_of (Type_ (t_field t))) (t_path t, Type_ (t_field t))
                   (t_flagName t) text (t_usage cl t);
       match err with
       | Some err => ret (Some (Errorf_s_w phase (Name (t_field t)) err))
       | None => ret None
       end)).
  { intros text phase. apply keeps_bind; [by apply keeps_parseValue|].
    intros [e|]; apply keeps_ret. }
  destruct (lookupEnvFunc cl (t_envVarName cl t)); [destruct (negb (help st))|]; by apply Hk.
Qed.

Lemma keeps_resolve_all cl ts :
  (forall t, t ∈ ts -> t_path t ∈ paths) -> keeps (within paths m) (resolve_all X cl ts).
Proof.
  induction ts as [|t ts IH]; intros Hts; [apply keeps_ret|].
  cbn [resolve_all]. apply keeps_bind.
  - apply keeps_resolve_terminal, Hts, elem_of_cons. by left.
  - intros [e|]; [apply keeps_ret|]. apply IH. intros t' Ht'. apply Hts, elem_of_cons. by right.
Qed.

Lemma keeps_parseHelp flags : keeps (within paths m) (parseHelp X flags).
Proof.
  unfold parseHelp. destruct (existsb is_help_token flags); [by apply keeps_modify|apply keeps_ret].
Qed.

Lemma keeps_failf format a : keeps (within paths m) (failf X format a).
Proof.
  unfold failf. apply keeps_bind; [by apply keeps_modify|]. intros _.
  apply keeps_bind; [by apply keeps_modify|]. intros _. apply keeps_ret.
Qed.

Lemma keeps_failf_v format a e : keeps (within paths m) (failf_v X format a e).
Proof.
  unfold failf_v. apply keeps_bind; [by apply keeps_modify|]. intros _.
  apply keeps_bind; [by apply keeps_modify|]. intros _. apply keeps_ret.
Qed.

Lemma keeps_FlagSet_Parse : forall n args,
  (List.length args <= n)%nat -> keeps (within paths m) (FlagSet_Parse X args).
Proof.
  induction n as [|n IH]; intros args Hlen st H.
  - destruct args; [done|cbn in Hlen; lia].
  - rewrite FlagSet_Parse_eq.
    destruct (parseOne_step (formal st) args) as [ |fmt a| |f text fmt a rest] eqn:Estep.
    + done.
    + by apply keeps_failf.
    + destruct H. done.
    + destruct (parseOne_step_set _ _ _ _ _ _ _ Estep) as [Hlt (nm & Hf)].
      destruct (Flag_Value f) as [vt p] eqn:Ef.
      assert (Hp : p ∈ paths).
      { destruct H as [_ H2]. specialize (H2 nm f Hf). by rewrite Ef in H2. }
      unfold bind. rewrite Value_Set_spec.
      assert (H' : within paths m
                (set_mem X (<[p:=(set_value X vt (mem st !! p) text).1]> (mem st)) st)).
      { destruct H as [H1 H2]. split; [|exact H2]. cbn. intros q Hq.
        rewrite lookup_insert_ne; [by apply H1|]. by intros ->. }
      destruct (snd (set_value X vt (mem st !! p) text)) as [e|].
      * by apply keeps_failf_v.
      * apply IH; [lia|exact H'].
Qed.

Lemma keeps_exit cl r : keeps (within paths m) (exit X cl r).
Proof.
  destruct r as [e|]; [|apply keeps_ret]. unfold exit. intros st H.
  destruct (errorHandling cl); try done.
  - by destruct (errors_Is_ErrHelp e).
  - by destruct (help st || errors_Is_ErrHelp e).
Qed.

End Within.

Lemma keeps_subParse X (m : gmap Path (value X)) cl config flags :
  keeps (within (config_paths config) m) (subParse X cl config flags "").
Proof.
  destruct config as [| |fs [root|]].
  - unfold subParse. apply keeps_bind; [apply keeps_parseHelp|]. intros _. apply keeps_ret.
  - unfold subParse. apply keeps_bind; [apply keeps_parseHelp|]. intros _. apply keeps_ret.
  - intros st H. rewrite subParse_flat.
    apply keeps_resolve_all.
    + intros t Ht. cbn [config_paths]. apply list_elem_of_fmap. by exists t.
    + unfold after_help. destruct (existsb is_help_token flags); [|done].
      destruct H. done.
  - unfold subParse. apply keeps_bind; [apply keeps_parseHelp|]. intros _. apply keeps_panic.
Qed.

(** X14. Whatever the arguments, the environment and the way it ends, [parse]
    on a fresh command line writes the memory only at the terminal fields
    of the record [config] points to, all of which lie inside the record;
    for a [config] that is no pointer to a record it writes nothing. *)
Theorem parse_writes_only_the_terminal_fields X (m : gmap Path (value X)) cl config flags p :
  p ∉ config_paths config ->
  mem (snd (parse X cl config flags (newState X m))) !! p = m !! p
  /\ (forall q, q ∈ config_paths config ->
        exists fs root j rest,
          config = PointerToStruct fs (Some root) /\ q = (root ++ j :: rest)%list).
Proof.
  intros Hp. split.
  - assert (H0 : within (config_paths config) m (newState X m)).
    { split; [done|]. intros nm f Hf. cbn in Hf. by rewrite lookup_empty in Hf. }
    assert (Hk : keeps (within (config_paths config) m) (parse X cl config flags)).
    { unfold parse. apply keeps_bind; [apply keeps_subParse|].
      intros [e|]; [apply keeps_exit|].
      apply keeps_bind; [by apply (keeps_FlagSet_Parse X _ _ (List.length flags))|].
      intros r. apply keeps_exit. }
    destruct (Hk _ H0) as [H1 _]. by apply H1.
  - intros q Hq. destruct config as [| |fs [root|]]; try (by apply elem_of_nil in Hq).
    cbn [config_paths] in Hq. apply list_elem_of_fmap in Hq as (t & -> & Ht).
    destruct (terminals_paths fs 0 root "" t Ht) as (j & rest & _ & E).
    by exists fs, root, j, rest.
Qed.

Lemma parse_writes_only_the_terminal_fields_witness :
  ([1%nat] ∉ config_paths port_ptr)
  /\ mem (snd (parse spec_Extern (cool ExitOnError env_COOL_PORT_8080) port_ptr
                 ["-port"; "9090"] (newState spec_Extern ∅))) !! [1%nat]
     = (∅ : gmap Path (value spec_Extern)) !! [1%nat].
Proof.
  assert (H : [1%nat] ∉ config_paths port_ptr).
  { intros H. vm_compute in H. apply list_elem_of_singleton in H. discriminate. }
  split; [exact H|].
  exact (proj1 (parse_writes_only_the_terminal_fields spec_Extern
                  ∅ (cool ExitOnError env_COOL_PORT_8080) port_ptr ["-port"; "9090"]
                  [1%nat] H)).
Defined.
